(** * The transaction commit core of scoutfs (src/trans.c)

    A shallow embedding of [trans.c]: writers hold and release the one
    transaction being built, reserving room in the output segment for
    their dirty items; a single work function waits for the holders to
    drain and writes the transaction out; [scoutfs_trans_sync] kicks that
    work and optionally waits for its result.

    The kernel state the file touches is a record passed explicitly from
    one call to the next.  A call that can sleep on a waitqueue takes the
    schedule of its sleep as an argument: what the other tasks do to the
    shared state between two evaluations of the wait condition, and
    whether a signal is pending.  [BUG_ON] is an outcome of its own. *)

From stdpp Require Import gmap list.
From Stdlib Require Import ZArith Lia.

Local Open Scope Z_scope.

(** ** C integers *)

(** [unsigned]: 32 bits, arithmetic modulo 2^32. *)
Definition wrap32 (z : Z) : Z := z mod 2 ^ 32.

(** [u64]: arithmetic modulo 2^64. *)
Definition wrap64 (z : Z) : Z := z mod 2 ^ 64.

(** [signed]: 32 bits, two's complement (the kernel is built with
    -fno-strict-overflow, so a signed sum wraps). *)
Definition wrap_int (z : Z) : Z := (z + 2 ^ 31) mod 2 ^ 32 - 2 ^ 31.

Definition INT_MAX : Z := 2 ^ 31 - 1.
Definition INT_MIN : Z := - 2 ^ 31.

Definition is_int (z : Z) : Prop := INT_MIN <= z <= INT_MAX.

Definition EINVAL : Z := 22.
Definition ENOMEM : Z := 12.
Definition ERESTARTSYS : Z := 512.

(** ** Data *)

(** A task ([current], [sbi->trans_task]) is named by a [nat]. *)

(** [struct scoutfs_item_count]: declared in a header; trans.c compares
    its fields with 0 as signed values and adds [signed] arguments to
    them, so both fields are C ints. *)
Record scoutfs_item_count : Type := mk_count {
  items : Z;
  vals : Z
}.

Definition count_is_int (cnt : scoutfs_item_count) : Prop :=
  is_int (items cnt) /\ is_int (vals cnt).

Definition SCOUTFS_RESERVATION_MAGIC : Z := 0xd57cd13b.

(** [struct scoutfs_reservation] *)
Record scoutfs_reservation : Type := mk_rsv {
  rsv_magic : Z;
  rsv_holders : Z;
  rsv_reserved : scoutfs_item_count;
  rsv_actual : scoutfs_item_count
}.

(** What [kzalloc] hands out, with the magic stored (lines 364-368). *)
Definition new_reservation : scoutfs_reservation :=
  mk_rsv SCOUTFS_RESERVATION_MAGIC 0 (mk_count 0 0) (mk_count 0 0).

(** [struct trans_info] *)
Record trans_info : Type := mk_tri {
  tri_reserved_items : Z;
  tri_reserved_vals : Z;
  tri_holders : Z;
  tri_writing : bool
}.

(** The [trans_*] fields of [struct scoutfs_sb_info].  The delayed work
    [trans_write_work] is described by the delay it is queued with. *)
Record scoutfs_sb_info : Type := mk_sbi {
  trans_task : option nat;
  trans_deadline_expired : bool;
  trans_write_count : Z;
  trans_write_ret : Z;
  trans_seq : Z;
  trans_write_work : option Z
}.

(** The counters of counters.h that trans.c bumps. *)
Inductive counter : Type :=
| trans_commit_timer
| trans_commit_fsync
| trans_commit_full
| trans_level0_seg_writes
| trans_level0_seg_write_bytes.

Record counters : Type := mk_counters {
  ctr_commit_timer : Z;
  ctr_commit_fsync : Z;
  ctr_commit_full : Z;
  ctr_level0_seg_writes : Z;
  ctr_level0_seg_write_bytes : Z
}.

Definition read_counter (c : counter) (cs : counters) : Z :=
  match c with
  | trans_commit_timer => ctr_commit_timer cs
  | trans_commit_fsync => ctr_commit_fsync cs
  | trans_commit_full => ctr_commit_full cs
  | trans_level0_seg_writes => ctr_level0_seg_writes cs
  | trans_level0_seg_write_bytes => ctr_level0_seg_write_bytes cs
  end.

Definition add_counter (c : counter) (n : Z) (cs : counters) : counters :=
  match c with
  | trans_commit_timer =>
      mk_counters (ctr_commit_timer cs + n) (ctr_commit_fsync cs) (ctr_commit_full cs)
                  (ctr_level0_seg_writes cs) (ctr_level0_seg_write_bytes cs)
  | trans_commit_fsync =>
      mk_counters (ctr_commit_timer cs) (ctr_commit_fsync cs + n) (ctr_commit_full cs)
                  (ctr_level0_seg_writes cs) (ctr_level0_seg_write_bytes cs)
  | trans_commit_full =>
      mk_counters (ctr_commit_timer cs) (ctr_commit_fsync cs) (ctr_commit_full cs + n)
                  (ctr_level0_seg_writes cs) (ctr_level0_seg_write_bytes cs)
  | trans_level0_seg_writes =>
      mk_counters (ctr_commit_timer cs) (ctr_commit_fsync cs) (ctr_commit_full cs)
                  (ctr_level0_seg_writes cs + n) (ctr_level0_seg_write_bytes cs)
  | trans_level0_seg_write_bytes =>
      mk_counters (ctr_commit_timer cs) (ctr_commit_fsync cs) (ctr_commit_full cs)
                  (ctr_level0_seg_writes cs) (ctr_level0_seg_write_bytes cs + n)
  end.

(** The places of trans.c that warn once. *)
Inductive warn_site : Type :=
| warn_hold_garbage_count      (* line 355 *)
| warn_hold_not_single         (* line 356 *)
| warn_track_items             (* line 423 *)
| warn_track_vals              (* line 424 *)
| warn_write_ret.              (* line 164 *)

Global Instance warn_site_eq_dec : EqDecision warn_site.
Proof. solve_decision. Defined.

(** The calls trans.c makes into the item cache, the segment code, the
    bio layer, the inode walk and the client.  They are logged in the
    order they are made. *)
Inductive call : Type :=
| c_inode_walk_writeback (sync : bool)
| c_client_alloc_segno
| c_seg_alloc
| c_item_dirty_seg
| c_seg_submit_write
| c_bio_wait_comp
| c_client_record_segment (level : Z)
| c_client_advance_seq
| c_seg_put
| c_seg_total_bytes.

Global Instance call_eq_dec : EqDecision call.
Proof. solve_decision. Defined.

(** ** The rest of the file system

    trans.c only calls these; their code is elsewhere.  [W] is the state
    they keep (item cache, segments, block I/O, the server), [Seg] a
    segment, [Comp] a bio completion.  A call returns its C return value
    (0 or a negative errno), what it stored through its out-pointer, and
    the new state. *)
Class Collaborators (W Seg Comp : Type) : Type := {
  scoutfs_item_has_dirty : W -> bool;
  scoutfs_item_dirty_fits_single : W -> Z -> Z -> bool;
  scoutfs_seg_fits_single : Z -> Z -> bool;
  scoutfs_bio_init_comp : Comp;
  scoutfs_inode_walk_writeback : bool -> W -> Z * W;
  scoutfs_client_alloc_segno : W -> Z * Z * W;
  scoutfs_seg_alloc : Z -> W -> Z * option Seg * W;
  scoutfs_item_dirty_seg : option Seg -> W -> Z * W;
  scoutfs_seg_submit_write : option Seg -> Comp -> W -> Z * Comp * W;
  scoutfs_bio_wait_comp : Comp -> W -> Z * Comp * W;
  scoutfs_client_record_segment : option Seg -> Z -> W -> Z * W;
  scoutfs_client_advance_seq : Z -> W -> Z * Z * W;
  scoutfs_seg_put : option Seg -> W -> W;
  scoutfs_seg_total_bytes : option Seg -> W -> Z
}.

(** [HZ * 10], with [HZ] the kernel's tick rate. *)
Definition TRANS_SYNC_DELAY (HZ : Z) : Z := HZ * 10.

Section trans.

Context {W Seg Comp : Type} {collab : Collaborators W Seg Comp}.
Variable HZ : Z.

(** ** The state trans.c works on

    [journal_info] is [current->journal_info] of every task: the
    reservation that a task's pointer leads to, absent when the pointer
    is NULL.  [klog] lists the sites whose [WARN_ON_ONCE] has printed. *)
Record state : Type := mk_state {
  sbi : scoutfs_sb_info;
  tri : trans_info;
  journal_info : gmap nat scoutfs_reservation;
  ctrs : counters;
  klog : list warn_site;
  world : W;
  calls : list call
}.

Definition set_sbi (f : scoutfs_sb_info -> scoutfs_sb_info) (s : state) : state :=
  mk_state (f (sbi s)) (tri s) (journal_info s) (ctrs s) (klog s) (world s) (calls s).

Definition set_tri (f : trans_info -> trans_info) (s : state) : state :=
  mk_state (sbi s) (f (tri s)) (journal_info s) (ctrs s) (klog s) (world s) (calls s).

Definition set_journal_info
    (f : gmap nat scoutfs_reservation -> gmap nat scoutfs_reservation) (s : state) : state :=
  mk_state (sbi s) (tri s) (f (journal_info s)) (ctrs s) (klog s) (world s) (calls s).

Definition set_ctrs (f : counters -> counters) (s : state) : state :=
  mk_state (sbi s) (tri s) (journal_info s) (f (ctrs s)) (klog s) (world s) (calls s).

Definition set_klog (f : list warn_site -> list warn_site) (s : state) : state :=
  mk_state (sbi s) (tri s) (journal_info s) (ctrs s) (f (klog s)) (world s) (calls s).

Definition set_world (f : W -> W) (s : state) : state :=
  mk_state (sbi s) (tri s) (journal_info s) (ctrs s) (klog s) (f (world s)) (calls s).

Definition log_call (c : call) (s : state) : state :=
  mk_state (sbi s) (tri s) (journal_info s) (ctrs s) (klog s) (world s) (calls s ++ [c]).

Definition set_trans_task (t : option nat) (b : scoutfs_sb_info) : scoutfs_sb_info :=
  mk_sbi t (trans_deadline_expired b) (trans_write_count b) (trans_write_ret b)
         (trans_seq b) (trans_write_work b).

Definition set_trans_deadline_expired (e : bool) (b : scoutfs_sb_info) : scoutfs_sb_info :=
  mk_sbi (trans_task b) e (trans_write_count b) (trans_write_ret b)
         (trans_seq b) (trans_write_work b).

Definition set_trans_write_count (n : Z) (b : scoutfs_sb_info) : scoutfs_sb_info :=
  mk_sbi (trans_task b) (trans_deadline_expired b) n (trans_write_ret b)
         (trans_seq b) (trans_write_work b).

Definition set_trans_write_ret (r : Z) (b : scoutfs_sb_info) : scoutfs_sb_info :=
  mk_sbi (trans_task b) (trans_deadline_expired b) (trans_write_count b) r
         (trans_seq b) (trans_write_work b).

Definition set_trans_seq (q : Z) (b : scoutfs_sb_info) : scoutfs_sb_info :=
  mk_sbi (trans_task b) (trans_deadline_expired b) (trans_write_count b) (trans_write_ret b)
         q (trans_write_work b).

(** [mod_delayed_work(sbi->trans_write_workq, &sbi->trans_write_work, delay)] *)
Definition mod_delayed_work (delay : Z) (b : scoutfs_sb_info) : scoutfs_sb_info :=
  mk_sbi (trans_task b) (trans_deadline_expired b) (trans_write_count b) (trans_write_ret b)
         (trans_seq b) (Some delay).

Definition set_tri_reserved (i v : Z) (t : trans_info) : trans_info :=
  mk_tri i v (tri_holders t) (tri_writing t).

Definition set_tri_holders (h : Z) (t : trans_info) : trans_info :=
  mk_tri (tri_reserved_items t) (tri_reserved_vals t) h (tri_writing t).

Definition set_tri_writing (w : bool) (t : trans_info) : trans_info :=
  mk_tri (tri_reserved_items t) (tri_reserved_vals t) (tri_holders t) w.

Definition set_rsv_holders (h : Z) (r : scoutfs_reservation) : scoutfs_reservation :=
  mk_rsv (rsv_magic r) h (rsv_reserved r) (rsv_actual r).

Definition set_rsv_reserved (c : scoutfs_item_count) (r : scoutfs_reservation)
    : scoutfs_reservation :=
  mk_rsv (rsv_magic r) (rsv_holders r) c (rsv_actual r).

Definition set_rsv_actual (c : scoutfs_item_count) (r : scoutfs_reservation)
    : scoutfs_reservation :=
  mk_rsv (rsv_magic r) (rsv_holders r) (rsv_reserved r) c.

(** After [kzalloc] in [scoutfs_setup_trans]: nothing reserved, nobody
    holding, nothing written yet, no task with a reservation. *)
Definition initial_state (w : W) : state :=
  mk_state (mk_sbi None false 0 0 0 None) (mk_tri 0 0 0 false) ∅
           (mk_counters 0 0 0 0 0) [] w [].

Definition scoutfs_inc_counter (c : counter) (s : state) : state :=
  set_ctrs (add_counter c 1) s.

Definition scoutfs_add_counter (c : counter) (n : Z) (s : state) : state :=
  set_ctrs (add_counter c n) s.

(** [WARN_ON_ONCE(cond)] at [site]: yields [cond]; prints the first time
    [cond] is true at that site and never again. *)
Definition WARN_ON_ONCE (site : warn_site) (cond : bool) (s : state) : bool * state :=
  if cond && negb (bool_decide (site ∈ klog s))
  then (cond, set_klog (fun l => l ++ [site]) s)
  else (cond, s).

(** ** Sleeping on a waitqueue

    [wait_event] and [wait_event_interruptible] of linux/wait.h evaluate
    the condition once; when it is false they loop: look whether a
    signal is pending, evaluate the condition again, leave with 0 when it
    is true, leave with -ERESTARTSYS when it is false and the wait is
    interruptible and a signal was pending, sleep otherwise.  A [round]
    is one turn of that loop: what the other tasks did to the state since
    the condition was last evaluated, and whether a signal is pending.
    When the rounds run out the task is still asleep. *)
Record round : Type := mk_round {
  interference : state -> state;
  signal_pending : bool
}.

Inductive outcome (A : Type) : Type :=
| Returned (ret : A) (s : state)
| Blocked (s : state)
| Bug.

#[global] Arguments Returned {A} ret s.
#[global] Arguments Blocked {A} s.
#[global] Arguments Bug {A}.

Section wait.

(** The condition works on the state and on locals of type [L] of the
    waiting function; [None] when it trips a [BUG_ON] or follows a
    pointer to freed memory. *)
Context {L : Type}.
Variable condition : L -> state -> option (bool * L * state).

Fixpoint ___wait_event (interruptible : bool) (rounds : list round)
    (l : L) (s : state) : outcome (Z * L) :=
  match rounds with
  | [] => Blocked s
  | r :: rest =>
      match condition l (interference r s) with
      | None => Bug
      | Some (true, l1, s1) => Returned (0, l1) s1
      | Some (false, l1, s1) =>
          if interruptible && signal_pending r
          then Returned (- ERESTARTSYS, l1) s1
          else ___wait_event interruptible rest l1 s1
      end
  end.

Definition wait_event_interruptible (rounds : list round) (l : L) (s : state)
    : outcome (Z * L) :=
  match condition l s with
  | None => Bug
  | Some (true, l1, s1) => Returned (0, l1) s1
  | Some (false, l1, s1) => ___wait_event true rounds l1 s1
  end.

Definition wait_event (rounds : list round) (l : L) (s : state) : outcome (Z * L) :=
  match condition l s with
  | None => Bug
  | Some (true, l1, s1) => Returned (0, l1) s1
  | Some (false, l1, s1) => ___wait_event false rounds l1 s1
  end.

End wait.

(** ** Kicking the commit *)

(** lines 209-213 *)
Definition queue_trans_work (s : state) : state :=
  set_sbi (fun b => mod_delayed_work 0 (set_trans_deadline_expired false b)) s.

(** lines 258-265 *)
Definition scoutfs_trans_restart_sync_deadline (s : state) : state :=
  set_sbi (fun b => mod_delayed_work (TRANS_SYNC_DELAY HZ) (set_trans_deadline_expired true b)) s.

(** ** Holding the transaction *)

(** The [hold:] label of [acquired_hold] (lines 332-335), for the
    reservation [rsv] of [current]. *)
Definition hold_label (current : nat) (rsv : scoutfs_reservation) (s : state) : state :=
  set_tri (fun t => set_tri_holders (wrap32 (tri_holders t + 1)) t)
    (set_journal_info
       (insert current (set_rsv_holders (wrap32 (rsv_holders rsv + 1)) rsv)) s).

(** lines 289-342; [rsv] is the reservation of [current], and the C
    locals [items] and [vals] are [new_items] and [new_vals]. *)
Definition acquired_hold (current : nat) (cnt : scoutfs_item_count) (s : state)
    : option (bool * state) :=
  match journal_info s !! current with
  | None => None
  | Some rsv =>
      if negb (rsv_holders rsv =? 0) then
        Some (true, hold_label current rsv s)
      else if tri_writing (tri s) then
        Some (false, s)
      else
        let new_items := wrap32 (tri_reserved_items (tri s) + items cnt) in
        let new_vals := wrap32 (tri_reserved_vals (tri s) + vals cnt) in
        let fits := scoutfs_item_dirty_fits_single (world s) new_items new_vals in
        if negb fits then
          Some (false, queue_trans_work (scoutfs_inc_counter trans_commit_full s))
        else
          Some (true,
                hold_label current
                  (set_rsv_reserved (mk_count (items cnt) (vals cnt)) rsv)
                  (set_tri (set_tri_reserved new_items new_vals) s))
  end.

(** lines 351-372: what [scoutfs_hold_trans] does before it waits.  It
    is done ([inl]) or goes on to wait in the given state ([inr]). *)
Definition hold_prologue (current : nat) (cnt : scoutfs_item_count) (kzalloc_ok : bool)
    (s : state) : outcome Z + state :=
  let '(garbage, s1) :=
    WARN_ON_ONCE warn_hold_garbage_count ((items cnt <=? 0) || (vals cnt <? 0)) s in
  if garbage then inl (Returned (- EINVAL) s1) else
  let '(too_big, s2) :=
    WARN_ON_ONCE warn_hold_not_single
      (negb (scoutfs_seg_fits_single (items cnt) (vals cnt))) s1 in
  if too_big then inl (Returned (- EINVAL) s2) else
  if bool_decide (trans_task (sbi s2) = Some current) then inl (Returned 0 s2) else
  match journal_info s2 !! current with
  | Some rsv =>
      if rsv_magic rsv =? SCOUTFS_RESERVATION_MAGIC then inr s2 else inl Bug
  | None =>
      if kzalloc_ok
      then inr (set_journal_info (insert current new_reservation) s2)
      else inl (Returned (- ENOMEM) s2)
  end.

(** lines 376-380: what it does with the result of the wait. *)
Definition hold_epilogue (current : nat) (o : outcome (Z * unit)) : outcome Z :=
  match o with
  | Returned (ret, _) s =>
      match journal_info s !! current with
      | None => Bug
      | Some rsv =>
          if negb (ret =? 0) && (rsv_holders rsv =? 0)
          then Returned ret (set_journal_info (delete current) s)
          else Returned ret s
      end
  | Blocked s => Blocked s
  | Bug => Bug
  end.

Definition hold_condition (current : nat) (cnt : scoutfs_item_count)
    (l : unit) (s : state) : option (bool * unit * state) :=
  match acquired_hold current cnt s with
  | Some (acquired, s1) => Some (acquired, l, s1)
  | None => None
  end.

(** lines 344-381 *)
Definition scoutfs_hold_trans (current : nat) (cnt : scoutfs_item_count)
    (kzalloc_ok : bool) (rounds : list round) (s : state) : outcome Z :=
  match hold_prologue current cnt kzalloc_ok s with
  | inl done => done
  | inr s1 =>
      hold_epilogue current
        (wait_event_interruptible (hold_condition current cnt) rounds tt s1)
  end.

(** lines 388-393 *)
Definition scoutfs_trans_held (current : nat) (s : state) : bool :=
  match journal_info s !! current with
  | Some rsv => rsv_magic rsv =? SCOUTFS_RESERVATION_MAGIC
  | None => false
  end.

(** lines 405-425 *)
Definition scoutfs_trans_track_item (current : nat) (d_items d_vals : Z) (s : state)
    : outcome unit :=
  if bool_decide (trans_task (sbi s) = Some current) then Returned tt s else
  match journal_info s !! current with
  | None => Bug
  | Some rsv =>
      if negb (rsv_magic rsv =? SCOUTFS_RESERVATION_MAGIC) then Bug else
      let actual := mk_count (wrap_int (items (rsv_actual rsv) + d_items))
                             (wrap_int (vals (rsv_actual rsv) + d_vals)) in
      let s1 := set_journal_info (insert current (set_rsv_actual actual rsv)) s in
      let '(_, s2) :=
        WARN_ON_ONCE warn_track_items (items (rsv_reserved rsv) <? items actual) s1 in
      let '(_, s3) :=
        WARN_ON_ONCE warn_track_vals (vals (rsv_reserved rsv) <? vals actual) s2 in
      Returned tt s3
  end.

(** lines 433-470.  [wake_up] changes none of the fields here: whom it
    wakes shows in the rounds of the sleepers. *)
Definition scoutfs_release_trans (current : nat) (s : state) : outcome unit :=
  if bool_decide (trans_task (sbi s) = Some current) then Returned tt s else
  match journal_info s !! current with
  | None => Bug
  | Some rsv =>
      if negb (rsv_magic rsv =? SCOUTFS_RESERVATION_MAGIC) then Bug else
      if rsv_holders rsv <=? 0 then Bug else
      if tri_holders (tri s) <=? 0 then Bug else
      let holders := wrap32 (rsv_holders rsv - 1) in
      let s1 :=
        if holders =? 0 then
          set_journal_info (delete current)
            (set_tri (fun t =>
               set_tri_reserved
                 (wrap32 (tri_reserved_items t - items (rsv_reserved rsv)))
                 (wrap32 (tri_reserved_vals t - vals (rsv_reserved rsv))) t) s)
        else
          set_journal_info (insert current (set_rsv_holders holders rsv)) s in
      Returned tt (set_tri (fun t => set_tri_holders (wrap32 (tri_holders t - 1)) t) s1)
  end.

(** ** Writing the transaction *)

(** lines 71-81 *)
Definition drained_holders (s : state) : bool * state :=
  let s1 := set_tri (set_tri_writing true) s in
  (tri_holders (tri s1) =? 0, s1).

Definition drained_condition (l : unit) (s : state) : option (bool * unit * state) :=
  let '(drained, s1) := drained_holders s in Some (drained, l, s1).

(** The locals of [scoutfs_trans_write_func] and the state. *)
Record frame : Type := mk_frame {
  f_segno : Z;
  f_seg : option Seg;
  f_comp : Comp;
  f_st : state
}.

Definition step : Type := frame -> Z * frame.

(** GNU C's [a ?: b]: the value of [a] when it is not 0, without
    evaluating [b]; the value of [b] otherwise. *)
Definition elvis (a b : step) : step :=
  fun fr => let '(ret, fr1) := a fr in if ret =? 0 then b fr1 else (ret, fr1).

Local Notation "a ?: b" := (elvis a b) (at level 60, right associativity).

Definition inode_walk_writeback (sync : bool) : step := fun fr =>
  let '(ret, w) := scoutfs_inode_walk_writeback sync (world (f_st fr)) in
  (ret, mk_frame (f_segno fr) (f_seg fr) (f_comp fr)
          (log_call (c_inode_walk_writeback sync) (set_world (fun _ => w) (f_st fr)))).

Definition client_alloc_segno : step := fun fr =>
  let '(ret, segno, w) := scoutfs_client_alloc_segno (world (f_st fr)) in
  (ret, mk_frame segno (f_seg fr) (f_comp fr)
          (log_call c_client_alloc_segno (set_world (fun _ => w) (f_st fr)))).

Definition seg_alloc : step := fun fr =>
  let '(ret, seg, w) := scoutfs_seg_alloc (f_segno fr) (world (f_st fr)) in
  (ret, mk_frame (f_segno fr) seg (f_comp fr)
          (log_call c_seg_alloc (set_world (fun _ => w) (f_st fr)))).

Definition item_dirty_seg : step := fun fr =>
  let '(ret, w) := scoutfs_item_dirty_seg (f_seg fr) (world (f_st fr)) in
  (ret, mk_frame (f_segno fr) (f_seg fr) (f_comp fr)
          (log_call c_item_dirty_seg (set_world (fun _ => w) (f_st fr)))).

Definition seg_submit_write : step := fun fr =>
  let '(ret, comp, w) := scoutfs_seg_submit_write (f_seg fr) (f_comp fr) (world (f_st fr)) in
  (ret, mk_frame (f_segno fr) (f_seg fr) comp
          (log_call c_seg_submit_write (set_world (fun _ => w) (f_st fr)))).

Definition bio_wait_comp : step := fun fr =>
  let '(ret, comp, w) := scoutfs_bio_wait_comp (f_comp fr) (world (f_st fr)) in
  (ret, mk_frame (f_segno fr) (f_seg fr) comp
          (log_call c_bio_wait_comp (set_world (fun _ => w) (f_st fr)))).

Definition client_record_segment (level : Z) : step := fun fr =>
  let '(ret, w) := scoutfs_client_record_segment (f_seg fr) level (world (f_st fr)) in
  (ret, mk_frame (f_segno fr) (f_seg fr) (f_comp fr)
          (log_call (c_client_record_segment level) (set_world (fun _ => w) (f_st fr)))).

(** [scoutfs_client_advance_seq(sb, &sbi->trans_seq)] *)
Definition client_advance_seq : step := fun fr =>
  let '(ret, seq, w) :=
    scoutfs_client_advance_seq (trans_seq (sbi (f_st fr))) (world (f_st fr)) in
  (ret, mk_frame (f_segno fr) (f_seg fr) (f_comp fr)
          (log_call c_client_advance_seq
             (set_sbi (set_trans_seq seq) (set_world (fun _ => w) (f_st fr))))).

(** lines 134-142 *)
Definition write_pipeline : step :=
  inode_walk_writeback true ?:
  client_alloc_segno ?:
  seg_alloc ?:
  item_dirty_seg ?:
  seg_submit_write ?:
  inode_walk_writeback false ?:
  bio_wait_comp ?:
  client_record_segment 0 ?:
  client_advance_seq.

(** [scoutfs_seg_put(seg)], line 143 *)
Definition seg_put (fr : frame) : state :=
  log_call c_seg_put (set_world (scoutfs_seg_put (f_seg fr)) (f_st fr)).

(** lines 147-149 *)
Definition count_segment_write (seg : option Seg) (s : state) : state :=
  let s1 := scoutfs_inc_counter trans_level0_seg_writes s in
  scoutfs_add_counter trans_level0_seg_write_bytes
    (scoutfs_seg_total_bytes seg (world s1)) (log_call c_seg_total_bytes s1).

(** lines 126-160, from the test of the dirty items to the [out:] label:
    the value of [ret] there and the state.  [seg] starts as NULL and
    [segno] is not read before [scoutfs_client_alloc_segno] stored it. *)
Definition write_func_body (s : state) : Z * state :=
  if scoutfs_item_has_dirty (world s) then
    let s1 :=
      if trans_deadline_expired (sbi s)
      then scoutfs_inc_counter trans_commit_timer s else s in
    let '(ret, fr) := write_pipeline (mk_frame 0 None scoutfs_bio_init_comp s1) in
    let s2 := seg_put fr in
    if negb (ret =? 0) then (ret, s2)
    else (ret, count_segment_write (f_seg fr) s2)
  else if trans_deadline_expired (sbi s) then
    let '(ret, fr) := client_advance_seq (mk_frame 0 None scoutfs_bio_init_comp s) in
    (ret, f_st fr)
  else (0, s).

(** lines 162-180, from the [out:] label on *)
Definition write_func_finish (ret : Z) (s : state) : state :=
  let '(_, s1) := WARN_ON_ONCE warn_write_ret (negb (ret =? 0)) s in
  let s2 :=
    set_sbi (fun b =>
      set_trans_write_ret ret (set_trans_write_count (wrap64 (trans_write_count b + 1)) b))
      s1 in
  let s3 := set_tri (set_tri_writing false) s2 in
  let s4 := set_sbi (set_trans_task None) s3 in
  scoutfs_trans_restart_sync_deadline s4.

(** What the work function does once the holders have drained. *)
Definition write_after_drain (s : state) : state :=
  let '(ret, s1) := write_func_body s in write_func_finish ret s1.

(** lines 123-180: what the work function does with the result of its
    wait. *)
Definition write_func_epilogue (o : outcome (Z * unit)) : outcome unit :=
  match o with
  | Returned _ s => Returned tt (write_after_drain s)
  | Blocked s => Blocked s
  | Bug => Bug
  end.

(** lines 107-181; [current] is the worker that runs the work. *)
Definition scoutfs_trans_write_func (current : nat) (rounds : list round) (s : state)
    : outcome unit :=
  let s0 := set_sbi (set_trans_task (Some current)) s in
  write_func_epilogue (wait_event drained_condition rounds tt s0).

(** ** Syncing *)

(** [struct write_attempt] *)
Record write_attempt : Type := mk_attempt {
  wa_count : Z;
  wa_ret : Z
}.

(** lines 189-202 *)
Definition write_attempted (attempt : write_attempt) (s : state)
    : option (bool * write_attempt * state) :=
  if wa_count attempt <? trans_write_count (sbi s)
  then Some (true, mk_attempt (wa_count attempt) (trans_write_ret (sbi s)), s)
  else Some (false, attempt, s).

(** lines 243-246 *)
Definition sync_epilogue (o : outcome (Z * write_attempt)) : outcome Z :=
  match o with
  | Returned (ret, attempt) s => Returned (if ret =? 0 then wa_ret attempt else ret) s
  | Blocked s => Blocked s
  | Bug => Bug
  end.

(** lines 223-247.  [attempt.ret] is not initialised in C; it is read
    only after [write_attempted] stored it, and starts as 0 here. *)
Definition scoutfs_trans_sync (wait : Z) (rounds : list round) (s : state) : outcome Z :=
  if wait =? 0 then Returned 0 (queue_trans_work s)
  else
    let attempt := mk_attempt (trans_write_count (sbi s)) 0 in
    let s1 := queue_trans_work s in
    sync_epilogue (wait_event_interruptible write_attempted rounds attempt s1).

(** lines 249-256 *)
Definition scoutfs_file_fsync (rounds : list round) (s : state) : outcome Z :=
  scoutfs_trans_sync 1 rounds (scoutfs_inc_counter trans_commit_fsync s).

(** ** Tasks running side by side

    The functions above are atomic between two sleeps: the fields they
    share are read and written under [tri->lock] and
    [sbi->trans_write_lock].  A run of the system is therefore a sequence
    of events: a task that is not asleep calls a function of trans.c (and
    falls asleep in it when its wait condition is false), a task that is
    asleep runs one more round of its wait loop, or code outside trans.c
    changes the state of the rest of the file system. *)

(** Where a sleeping task sleeps, with the locals it needs to go on. *)
Inductive sleeping : Type :=
| in_hold (cnt : scoutfs_item_count)
| in_write_func
| in_sync (attempt : write_attempt).

Record system : Type := mk_system {
  kernel : state;
  asleep : gmap nat sleeping
}.

Inductive event : Type :=
| call_hold (t : nat) (cnt : scoutfs_item_count) (kzalloc_ok : bool)
| call_track (t : nat) (d_items d_vals : Z)
| call_release (t : nat)
| call_write_func (t : nat)
| call_sync (t : nat) (wait : Z)
| call_fsync (t : nat)
| resume (t : nat) (signal : bool)
| elsewhere (f : W -> W).

(** The arguments are C ints. *)
Definition event_typed (e : event) : Prop :=
  match e with
  | call_hold _ cnt _ => count_is_int cnt
  | call_track _ d_items d_vals => is_int d_items /\ is_int d_vals
  | _ => True
  end.

Definition one_round (signal : bool) : list round := [mk_round (fun s => s) signal].

(** The system after task [t] got outcome [o] from a call that sleeps
    as [z]; nothing after a [BUG_ON]. *)
Definition settle {A : Type} (t : nat) (z : sleeping) (o : outcome A) (sys : system)
    : option system :=
  match o with
  | Returned _ s => Some (mk_system s (delete t (asleep sys)))
  | Blocked s => Some (mk_system s (<[t := z]> (asleep sys)))
  | Bug => None
  end.

(** The system after a call that does not sleep. *)
Definition finished {A : Type} (o : outcome A) (sys : system) : option system :=
  match o with
  | Returned _ s => Some (mk_system s (asleep sys))
  | Blocked _ => None
  | Bug => None
  end.

(** One event; [None] when the event cannot happen (a sleeping task
    calling, a task that is not asleep resuming) or ends in [BUG_ON]. *)
Definition sys_step (e : event) (sys : system) : option system :=
  let s := kernel sys in
  match e with
  | call_hold t cnt kzalloc_ok =>
      match asleep sys !! t with
      | Some _ => None
      | None => settle t (in_hold cnt) (scoutfs_hold_trans t cnt kzalloc_ok [] s) sys
      end
  | call_track t d_items d_vals =>
      match asleep sys !! t with
      | Some _ => None
      | None => finished (scoutfs_trans_track_item t d_items d_vals s) sys
      end
  | call_release t =>
      match asleep sys !! t with
      | Some _ => None
      | None => finished (scoutfs_release_trans t s) sys
      end
  | call_write_func t =>
      match asleep sys !! t with
      | Some _ => None
      | None => settle t in_write_func (scoutfs_trans_write_func t [] s) sys
      end
  | call_sync t wait =>
      match asleep sys !! t with
      | Some _ => None
      | None =>
          settle t (in_sync (mk_attempt (trans_write_count (sbi s)) 0))
            (scoutfs_trans_sync wait [] s) sys
      end
  | call_fsync t =>
      match asleep sys !! t with
      | Some _ => None
      | None =>
          settle t (in_sync (mk_attempt (trans_write_count (sbi s)) 0))
            (scoutfs_file_fsync [] s) sys
      end
  | resume t signal =>
      match asleep sys !! t with
      | None => None
      | Some (in_hold cnt) =>
          settle t (in_hold cnt)
            (hold_epilogue t
               (___wait_event (hold_condition t cnt) true (one_round signal) tt s)) sys
      | Some in_write_func =>
          settle t in_write_func
            (write_func_epilogue
               (___wait_event drained_condition false (one_round signal) tt s)) sys
      | Some (in_sync attempt) =>
          settle t (in_sync attempt)
            (sync_epilogue
               (___wait_event write_attempted true (one_round signal) attempt s)) sys
      end
  | elsewhere f => Some (mk_system (set_world f s) (asleep sys))
  end.

Fixpoint run (evs : list event) (sys : system) : option system :=
  match evs with
  | [] => Some sys
  | e :: rest =>
      match sys_step e sys with
      | Some sys1 => run rest sys1
      | None => None
      end
  end.

(** The system after [scoutfs_setup_trans]. *)
Definition boot (w : W) : system := mk_system (initial_state w) ∅.

(** ** The vocabulary of the statements *)

(** The sum of a field over the reservations that exist. *)
Definition sum_over (f : scoutfs_reservation -> Z) (m : gmap nat scoutfs_reservation) : Z :=
  map_fold (fun _ r acc => f r + acc) 0 m.

Definition reserved_items (rsv : scoutfs_reservation) : Z := items (rsv_reserved rsv).
Definition reserved_vals (rsv : scoutfs_reservation) : Z := vals (rsv_reserved rsv).

(** The manager's counts are the sums over the reservations. *)
Definition manager_sums (s : state) : Prop :=
  tri_reserved_items (tri s) = sum_over reserved_items (journal_info s) /\
  tri_reserved_vals (tri s) = sum_over reserved_vals (journal_info s) /\
  tri_holders (tri s) = sum_over rsv_holders (journal_info s).

(** Every reservation has tracked no more than it reserved. *)
Definition tracked_items_within (s : state) : Prop :=
  forall t rsv, journal_info s !! t = Some rsv ->
    items (rsv_actual rsv) <= items (rsv_reserved rsv).

Definition tracked_vals_within (s : state) : Prop :=
  forall t rsv, journal_info s !! t = Some rsv ->
    vals (rsv_actual rsv) <= vals (rsv_reserved rsv).

(** The item cache says that a transaction fits only when its counts are
    counts that a segment can hold, far below [INT_MAX]. *)
Definition fits_single_bounded : Prop :=
  forall w i v, scoutfs_item_dirty_fits_single w i v = true -> i <= INT_MAX /\ v <= INT_MAX.

(** Two states that differ at most in the log of warnings. *)
Definition same_but_klog (s s' : state) : Prop :=
  sbi s' = sbi s /\ tri s' = tri s /\ journal_info s' = journal_info s /\
  ctrs s' = ctrs s /\ world s' = world s /\ calls s' = calls s.

(** Two states that differ at most in what the calls into the rest of
    the file system change: its state, the log of calls, the sequence
    number and the counters. *)
Definition same_manager (s s' : state) : Prop :=
  tri s' = tri s /\ journal_info s' = journal_info s /\ klog s' = klog s /\
  trans_task (sbi s') = trans_task (sbi s) /\
  trans_deadline_expired (sbi s') = trans_deadline_expired (sbi s) /\
  trans_write_count (sbi s') = trans_write_count (sbi s) /\
  trans_write_ret (sbi s') = trans_write_ret (sbi s) /\
  trans_write_work (sbi s') = trans_write_work (sbi s).

(** The state after the other tasks did what the rounds say. *)
Fixpoint interfered (rounds : list round) (s : state) : state :=
  match rounds with
  | [] => s
  | r :: rest => interfered rest (interference r s)
  end.

(** A sleeper in [scoutfs_trans_sync] that took [snapshot] sleeps
    through these rounds: each time it looks, [trans_write_count] has not
    passed its snapshot and no signal is pending. *)
Fixpoint sleeps_through (snapshot : Z) (rounds : list round) (s : state) : Prop :=
  match rounds with
  | [] => True
  | r :: rest =>
      trans_write_count (sbi (interference r s)) <= snapshot /\
      signal_pending r = false /\
      sleeps_through snapshot rest (interference r s)
  end.

(** The checks of lines 355-356 pass. *)
Definition count_valid (cnt : scoutfs_item_count) : Prop :=
  0 < items cnt /\ 0 <= vals cnt /\ scoutfs_seg_fits_single (items cnt) (vals cnt) = true.

(** The calls of lines 134-142, in the order of the source. *)
Definition write_pipeline_calls : list call :=
  [ c_inode_walk_writeback true; c_client_alloc_segno; c_seg_alloc; c_item_dirty_seg;
    c_seg_submit_write; c_inode_walk_writeback false; c_bio_wait_comp;
    c_client_record_segment 0; c_client_advance_seq ].

Definition write_pipeline_steps : list step :=
  [ inode_walk_writeback true; client_alloc_segno; seg_alloc; item_dirty_seg;
    seg_submit_write; inode_walk_writeback false; bio_wait_comp;
    client_record_segment 0; client_advance_seq ].

(** ** The pipeline as the specification words it

    "Inode writeback start (sync), alloc_segno, segment allocation,
    draining dirty items into the segment, segment write submission,
    inode writeback start (no sync), waiting for I/O completion,
    record_segment at level 0, advance_seq; the first step to fail
    short-circuits all remaining steps while the effects of
    already-executed steps are not undone."

    This second definition follows these words and is written over the
    calls into the rest of the file system themselves, not over
    [write_pipeline] and its steps; the theorems compare the two.  Its
    result: what the last call made returned, how many calls were made,
    the segment and the sequence number as the calls stored them, and
    the rest of the file system as the calls made left it. *)
Record pipeline_result : Type := mk_result {
  pr_ret : Z;
  pr_calls : nat;
  pr_seg : option Seg;
  pr_seq : Z;
  pr_world : W
}.

Definition pipeline_in_words (seq : Z) (w0 : W) : pipeline_result :=
  let '(r1, w1) := scoutfs_inode_walk_writeback true w0 in
  if negb (r1 =? 0) then mk_result r1 1 None seq w1 else
  let '(r2, segno, w2) := scoutfs_client_alloc_segno w1 in
  if negb (r2 =? 0) then mk_result r2 2 None seq w2 else
  let '(r3, seg, w3) := scoutfs_seg_alloc segno w2 in
  if negb (r3 =? 0) then mk_result r3 3 seg seq w3 else
  let '(r4, w4) := scoutfs_item_dirty_seg seg w3 in
  if negb (r4 =? 0) then mk_result r4 4 seg seq w4 else
  let '(r5, comp5, w5) := scoutfs_seg_submit_write seg scoutfs_bio_init_comp w4 in
  if negb (r5 =? 0) then mk_result r5 5 seg seq w5 else
  let '(r6, w6) := scoutfs_inode_walk_writeback false w5 in
  if negb (r6 =? 0) then mk_result r6 6 seg seq w6 else
  let '(r7, comp7, w7) := scoutfs_bio_wait_comp comp5 w6 in
  if negb (r7 =? 0) then mk_result r7 7 seg seq w7 else
  let '(r8, w8) := scoutfs_client_record_segment seg 0 w7 in
  if negb (r8 =? 0) then mk_result r8 8 seg seq w8 else
  let '(r9, seq9, w9) := scoutfs_client_advance_seq seq w8 in
  mk_result r9 9 seg seq9 w9.

(** Modelled from the spec: the item cache and the other code that the
    pipeline calls (item.c, seg.c, bio.c, client.c and inode.c are not
    under src/).  The spec: "Inside the commit pipeline, the first
    failure short-circuits remaining steps; dirty state is not cleared,
    so the next commit attempt will retry", and, of a segment submission
    that fails after the items were drained into the segment: "dirty
    state is preserved, next sync retries the whole pipeline."  So no
    call of the pipeline takes the dirty state away, but for the last
    one when it succeeds, and putting the segment does not either. *)
Definition dirty_state_kept : Prop :=
  (forall sync w, scoutfs_item_has_dirty w = true ->
     scoutfs_item_has_dirty (snd (scoutfs_inode_walk_writeback sync w)) = true) /\
  (forall w, scoutfs_item_has_dirty w = true ->
     scoutfs_item_has_dirty (snd (scoutfs_client_alloc_segno w)) = true) /\
  (forall segno w, scoutfs_item_has_dirty w = true ->
     scoutfs_item_has_dirty (snd (scoutfs_seg_alloc segno w)) = true) /\
  (forall seg w, scoutfs_item_has_dirty w = true ->
     scoutfs_item_has_dirty (snd (scoutfs_item_dirty_seg seg w)) = true) /\
  (forall seg comp w, scoutfs_item_has_dirty w = true ->
     scoutfs_item_has_dirty (snd (scoutfs_seg_submit_write seg comp w)) = true) /\
  (forall comp w, scoutfs_item_has_dirty w = true ->
     scoutfs_item_has_dirty (snd (scoutfs_bio_wait_comp comp w)) = true) /\
  (forall seg level w, scoutfs_item_has_dirty w = true ->
     scoutfs_item_has_dirty (snd (scoutfs_client_record_segment seg level w)) = true) /\
  (forall seq w, scoutfs_item_has_dirty w = true ->
     fst (fst (scoutfs_client_advance_seq seq w)) <> 0 ->
     scoutfs_item_has_dirty (snd (scoutfs_client_advance_seq seq w)) = true) /\
  (forall seg w, scoutfs_item_has_dirty w = true ->
     scoutfs_item_has_dirty (scoutfs_seg_put seg w) = true).

(** The state after [queue_trans_work] (lines 209-213), field by field:
    the deadline flag is clear and the commit work is queued with no
    delay; everything else is as in [s]. *)
Definition kicked (s : state) : state :=
  mk_state
    (mk_sbi (trans_task (sbi s)) false (trans_write_count (sbi s))
            (trans_write_ret (sbi s)) (trans_seq (sbi s)) (Some 0))
    (tri s) (journal_info s) (ctrs s) (klog s) (world s) (calls s).

(** ** Invariants of a run

    [n] bounds the number of events so far.  A reservation carries the
    magic, has been held at most [n] times over, reserves counts that
    are not negative, and reserves nothing while nobody holds it (it is
    then fresh from [kzalloc], its owner asleep in its first hold). *)
Definition rsv_ok (n : Z) (rsv : scoutfs_reservation) : Prop :=
  rsv_magic rsv = SCOUTFS_RESERVATION_MAGIC /\
  0 <= rsv_holders rsv <= n /\
  0 <= reserved_items rsv /\ 0 <= reserved_vals rsv /\
  (rsv_holders rsv = 0 -> rsv_reserved rsv = mk_count 0 0).

(** As long as a track site has not warned, no reservation is over its
    reserved count there. *)
Definition warned_or_within (s : state) : Prop :=
  (warn_track_items ∉ klog s -> tracked_items_within s) /\
  (warn_track_vals ∉ klog s -> tracked_vals_within s).

(** The sums, with the bounds that keep the 32-bit fields from wrapping. *)
Definition sums_in_range (n : Z) (s : state) : Prop :=
  manager_sums s /\
  tri_reserved_items (tri s) <= INT_MAX /\
  tri_reserved_vals (tri s) <= INT_MAX /\
  tri_holders (tri s) <= n.

(** The invariant of the kernel state.  The sums are part of it under
    the side condition [side], which stands for what they need: counts
    that are C ints and an item cache that is bounded. *)
Definition kinv (side : Prop) (n : Z) (s : state) : Prop :=
  0 <= n /\
  (forall t rsv, journal_info s !! t = Some rsv -> rsv_ok n rsv) /\
  warned_or_within s /\
  (side -> sums_in_range n s).

(** A task asleep in a hold passed the checks of lines 355-356. *)
Definition sleeper_ok (side : Prop) (z : sleeping) : Prop :=
  match z with
  | in_hold cnt => 0 < items cnt /\ 0 <= vals cnt /\ (side -> count_is_int cnt)
  | _ => True
  end.

Definition sys_inv (side : Prop) (n : Z) (sys : system) : Prop :=
  kinv side n (kernel sys) /\
  (forall t z, asleep sys !! t = Some z -> sleeper_ok side z).

(** [s'] has the reservations and the manager's counts of [s], and
    every warning of [s]. *)
Definition quiet (s s' : state) : Prop :=
  journal_info s' = journal_info s /\
  tri_reserved_items (tri s') = tri_reserved_items (tri s) /\
  tri_reserved_vals (tri s') = tri_reserved_vals (tri s) /\
  tri_holders (tri s') = tri_holders (tri s) /\
  klog s ⊆ klog s'.

(** What [trans_write_count] is, and between what bounds. *)
Definition write_count_is (c : Z) (s : state) : Prop := trans_write_count (sbi s) = c.

Definition write_count_within (lo hi : Z) (s : state) : Prop :=
  lo <= trans_write_count (sbi s) <= hi.

(** [P] holds of the state a call left, if it left one. *)
Definition outcome_inv {A : Type} (P : state -> Prop) (o : outcome A) : Prop :=
  match o with
  | Returned _ s => P s
  | Blocked s => P s
  | Bug => True
  end.

(** The locals and the state at line 134, for a work function that found
    dirty items in state [s]. *)
Definition pipeline_entry (s : state) : frame :=
  mk_frame 0 None scoutfs_bio_init_comp
    (if trans_deadline_expired (sbi s)
     then scoutfs_inc_counter trans_commit_timer s else s).

(** Steps run one after the other, up to and including the first that
    does not return 0: what that step returned (0 when none failed) and
    the frame it left. *)
Fixpoint run_in_order (steps : list step) (fr : frame) : Z * frame :=
  match steps with
  | [] => (0, fr)
  | st :: rest =>
      let '(ret, fr1) := st fr in
      if ret =? 0 then run_in_order rest fr1 else (ret, fr1)
  end.

(** Running steps one after the other whatever they return: the frame
    with the effects of all of them, and what each returned. *)
Fixpoint effects_of (steps : list step) (fr : frame) : frame :=
  match steps with
  | [] => fr
  | st :: rest => effects_of rest (snd (st fr))
  end.

Fixpoint returns_of (steps : list step) (fr : frame) : list Z :=
  match steps with
  | [] => []
  | st :: rest => fst (st fr) :: returns_of rest (snd (st fr))
  end.

End trans.

(** ** Setting up and shutting down

    [scoutfs_setup_trans] and [scoutfs_shutdown_trans] work on two
    pointers of the super block info, [trans_info] and
    [trans_write_workq], and on the delayed work.  [kzalloc] and
    [alloc_workqueue] can fail; what they handed out and what was given
    back with [kfree] and [destroy_workqueue] is counted, so that a leak
    shows. *)
Record mount : Type := mk_mount {
  m_trans_info : option trans_info;
  m_trans_write_workq : bool;
  m_trans_write_work : option Z;
  m_live_trans_info : Z;
  m_live_workq : Z
}.

(** lines 472-493 *)
Definition scoutfs_setup_trans (kzalloc_ok alloc_workqueue_ok : bool) (m : mount)
    : Z * mount :=
  if negb kzalloc_ok then (- ENOMEM, m)
  else
    let live := m_live_trans_info m + 1 in
    if negb alloc_workqueue_ok then
      (- ENOMEM,
       mk_mount (m_trans_info m) false (m_trans_write_work m) (live - 1) (m_live_workq m))
    else
      (0,
       mk_mount (Some (mk_tri 0 0 0 false)) true (m_trans_write_work m) live
                (m_live_workq m + 1)).

(** lines 499-514 *)
Definition scoutfs_shutdown_trans (m : mount) : mount :=
  match m_trans_info m with
  | Some _ =>
      let m1 :=
        if m_trans_write_workq m
        then mk_mount (m_trans_info m) false None (m_live_trans_info m) (m_live_workq m - 1)
        else m in
      mk_mount None (m_trans_write_workq m1) (m_trans_write_work m1)
               (m_live_trans_info m1 - 1) (m_live_workq m1)
  | None => m
  end.

(** A super block info before [scoutfs_setup_trans]. *)
Definition unmounted : mount := mk_mount None false None 0 0.

Section trans_more.

Context {W Seg Comp : Type} {collab : Collaborators W Seg Comp}.
Variable HZ : Z.

(** ** More vocabulary *)

(** What the other tasks do in this round touches neither the manager
    nor a reservation. *)
Definition leaves_manager (r : @round W) : Prop :=
  forall s, tri (interference r s) = tri s /\
            journal_info (interference r s) = journal_info s.

(** The task an event is an event of. *)
Definition actor (e : @event W) : option nat :=
  match e with
  | call_hold t _ _ => Some t
  | call_track t _ _ => Some t
  | call_release t => Some t
  | call_write_func t => Some t
  | call_sync t _ => Some t
  | call_fsync t => Some t
  | resume t _ => Some t
  | elsewhere _ => None
  end.

(** A reservation has no holder exactly while its task is asleep in its
    first hold. *)
Definition unheld_iff_asleep (sys : @system W) : Prop :=
  forall t,
    (forall rsv,
       journal_info (kernel sys) !! t = Some rsv -> rsv_holders rsv = 0 ->
       exists cnt, asleep sys !! t = Some (in_hold cnt)) /\
    (forall cnt,
       asleep sys !! t = Some (in_hold cnt) ->
       exists rsv, journal_info (kernel sys) !! t = Some rsv /\ rsv_holders rsv = 0).

(** [s'] has the reservations of [s] but for the one of task [t], and
    the rest of the file system, the log of the calls into it and the
    sequence number as they are in [s]. *)
Definition keeps_others (t : nat) (s s' : @state W) : Prop :=
  (forall t', t' <> t -> journal_info s' !! t' = journal_info s !! t') /\
  calls s' = calls s /\ world s' = world s /\ trans_seq (sbi s') = trans_seq (sbi s).

(** The event is a step of the work function: its call, or one more
    look of a worker asleep in it. *)
Definition commits (sys : @system W) (e : @event W) : Prop :=
  match e with
  | call_write_func _ => True
  | resume t _ => asleep sys !! t = Some in_write_func
  | _ => False
  end.

(** [s'] has the reservations, the rest of the file system, the log of
    the calls into it and the sequence number of [s]. *)
Definition untouched (s s' : @state W) : Prop :=
  journal_info s' = journal_info s /\
  calls s' = calls s /\ world s' = world s /\ trans_seq (sbi s') = trans_seq (sbi s).

(** What a hold of task [t] leaves of its reservation: one that is held
    when it returns (or none), one that nobody holds while it sleeps. *)
Definition holds_or_sleeps (t : nat) (o : @outcome W Z) : Prop :=
  match o with
  | Returned _ s' =>
      forall rsv, journal_info s' !! t = Some rsv -> rsv_holders rsv <> 0
  | Blocked s' =>
      exists rsv, journal_info s' !! t = Some rsv /\ rsv_holders rsv = 0
  | Bug => True
  end.

(** From [s] to [s'] calls were made, and [trans_seq] is as it was
    unless one of them was [scoutfs_client_advance_seq]. *)
Definition seq_kept (s s' : @state W) : Prop :=
  exists l, calls s' = calls s ++ l /\
            (c_client_advance_seq ∉ l -> trans_seq (sbi s') = trans_seq (sbi s)).

(** The reservation a first hold of [cnt] leaves. *)
Definition first_reservation (cnt : scoutfs_item_count) : scoutfs_reservation :=
  mk_rsv SCOUTFS_RESERVATION_MAGIC 1 (mk_count (items cnt) (vals cnt)) (mk_count 0 0).

(** The fields of [struct trans_info] hold [unsigned] values. *)
Definition tri_is_unsigned (t : trans_info) : Prop :=
  0 <= tri_reserved_items t < 2 ^ 32 /\
  0 <= tri_reserved_vals t < 2 ^ 32 /\
  0 <= tri_holders t < 2 ^ 32.

End trans_more.

(** ** A small file system to run the code on

    An item cache with room for a given number of items and value bytes,
    and calls that return what a script says: the head of [toy_rets] is
    the return value of the next call that can fail, 0 once the script is
    used up. *)
Record toy_world : Type := mk_toy {
  toy_dirty : bool;
  toy_room_items : Z;
  toy_room_vals : Z;
  toy_next_segno : Z;
  toy_rets : list Z
}.

Definition toy_ret (w : toy_world) : Z * toy_world :=
  match toy_rets w with
  | [] => (0, w)
  | r :: rest =>
      (r, mk_toy (toy_dirty w) (toy_room_items w) (toy_room_vals w) (toy_next_segno w) rest)
  end.

Definition toy_alloc_segno (w : toy_world) : Z * Z * toy_world :=
  let '(r, w1) := toy_ret w in
  (r, toy_next_segno w1,
   mk_toy (toy_dirty w1) (toy_room_items w1) (toy_room_vals w1) (toy_next_segno w1 + 1)
          (toy_rets w1)).

Definition toy_seg_alloc (segno : Z) (w : toy_world) : Z * option Z * toy_world :=
  let '(r, w1) := toy_ret w in (r, if r =? 0 then Some segno else None, w1).

Definition toy_dirty_seg (seg : option Z) (w : toy_world) : Z * toy_world :=
  let '(r, w1) := toy_ret w in
  (r, if r =? 0
      then mk_toy false (toy_room_items w1) (toy_room_vals w1) (toy_next_segno w1) (toy_rets w1)
      else w1).

Definition toy_advance_seq (seq : Z) (w : toy_world) : Z * Z * toy_world :=
  let '(r, w1) := toy_ret w in (r, if r =? 0 then wrap64 (seq + 1) else seq, w1).

(** A segment holds 1000 items and 65536 bytes of values. *)
Definition toy_seg_fits_single (i v : Z) : bool := (i <=? 1000) && (v <=? 65536).

#[global] Instance toy : Collaborators toy_world Z unit := {
  scoutfs_item_has_dirty := toy_dirty;
  scoutfs_item_dirty_fits_single w i v :=
    toy_seg_fits_single i v && (i <=? toy_room_items w) && (v <=? toy_room_vals w);
  scoutfs_seg_fits_single := toy_seg_fits_single;
  scoutfs_bio_init_comp := tt;
  scoutfs_inode_walk_writeback _ w := toy_ret w;
  scoutfs_client_alloc_segno := toy_alloc_segno;
  scoutfs_seg_alloc := toy_seg_alloc;
  scoutfs_item_dirty_seg := toy_dirty_seg;
  scoutfs_seg_submit_write _ c w := let '(r, w1) := toy_ret w in (r, c, w1);
  scoutfs_bio_wait_comp c w := let '(r, w1) := toy_ret w in (r, c, w1);
  scoutfs_client_record_segment _ _ w := toy_ret w;
  scoutfs_client_advance_seq := toy_advance_seq;
  scoutfs_seg_put _ w := w;
  scoutfs_seg_total_bytes _ _ := 4096
}.

(** An idle, clean file system with room for 100 items and 4096 bytes. *)
Definition toy_clean : toy_world := mk_toy false 100 4096 7 [].

(** The same with dirty items, and with calls that fail as scripted. *)
Definition toy_dirty_with (rets : list Z) : toy_world := mk_toy true 100 4096 7 rets.

(** A dirty file system whose fifth fallible call,
    [scoutfs_seg_submit_write], fails with -EIO. *)
Definition toy_submit_fails : toy_world := toy_dirty_with [0; 0; 0; 0; -5].

(** The state the work function of task 9 finds when nobody holds the
    transaction: it is the commit task and [writing] is set. *)
Definition drained_at (s : @state toy_world) : state :=
  set_tri (set_tri_writing true) (set_sbi (set_trans_task (Some 9%nat)) s).

(** Mounted, with the sync deadline running (lines 258-265). *)
Definition toy_mounted (w : toy_world) : state :=
  scoutfs_trans_restart_sync_deadline 250 (initial_state w).

(** Task 1 holds 60 items, the work function of task 9 starts and waits
    for it, task 2 asks for 60 more: 120 items do not fit the room for
    100. *)
Definition toy_hold_while_writing : list (@event toy_world) :=
  [call_hold 1 (mk_count 60 0) true; call_write_func 9; call_hold 2 (mk_count 60 0) true].

(** Task 1 holds, tracks, holds again on top, task 2 holds, a sync is
    kicked, the work function waits, and everybody releases. *)
Definition toy_busy : list (@event toy_world) :=
  [call_hold 1 (mk_count 10 1024) true; call_track 1 5 200;
   call_hold 2 (mk_count 3 7) true; call_hold 1 (mk_count 20 2048) true;
   call_release 1; call_sync 3 0; call_write_func 9; call_release 1;
   resume 9 false; call_release 2; resume 9 false].

(** Task 1 reserves one item and tracks two, twice. *)
Definition toy_overrun : list (@event toy_world) :=
  [call_hold 1 (mk_count 1 0) true; call_track 1 2 0; call_track 1 2 0].

(** What the worker does to the state while a sync sleeps: it runs the
    work function. *)
Definition toy_commit : @round toy_world :=
  mk_round (fun s => write_after_drain 250 (drained_at s)) false.

(** Nothing happens, and the sleeper looks again. *)
Definition toy_idle_round : @round toy_world := mk_round (fun s => s) false.

(** The same calls over an item cache as the specification describes
    it: draining the items into the segment leaves them dirty, and they
    are clean once the sequence number has advanced. *)
Definition toy_publish (seq : Z) (w : toy_world) : Z * Z * toy_world :=
  let '(r, w1) := toy_ret w in
  (r, if r =? 0 then wrap64 (seq + 1) else seq,
   if r =? 0
   then mk_toy false (toy_room_items w1) (toy_room_vals w1) (toy_next_segno w1) (toy_rets w1)
   else w1).

Definition toy_keeping : Collaborators toy_world Z unit := {|
  scoutfs_item_has_dirty := toy_dirty;
  scoutfs_item_dirty_fits_single w i v :=
    toy_seg_fits_single i v && (i <=? toy_room_items w) && (v <=? toy_room_vals w);
  scoutfs_seg_fits_single := toy_seg_fits_single;
  scoutfs_bio_init_comp := tt;
  scoutfs_inode_walk_writeback _ w := toy_ret w;
  scoutfs_client_alloc_segno := toy_alloc_segno;
  scoutfs_seg_alloc := toy_seg_alloc;
  scoutfs_item_dirty_seg _ w := toy_ret w;
  scoutfs_seg_submit_write _ c w := let '(r, w1) := toy_ret w in (r, c, w1);
  scoutfs_bio_wait_comp c w := let '(r, w1) := toy_ret w in (r, c, w1);
  scoutfs_client_record_segment _ _ w := toy_ret w;
  scoutfs_client_advance_seq := toy_publish;
  scoutfs_seg_put _ w := w;
  scoutfs_seg_total_bytes _ _ := 4096
|}.

(** A signal is pending when the sleeper looks again. *)
Definition toy_signal_round : @round toy_world := mk_round (fun s => s) true.

(** Task 1 holds and tracks, task 2 holds. *)
Definition toy_two_holders : list (@event toy_world) :=
  [call_hold 1 (mk_count 10 1024) true; call_track 1 5 200;
   call_hold 2 (mk_count 3 7) true].

(** * Proofs *)

Section trans_proofs.

Context {W Seg Comp : Type} {collab : Collaborators W Seg Comp}.
Variable HZ : Z.

Implicit Types (s : @state W) (cnt : scoutfs_item_count) (rsv : scoutfs_reservation).
Implicit Types (rounds : list (@round W)) (sys : @system W) (evs : list (@event W)).
Implicit Types (fr : @frame W Seg Comp).

(** ** The counts a hold is called with *)

(** The first [WARN_ON_ONCE] of [scoutfs_hold_trans] leaves everything
    but the log of warnings as it is. *)
Lemma WARN_ON_ONCE_fst site c s : fst (WARN_ON_ONCE site c s) = c.
Proof. unfold WARN_ON_ONCE. by destruct (c && _). Qed.

Lemma WARN_ON_ONCE_false site s : WARN_ON_ONCE site false s = (false, s).
Proof. reflexivity. Qed.

Lemma WARN_ON_ONCE_snd site c s :
  let s' := snd (WARN_ON_ONCE site c s) in
  sbi s' = sbi s /\ tri s' = tri s /\ journal_info s' = journal_info s /\
  ctrs s' = ctrs s /\ world s' = world s /\ calls s' = calls s.
Proof. unfold WARN_ON_ONCE. destruct (c && _); simpl; auto 10. Qed.

Lemma WARN_ON_ONCE_same site c s : same_but_klog s (snd (WARN_ON_ONCE site c s)).
Proof. apply WARN_ON_ONCE_snd. Qed.

Lemma same_but_klog_trans s1 s2 s3 :
  same_but_klog s1 s2 -> same_but_klog s2 s3 -> same_but_klog s1 s3.
Proof.
  unfold same_but_klog. intros (?&?&?&?&?&?) (?&?&?&?&?&?).
  repeat split; congruence.
Qed.

(** A count that passes the checks gets through the prologue without a
    warning. *)
Lemma hold_prologue_valid current cnt kz s :
  count_valid cnt ->
  hold_prologue current cnt kz s =
    if bool_decide (trans_task (sbi s) = Some current) then inl (Returned 0 s) else
    match journal_info s !! current with
    | Some rsv => if rsv_magic rsv =? SCOUTFS_RESERVATION_MAGIC then inr s else inl Bug
    | None =>
        if kz then inr (set_journal_info (insert current new_reservation) s)
        else inl (Returned (- ENOMEM) s)
    end.
Proof.
  intros (Hi & Hv & Hfit). unfold hold_prologue.
  replace (items cnt <=? 0) with false by (symmetry; apply Z.leb_gt; lia).
  replace (vals cnt <? 0) with false by (symmetry; apply Z.ltb_ge; lia).
  rewrite Hfit. reflexivity.
Qed.

(** C8.  A hold whose count has [items <= 0], or [vals < 0], or does not
    fit a segment by itself, returns -EINVAL, whoever calls it and
    whatever the schedule; the manager, the reservations, the counters
    and the rest of the file system are as before (only the warning of
    line 355 or 356 may have been printed). *)
Theorem hold_rejects_bad_count current cnt kz rounds s :
  items cnt <= 0 \/ vals cnt < 0 \/ scoutfs_seg_fits_single (items cnt) (vals cnt) = false ->
  exists s', scoutfs_hold_trans current cnt kz rounds s = Returned (- EINVAL) s' /\
             same_but_klog s s'.
Proof.
  intros Hbad. unfold scoutfs_hold_trans, hold_prologue.
  pose proof (WARN_ON_ONCE_fst warn_hold_garbage_count
                ((items cnt <=? 0) || (vals cnt <? 0)) s) as Hg.
  pose proof (WARN_ON_ONCE_same warn_hold_garbage_count
                ((items cnt <=? 0) || (vals cnt <? 0)) s) as Hs1.
  destruct (WARN_ON_ONCE warn_hold_garbage_count _ s) as [garbage s1].
  simpl in Hg, Hs1. subst garbage.
  destruct ((items cnt <=? 0) || (vals cnt <? 0)) eqn:Hgarbage.
  - eauto.
  - apply orb_false_iff in Hgarbage as [Hi Hv].
    apply Z.leb_gt in Hi. apply Z.ltb_ge in Hv.
    destruct Hbad as [? | [? | Hfit]]; [lia | lia |].
    rewrite Hfit. simpl.
    pose proof (WARN_ON_ONCE_fst warn_hold_not_single true s1) as Hg.
    pose proof (WARN_ON_ONCE_same warn_hold_not_single true s1) as Hs2.
    destruct (WARN_ON_ONCE warn_hold_not_single true s1) as [too_big s2].
    simpl in Hg, Hs2. subst too_big.
    eauto using same_but_klog_trans.
Qed.

(** C7.  For the task that runs the commit, a hold (with a count that
    meets hold's precondition, the checks of lines 355-356) returns 0 at
    once, whatever the schedule and whether or not memory can be
    allocated, and leaves the whole state as it is: no reservation is
    allocated.  Its track and release calls return with the state as it
    is. *)
Theorem commit_task_bypasses current s :
  trans_task (sbi s) = Some current ->
  (forall cnt kz rounds,
      count_valid cnt -> scoutfs_hold_trans current cnt kz rounds s = Returned 0 s) /\
  (forall d_items d_vals, scoutfs_trans_track_item current d_items d_vals s = Returned tt s) /\
  scoutfs_release_trans current s = Returned tt s.
Proof.
  intros Htask. repeat split.
  - intros cnt kz rounds Hvalid. unfold scoutfs_hold_trans.
    rewrite hold_prologue_valid by done.
    by rewrite bool_decide_eq_true_2.
  - intros. unfold scoutfs_trans_track_item. by rewrite bool_decide_eq_true_2.
  - unfold scoutfs_release_trans. by rewrite bool_decide_eq_true_2.
Qed.

(** C10.  A task that owns a reservation with [holders > 0] and calls
    hold again (with a count that meets hold's precondition; the task
    that runs the commit owns no reservation, its holds are those of C7)
    gets 0 at once: whatever the schedule (no round of it is used, so
    the call neither sleeps nor returns -ERESTARTSYS) and whether or not
    [writing] is set.  Its reservation's [holders] and the manager's
    [holders] grow by one (modulo 2^32); the reserved counts of both and
    all the rest of the state are as before. *)
Theorem nested_hold_immediate current cnt kz rounds s rsv :
  journal_info s !! current = Some rsv ->
  rsv_magic rsv = SCOUTFS_RESERVATION_MAGIC ->
  0 < rsv_holders rsv ->
  trans_task (sbi s) <> Some current ->
  count_valid cnt ->
  exists s',
    scoutfs_hold_trans current cnt kz rounds s = Returned 0 s' /\
    journal_info s' =
      <[current := mk_rsv (rsv_magic rsv) (wrap32 (rsv_holders rsv + 1))
                          (rsv_reserved rsv) (rsv_actual rsv)]> (journal_info s) /\
    tri s' = mk_tri (tri_reserved_items (tri s)) (tri_reserved_vals (tri s))
                    (wrap32 (tri_holders (tri s) + 1)) (tri_writing (tri s)) /\
    sbi s' = sbi s /\ ctrs s' = ctrs s /\ klog s' = klog s /\
    world s' = world s /\ calls s' = calls s.
Proof.
  intros Hrsv Hmagic Hholders Htask Hvalid.
  exists (hold_label current rsv s). split; [| by repeat split].
  unfold scoutfs_hold_trans. rewrite hold_prologue_valid by done.
  rewrite bool_decide_eq_false_2 by done.
  rewrite Hrsv, Hmagic, Z.eqb_refl.
  unfold wait_event_interruptible, hold_condition, acquired_hold.
  rewrite Hrsv.
  replace (rsv_holders rsv =? 0) with false by (symmetry; apply Z.eqb_neq; lia).
  simpl. by rewrite lookup_insert_eq.
Qed.

(** C3, as the code has it.  A first hold (the caller's reservation has
    no holders) that is evaluated while [writing] is set is turned away
    with nothing changed: nothing is counted and no commit is kicked.
    Evaluated while [writing] is clear, it is turned away when the
    reserved counts plus its own do not fit: [trans_commit_full] grows by
    one, the commit work is queued with no delay, and the manager and the
    reservations are as before.  When it is admitted, the manager's
    reserved counts are the sums that were tested, and they fit. *)
Theorem first_hold_admission current cnt s rsv :
  journal_info s !! current = Some rsv ->
  rsv_holders rsv = 0 ->
  let new_items := wrap32 (tri_reserved_items (tri s) + items cnt) in
  let new_vals := wrap32 (tri_reserved_vals (tri s) + vals cnt) in
  (tri_writing (tri s) = true -> acquired_hold current cnt s = Some (false, s)) /\
  (tri_writing (tri s) = false ->
   scoutfs_item_dirty_fits_single (world s) new_items new_vals = false ->
   exists s',
     acquired_hold current cnt s = Some (false, s') /\
     read_counter trans_commit_full (ctrs s') =
       read_counter trans_commit_full (ctrs s) + 1 /\
     trans_write_work (sbi s') = Some 0 /\
     trans_deadline_expired (sbi s') = false /\
     tri s' = tri s /\ journal_info s' = journal_info s) /\
  (forall s',
     acquired_hold current cnt s = Some (true, s') ->
     tri_writing (tri s) = false /\
     tri_reserved_items (tri s') = new_items /\
     tri_reserved_vals (tri s') = new_vals /\
     scoutfs_item_dirty_fits_single (world s')
       (tri_reserved_items (tri s')) (tri_reserved_vals (tri s')) = true).
Proof.
  intros Hrsv Hholders new_items new_vals.
  unfold acquired_hold. rewrite Hrsv, Hholders. simpl.
  fold new_items new_vals.
  split; [| split].
  - by intros ->.
  - intros -> Hfits. rewrite Hfits. simpl. eauto 10.
  - intros s'. destruct (tri_writing (tri s)); [by intros [=] |].
    destruct (scoutfs_item_dirty_fits_single _ _ _) eqn:Hfits; simpl; [| by intros [=]].
    intros [= <-]. by repeat split.
Qed.

(** A first hold that is turned away sleeps: with no round to run, the
    call is blocked in the state [acquired_hold] left. *)
Lemma first_hold_sleeps current cnt s s1 :
  count_valid cnt ->
  trans_task (sbi s) <> Some current ->
  journal_info s !! current = None ->
  acquired_hold current cnt (set_journal_info (insert current new_reservation) s)
    = Some (false, s1) ->
  scoutfs_hold_trans current cnt true [] s = Blocked s1.
Proof.
  intros Hvalid Htask Hnone Hacq. unfold scoutfs_hold_trans.
  rewrite hold_prologue_valid by done.
  rewrite bool_decide_eq_false_2 by done. rewrite Hnone.
  unfold wait_event_interruptible, hold_condition. by rewrite Hacq.
Qed.

(** ** Waits, round by round *)

(** A wait with rounds left is its next round and, if that leaves the
    task asleep, the wait with the other rounds.  (The locals of the
    waits for holders and for a hold are of type [unit].) *)
Lemma wait_event_next_round (cnd : unit -> state -> option (bool * unit * state))
    intr r rounds s :
  ___wait_event cnd intr (r :: rounds) tt s =
    match ___wait_event cnd intr [r] tt s with
    | Blocked s1 => ___wait_event cnd intr rounds tt s1
    | o => o
    end.
Proof.
  simpl. destruct (cnd tt (interference r s)) as [[[[] []] s1] |]; try done.
  by destruct (intr && signal_pending r).
Qed.

(** With nobody holding the transaction the work function does not
    wait. *)
Lemma drained_at_once rounds s :
  tri_holders (tri s) = 0 ->
  wait_event drained_condition rounds tt s =
    Returned (0, tt) (set_tri (set_tri_writing true) s).
Proof.
  intros Hnone. unfold wait_event, drained_condition, drained_holders. simpl.
  by rewrite Hnone.
Qed.

(** With holders it waits, [writing] set, and goes on at the first round
    that finds them gone. *)
Lemma drained_later r rounds s :
  tri_holders (tri s) <> 0 ->
  tri_holders (tri (interference r (set_tri (set_tri_writing true) s))) = 0 ->
  wait_event drained_condition (r :: rounds) tt s =
    Returned (0, tt)
      (set_tri (set_tri_writing true)
         (interference r (set_tri (set_tri_writing true) s))).
Proof.
  intros Hheld Hgone. unfold wait_event, drained_condition, drained_holders. simpl.
  replace (tri_holders (tri s) =? 0) with false by (symmetry; by apply Z.eqb_neq).
  by rewrite Hgone.
Qed.

(** ** Waiting for a commit *)

Lemma write_attempted_not_yet attempt s :
  trans_write_count (sbi s) <= wa_count attempt ->
  write_attempted attempt s = Some (false, attempt, s).
Proof.
  intros Hle. unfold write_attempted.
  by replace (wa_count attempt <? _) with false by (symmetry; apply Z.ltb_ge; lia).
Qed.

Lemma write_attempted_done attempt s :
  wa_count attempt < trans_write_count (sbi s) ->
  write_attempted attempt s =
    Some (true, mk_attempt (wa_count attempt) (trans_write_ret (sbi s)), s).
Proof.
  intros Hlt. unfold write_attempted.
  by replace (wa_count attempt <? _) with true by (symmetry; apply Z.ltb_lt; lia).
Qed.

(** Rounds that the sleeper sleeps through are skipped. *)
Lemma sync_wait_sleeps attempt pre rest s :
  sleeps_through (wa_count attempt) pre s ->
  ___wait_event write_attempted true (pre ++ rest) attempt s =
  ___wait_event write_attempted true rest attempt (interfered pre s).
Proof.
  revert s. induction pre as [| r pre IH]; intros s; [done |].
  intros (Hcount & Hsig & Hrest). simpl.
  rewrite write_attempted_not_yet by done.
  rewrite Hsig. simpl. by apply IH.
Qed.

(** [queue_trans_work] clears the deadline flag and queues the work with
    no delay, and touches nothing else. *)
Lemma queue_trans_work_kicked s : queue_trans_work s = kicked s.
Proof. reflexivity. Qed.

(** C5.  [scoutfs_trans_sync] without [wait] kicks the commit work (the
    deadline flag is cleared and the work queued with no delay, nothing
    else changes) and returns 0 whatever the schedule.  With [wait] it
    takes [trans_write_count] as its snapshot, kicks the work in the
    same way, and sleeps through every round in which the count has not
    passed the snapshot and no signal is pending.  The first round that
    finds the count above the snapshot ends the call, which returns the
    [trans_write_ret] of the state then observed; a round that finds the
    count not above the snapshot with a signal pending ends it with
    -ERESTARTSYS. *)
Theorem sync_protocol wait s :
  (trans_deadline_expired (sbi (kicked s)) = false /\
   trans_write_work (sbi (kicked s)) = Some 0 /\
   trans_write_count (sbi (kicked s)) = trans_write_count (sbi s)) /\
  (wait = 0 -> forall rounds, scoutfs_trans_sync wait rounds s = Returned 0 (kicked s)) /\
  (wait <> 0 ->
   let snapshot := trans_write_count (sbi s) in
   forall pre,
     sleeps_through snapshot pre (kicked s) ->
     scoutfs_trans_sync wait pre s = Blocked (interfered pre (kicked s)) /\
     forall r post,
       let s' := interference r (interfered pre (kicked s)) in
       (snapshot < trans_write_count (sbi s') ->
        scoutfs_trans_sync wait (pre ++ r :: post) s =
          Returned (trans_write_ret (sbi s')) s') /\
       (trans_write_count (sbi s') <= snapshot ->
        signal_pending r = true ->
        scoutfs_trans_sync wait (pre ++ r :: post) s = Returned (- ERESTARTSYS) s')).
Proof.
  split; [done |]. split.
  - intros -> rounds. unfold scoutfs_trans_sync. simpl.
    by rewrite queue_trans_work_kicked.
  - intros Hwait snapshot pre Hsleeps.
    unfold scoutfs_trans_sync.
    replace (wait =? 0) with false by (symmetry; by apply Z.eqb_neq).
    unfold wait_event_interruptible.
    rewrite queue_trans_work_kicked.
    rewrite write_attempted_not_yet by (simpl; lia).
    split.
    + rewrite <- (app_nil_r pre) at 1.
      by rewrite sync_wait_sleeps.
    + intros r post. rewrite sync_wait_sleeps by done. simpl.
      split.
      * intros Hpassed. by rewrite write_attempted_done.
      * intros Hnot Hsig. rewrite write_attempted_not_yet by done.
        by rewrite Hsig.
Qed.

(** ** The write pipeline *)

Lemma run_in_order_last (st : step) fr : st fr = run_in_order [st] fr.
Proof.
  simpl. destruct (st fr) as [ret fr1]. destruct (ret =? 0) eqn:Hret; [| done].
  apply Z.eqb_eq in Hret. by subst.
Qed.

Lemma run_in_order_elvis (st p : step) (rest : list step) fr :
  (forall fr1, p fr1 = run_in_order rest fr1) ->
  elvis st p fr = run_in_order (st :: rest) fr.
Proof.
  intros Hp. unfold elvis. simpl. destruct (st fr) as [ret fr1].
  by destruct (ret =? 0).
Qed.

(** The [?:] chain of lines 134-142 runs its nine calls in order and
    stops at the first that fails. *)
Lemma write_pipeline_run_in_order fr :
  write_pipeline fr = run_in_order write_pipeline_steps fr.
Proof.
  unfold write_pipeline, write_pipeline_steps.
  revert fr.
  repeat (intros fr; apply run_in_order_elvis; clear fr).
  intros fr. apply run_in_order_last.
Qed.

Lemma run_in_order_prefix (steps : list step) fr :
  steps <> [] ->
  exists k : nat,
    (1 <= k <= length steps)%nat /\
    snd (run_in_order steps fr) = effects_of (take k steps) fr /\
    returns_of (take k steps) fr = replicate (k - 1) 0 ++ [fst (run_in_order steps fr)] /\
    ((k < length steps)%nat -> fst (run_in_order steps fr) <> 0).
Proof.
  revert fr. induction steps as [| st rest IH]; intros fr Hne; [done |].
  simpl. destruct (st fr) as [ret fr1] eqn:Hst.
  destruct (ret =? 0) eqn:Hret.
  - apply Z.eqb_eq in Hret. subst ret.
    destruct rest as [| st2 rest].
    + exists 1%nat. simpl. rewrite Hst. simpl. repeat split; lia.
    + destruct (IH fr1 ltac:(done)) as (k & Hk & Heff & Hrets & Hfail).
      exists (S k). cbn [take effects_of returns_of length]. rewrite Hst. cbn [fst snd].
      split; [simpl in *; lia |]. split; [done |]. split.
      * rewrite Hrets. destruct k; [lia |]. simpl. by rewrite Nat.sub_0_r.
      * intros Hlt. apply Hfail. simpl in *. lia.
  - apply Z.eqb_neq in Hret.
    exists 1%nat. simpl. rewrite Hst. simpl. repeat split; try lia; done.
Qed.

(** Every step of the pipeline logs its own call and no other. *)
Lemma write_pipeline_steps_log :
  Forall2 (fun (st : step) c => forall fr, calls (f_st (snd (st fr))) = calls (f_st fr) ++ [c])
          write_pipeline_steps write_pipeline_calls.
Proof.
  unfold write_pipeline_steps, write_pipeline_calls.
  repeat constructor; intros fr.
  - unfold inode_walk_writeback. by destruct (scoutfs_inode_walk_writeback _ _).
  - unfold client_alloc_segno. by destruct (scoutfs_client_alloc_segno _) as [[? ?] ?].
  - unfold seg_alloc. by destruct (scoutfs_seg_alloc _ _) as [[? ?] ?].
  - unfold item_dirty_seg. by destruct (scoutfs_item_dirty_seg _ _).
  - unfold seg_submit_write. by destruct (scoutfs_seg_submit_write _ _ _) as [[? ?] ?].
  - unfold inode_walk_writeback. by destruct (scoutfs_inode_walk_writeback _ _).
  - unfold bio_wait_comp. by destruct (scoutfs_bio_wait_comp _ _) as [[? ?] ?].
  - unfold client_record_segment. by destruct (scoutfs_client_record_segment _ _ _).
  - unfold client_advance_seq. by destruct (scoutfs_client_advance_seq _ _) as [[? ?] ?].
Qed.

Lemma effects_of_log (steps : list step) (cs : list call) fr :
  Forall2 (fun (st : step) c => forall fr, calls (f_st (snd (st fr))) = calls (f_st fr) ++ [c])
          steps cs ->
  forall k : nat,
    calls (f_st (effects_of (take k steps) fr)) = calls (f_st fr) ++ take k cs.
Proof.
  intros Hlog. revert fr. induction Hlog as [| st c steps cs Hst Hlog IH]; intros fr k.
  - destruct k; simpl; by rewrite app_nil_r.
  - destruct k; simpl; [by rewrite app_nil_r |].
    rewrite IH, Hst. by rewrite <- app_assoc.
Qed.

(** What lines 162-180 change and what they leave. *)
Lemma write_func_finish_fields ret s :
  let s' := write_func_finish HZ ret s in
  trans_write_count (sbi s') = wrap64 (trans_write_count (sbi s) + 1) /\
  trans_write_ret (sbi s') = ret /\
  trans_task (sbi s') = None /\
  trans_deadline_expired (sbi s') = true /\
  trans_write_work (sbi s') = Some (TRANS_SYNC_DELAY HZ) /\
  trans_seq (sbi s') = trans_seq (sbi s) /\
  tri s' = set_tri_writing false (tri s) /\
  journal_info s' = journal_info s /\
  ctrs s' = ctrs s /\ world s' = world s /\ calls s' = calls s.
Proof.
  unfold write_func_finish.
  pose proof (WARN_ON_ONCE_snd warn_write_ret (negb (ret =? 0)) s) as Hw.
  destruct (WARN_ON_ONCE warn_write_ret (negb (ret =? 0)) s) as [b s1].
  simpl in *. destruct Hw as (-> & -> & -> & -> & -> & ->). by repeat split.
Qed.

(** With dirty items the body of the work function is the pipeline, then
    [scoutfs_seg_put], then the two counters when nothing failed. *)
Lemma write_func_body_dirty s :
  scoutfs_item_has_dirty (world s) = true ->
  let '(ret, fr) := run_in_order write_pipeline_steps (pipeline_entry s) in
  write_func_body s =
    (ret, if ret =? 0 then count_segment_write (f_seg fr) (seg_put fr) else seg_put fr).
Proof.
  intros Hdirty. unfold write_func_body. rewrite Hdirty.
  fold (pipeline_entry s). rewrite write_pipeline_run_in_order.
  destruct (run_in_order _ _) as [ret fr]. by destruct (ret =? 0).
Qed.

(** The work function after the drain, with dirty items. *)
Lemma write_after_drain_dirty s1 :
  scoutfs_item_has_dirty (world s1) = true ->
  exists (k : nat) (ret : Z),
    (1 <= k <= 9)%nat /\
    returns_of (take k write_pipeline_steps) (pipeline_entry s1)
      = replicate (k - 1) 0 ++ [ret] /\
    ((k < 9)%nat -> ret <> 0) /\
    fst (write_func_body s1) = ret /\
    calls (write_after_drain HZ s1) =
      calls s1 ++ take k write_pipeline_calls
        ++ c_seg_put :: (if ret =? 0 then [c_seg_total_bytes] else []) /\
    world (write_after_drain HZ s1) =
      (let fr := effects_of (take k write_pipeline_steps) (pipeline_entry s1) in
       scoutfs_seg_put (f_seg fr) (world (f_st fr))).
Proof.
  intros Hdirty. unfold write_after_drain.
  pose proof (write_func_body_dirty s1 Hdirty) as Hbody.
  destruct (run_in_order_prefix write_pipeline_steps (pipeline_entry s1) ltac:(done))
    as (k & Hk & Heff & Hrets & Hfail).
  destruct (run_in_order write_pipeline_steps (pipeline_entry s1)) as [ret fr].
  simpl in Hk, Heff, Hrets, Hfail. rewrite Hbody.
  pose proof (effects_of_log _ _ (pipeline_entry s1) write_pipeline_steps_log k) as Hlog.
  rewrite <- Heff in Hlog.
  assert (calls (f_st (pipeline_entry s1)) = calls s1) as Hentry.
  { unfold pipeline_entry. simpl. by destruct (trans_deadline_expired _). }
  rewrite Hentry in Hlog.
  exists k, ret.
  destruct (write_func_finish_fields ret
              (if ret =? 0 then count_segment_write (f_seg fr) (seg_put fr) else seg_put fr))
    as (_ & _ & _ & _ & _ & _ & _ & _ & _ & Hworld & Hcalls).
  rewrite Hworld, Hcalls, <- Heff.
  repeat split; try done; try lia.
  - destruct (ret =? 0); simpl; rewrite Hlog; by rewrite <- ?app_assoc.
  - by destruct (ret =? 0).
Qed.

Lemma write_func_after_drain current rounds s s1 :
  wait_event drained_condition rounds tt (set_sbi (set_trans_task (Some current)) s)
    = Returned (0, tt) s1 ->
  scoutfs_trans_write_func HZ current rounds s = Returned tt (write_after_drain HZ s1).
Proof. intros Hdrain. unfold scoutfs_trans_write_func. by rewrite Hdrain. Qed.

Lemma write_after_drain_ret s1 :
  trans_write_ret (sbi (write_after_drain HZ s1)) = fst (write_func_body s1).
Proof.
  unfold write_after_drain. destruct (write_func_body s1) as [ret s2].
  by destruct (write_func_finish_fields ret s2) as (_ & -> & _).
Qed.

(** ** The pipeline of the source and the pipeline as specified *)

(** The [?:] chain of lines 134-142, run from state [s0] with [seg] NULL
    and a fresh completion, makes the calls of [pipeline_in_words] with
    the same arguments, returns what it returns, and leaves the segment,
    the sequence number and the rest of the file system as it does; the
    calls made are logged in order. *)
Lemma write_pipeline_in_words s0 :
  let r := pipeline_in_words (trans_seq (sbi s0)) (world s0) in
  let '(ret, fr) := write_pipeline (mk_frame 0 None scoutfs_bio_init_comp s0) in
  ret = pr_ret r /\
  f_seg fr = pr_seg r /\
  world (f_st fr) = pr_world r /\
  trans_seq (sbi (f_st fr)) = pr_seq r /\
  calls (f_st fr) = calls s0 ++ take (pr_calls r) write_pipeline_calls /\
  (1 <= pr_calls r <= 9)%nat /\
  ((pr_calls r < 9)%nat -> pr_ret r <> 0).
Proof.
  unfold pipeline_in_words, write_pipeline, elvis, write_pipeline_calls,
    inode_walk_writeback, client_alloc_segno, seg_alloc, item_dirty_seg,
    seg_submit_write, bio_wait_comp, client_record_segment, client_advance_seq.
  simpl.
  destruct (scoutfs_inode_walk_writeback true (world s0)) as [r1 w1]. simpl.
  destruct (r1 =? 0) eqn:E1; simpl;
    [| apply Z.eqb_neq in E1; split_and!; try done; lia].
  destruct (scoutfs_client_alloc_segno w1) as [[r2 segno] w2]. simpl.
  destruct (r2 =? 0) eqn:E2; simpl;
    [| apply Z.eqb_neq in E2; rewrite <- !app_assoc; split_and!; try done; lia].
  destruct (scoutfs_seg_alloc segno w2) as [[r3 seg] w3]. simpl.
  destruct (r3 =? 0) eqn:E3; simpl;
    [| apply Z.eqb_neq in E3; rewrite <- !app_assoc; split_and!; try done; lia].
  destruct (scoutfs_item_dirty_seg seg w3) as [r4 w4]. simpl.
  destruct (r4 =? 0) eqn:E4; simpl;
    [| apply Z.eqb_neq in E4; rewrite <- !app_assoc; split_and!; try done; lia].
  destruct (scoutfs_seg_submit_write seg scoutfs_bio_init_comp w4) as [[r5 comp5] w5]. simpl.
  destruct (r5 =? 0) eqn:E5; simpl;
    [| apply Z.eqb_neq in E5; rewrite <- !app_assoc; split_and!; try done; lia].
  destruct (scoutfs_inode_walk_writeback false w5) as [r6 w6]. simpl.
  destruct (r6 =? 0) eqn:E6; simpl;
    [| apply Z.eqb_neq in E6; rewrite <- !app_assoc; split_and!; try done; lia].
  destruct (scoutfs_bio_wait_comp comp5 w6) as [[r7 comp7] w7]. simpl.
  destruct (r7 =? 0) eqn:E7; simpl;
    [| apply Z.eqb_neq in E7; rewrite <- !app_assoc; split_and!; try done; lia].
  destruct (scoutfs_client_record_segment seg 0 w7) as [r8 w8]. simpl.
  destruct (r8 =? 0) eqn:E8; simpl;
    [| apply Z.eqb_neq in E8; rewrite <- !app_assoc; split_and!; try done; lia].
  destruct (scoutfs_client_advance_seq (trans_seq (sbi s0)) w8) as [[r9 seq9] w9]. simpl.
  rewrite <- !app_assoc. split_and!; try done; lia.
Qed.

(** The work function after the drain, with dirty items, against the
    pipeline as specified. *)
Lemma write_after_drain_in_words s1 :
  scoutfs_item_has_dirty (world s1) = true ->
  let r := pipeline_in_words (trans_seq (sbi s1)) (world s1) in
  let s' := write_after_drain HZ s1 in
  fst (write_func_body s1) = pr_ret r /\
  trans_write_ret (sbi s') = pr_ret r /\
  (1 <= pr_calls r <= 9)%nat /\
  ((pr_calls r < 9)%nat -> pr_ret r <> 0) /\
  calls s' = calls s1 ++ take (pr_calls r) write_pipeline_calls
               ++ c_seg_put :: (if pr_ret r =? 0 then [c_seg_total_bytes] else []) /\
  world s' = scoutfs_seg_put (pr_seg r) (pr_world r) /\
  trans_seq (sbi s') = pr_seq r.
Proof.
  intros Hdirty r s'. subst s'. rewrite write_after_drain_ret.
  unfold write_after_drain, write_func_body. rewrite Hdirty.
  set (s0 := if trans_deadline_expired (sbi s1)
             then scoutfs_inc_counter trans_commit_timer s1 else s1).
  assert (trans_seq (sbi s0) = trans_seq (sbi s1) /\ world s0 = world s1 /\
          calls s0 = calls s1) as (Hseq0 & Hworld0 & Hcalls0)
    by (subst s0; by destruct (trans_deadline_expired (sbi s1))).
  pose proof (write_pipeline_in_words s0) as Hpipe.
  rewrite Hseq0, Hworld0, Hcalls0 in Hpipe. fold r in Hpipe.
  destruct (write_pipeline (mk_frame 0 None scoutfs_bio_init_comp s0)) as [ret fr].
  destruct Hpipe as (-> & Hseg & Hworld & Hseq & Hcalls & Hk & Hfail).
  destruct (pr_ret r =? 0) eqn:Hret; simpl.
  - match goal with
    | |- context [write_func_finish HZ (pr_ret r) ?x] =>
        destruct (write_func_finish_fields (pr_ret r) x)
          as (_ & _ & _ & _ & _ & -> & _ & _ & _ & -> & ->)
    end.
    unfold count_segment_write, seg_put. simpl.
    rewrite ?Hseg, Hworld, Hseq, Hcalls, <- !app_assoc.
    split_and!; try done; try lia; exact Hfail.
  - match goal with
    | |- context [write_func_finish HZ (pr_ret r) ?x] =>
        destruct (write_func_finish_fields (pr_ret r) x)
          as (_ & _ & _ & _ & _ & -> & _ & _ & _ & -> & ->)
    end.
    unfold count_segment_write, seg_put. simpl.
    rewrite ?Hseg, Hworld, Hseq, Hcalls, <- !app_assoc.
    split_and!; try done; try lia; exact Hfail.
Qed.

(** C1.  A run of the work function whose wait for the holders ended in
    state [s1] with dirty items makes the calls of the pipeline as the
    specification words it ([pipeline_in_words]: inode writeback with
    sync, alloc_segno, segment allocation, draining the dirty items into
    the segment, segment write submission, inode writeback without sync,
    waiting for the I/O, record_segment at level 0, advance_seq), each
    with what the calls before it stored, from the first on and as far
    as the first one that does not return 0; no later call of the
    pipeline is made.  The calls are logged in the order of
    [write_pipeline_calls].  The run then puts the segment, records what
    the last call made returned, and returns; the rest of the file
    system and the sequence number are what the calls made and
    [scoutfs_seg_put] left, nothing is taken back. *)
Theorem write_pipeline_in_order current rounds s s1 :
  wait_event drained_condition rounds tt (set_sbi (set_trans_task (Some current)) s)
    = Returned (0, tt) s1 ->
  scoutfs_item_has_dirty (world s1) = true ->
  let r := pipeline_in_words (trans_seq (sbi s1)) (world s1) in
  exists s',
    scoutfs_trans_write_func HZ current rounds s = Returned tt s' /\
    (1 <= pr_calls r <= 9)%nat /\
    ((pr_calls r < 9)%nat -> pr_ret r <> 0) /\
    calls s' = calls s1 ++ take (pr_calls r) write_pipeline_calls
                 ++ c_seg_put :: (if pr_ret r =? 0 then [c_seg_total_bytes] else []) /\
    world s' = scoutfs_seg_put (pr_seg r) (pr_world r) /\
    trans_seq (sbi s') = pr_seq r /\
    trans_write_ret (sbi s') = pr_ret r.
Proof.
  intros Hdrain Hdirty r.
  destruct (write_after_drain_in_words s1 Hdirty)
    as (_ & Hret & Hk & Hfail & Hcalls & Hworld & Hseq).
  exists (write_after_drain HZ s1).
  split; [by apply write_func_after_drain |].
  split; [exact Hk |]. split; [exact Hfail |]. by split_and!.
Qed.

(** C4, as the code has it.  A run of the work function whose wait ended
    in state [s1] with no dirty items and the deadline expired makes one
    call, [scoutfs_client_advance_seq], and so allocates no segment
    number and no segment; it records what the call returned and stored.
    No counter changes: [trans_commit_timer] stays as it was. *)
Theorem idle_deadline_advances_seq current rounds s s1 :
  wait_event drained_condition rounds tt (set_sbi (set_trans_task (Some current)) s)
    = Returned (0, tt) s1 ->
  scoutfs_item_has_dirty (world s1) = false ->
  trans_deadline_expired (sbi s1) = true ->
  exists s',
    scoutfs_trans_write_func HZ current rounds s = Returned tt s' /\
    calls s' = calls s1 ++ [c_client_advance_seq] /\
    read_counter trans_commit_timer (ctrs s') = read_counter trans_commit_timer (ctrs s1) /\
    ctrs s' = ctrs s1 /\
    (trans_write_ret (sbi s'), trans_seq (sbi s'), world s') =
      scoutfs_client_advance_seq (trans_seq (sbi s1)) (world s1).
Proof.
  intros Hdrain Hclean Hdeadline.
  exists (write_after_drain HZ s1). split; [by apply write_func_after_drain |].
  unfold write_after_drain, write_func_body. rewrite Hclean, Hdeadline.
  unfold client_advance_seq. simpl.
  destruct (scoutfs_client_advance_seq _ _) as [[ret seq] w]. simpl.
  match goal with
  | |- context [write_func_finish HZ ret ?x] =>
      destruct (write_func_finish_fields ret x)
        as (_ & -> & _ & _ & _ & -> & _ & _ & -> & -> & ->)
  end.
  done.
Qed.

Lemma wrap64_small z : 0 <= z < 2 ^ 64 -> wrap64 z = z.
Proof. intros Hz. unfold wrap64. by apply Z.mod_small. Qed.

Lemma same_manager_refl s : same_manager s s.
Proof. by repeat split. Qed.

Lemma same_manager_trans s1 s2 s3 :
  same_manager s1 s2 -> same_manager s2 s3 -> same_manager s1 s3.
Proof.
  unfold same_manager. intros (?&?&?&?&?&?&?&?) (?&?&?&?&?&?&?&?).
  repeat split; congruence.
Qed.

(** The steps of the pipeline leave the manager alone. *)
Lemma write_pipeline_steps_manager :
  Forall (fun st : step => forall fr, same_manager (f_st fr) (f_st (snd (st fr))))
         write_pipeline_steps.
Proof.
  unfold write_pipeline_steps.
  repeat (apply List.Forall_cons; [intros fr |]); [.. | apply List.Forall_nil].
  - unfold inode_walk_writeback. by destruct (scoutfs_inode_walk_writeback _ _).
  - unfold client_alloc_segno. by destruct (scoutfs_client_alloc_segno _) as [[? ?] ?].
  - unfold seg_alloc. by destruct (scoutfs_seg_alloc _ _) as [[? ?] ?].
  - unfold item_dirty_seg. by destruct (scoutfs_item_dirty_seg _ _).
  - unfold seg_submit_write. by destruct (scoutfs_seg_submit_write _ _ _) as [[? ?] ?].
  - unfold inode_walk_writeback. by destruct (scoutfs_inode_walk_writeback _ _).
  - unfold bio_wait_comp. by destruct (scoutfs_bio_wait_comp _ _) as [[? ?] ?].
  - unfold client_record_segment. by destruct (scoutfs_client_record_segment _ _ _).
  - unfold client_advance_seq. by destruct (scoutfs_client_advance_seq _ _) as [[? ?] ?].
Qed.

Lemma run_in_order_manager (steps : list step) fr :
  Forall (fun st : step => forall fr, same_manager (f_st fr) (f_st (snd (st fr)))) steps ->
  same_manager (f_st fr) (f_st (snd (run_in_order steps fr))).
Proof.
  intros Hsteps. revert fr.
  induction Hsteps as [| st steps Hst Hsteps IH]; intros fr; simpl.
  - apply same_manager_refl.
  - specialize (Hst fr). destruct (st fr) as [ret fr1]. simpl in Hst.
    destruct (ret =? 0); [| done].
    eapply same_manager_trans; [exact Hst | apply IH].
Qed.

Lemma write_func_body_manager s : same_manager s (snd (write_func_body s)).
Proof.
  unfold write_func_body.
  destruct (scoutfs_item_has_dirty (world s)).
  - fold (pipeline_entry s). rewrite write_pipeline_run_in_order.
    pose proof (run_in_order_manager write_pipeline_steps (pipeline_entry s)
                  write_pipeline_steps_manager) as Hrun.
    destruct (run_in_order _ _) as [ret fr]. simpl in Hrun.
    eapply same_manager_trans with (s2 := f_st fr).
    + eapply same_manager_trans; [| exact Hrun].
      unfold pipeline_entry. simpl.
      by destruct (trans_deadline_expired (sbi s)).
    + by destruct (ret =? 0).
  - destruct (trans_deadline_expired (sbi s)); [| apply same_manager_refl].
    unfold client_advance_seq. simpl.
    by destruct (scoutfs_client_advance_seq _ _) as [[? ?] ?].
Qed.

(** ** Sums over the reservations *)

Section sums.

Variable f : scoutfs_reservation -> Z.
Implicit Types m : gmap nat scoutfs_reservation.

Lemma sum_over_empty : sum_over f ∅ = 0.
Proof. unfold sum_over. apply map_fold_empty. Qed.

Lemma sum_over_insert_fresh m k r :
  m !! k = None -> sum_over f (<[k := r]> m) = f r + sum_over f m.
Proof.
  intros Hfresh. unfold sum_over.
  apply (map_fold_insert_L (fun _ r acc => f r + acc)); [intros; lia | done].
Qed.

Lemma sum_over_delete m k r :
  m !! k = Some r -> sum_over f (delete k m) = sum_over f m - f r.
Proof.
  intros Hk. unfold sum_over.
  rewrite (map_fold_delete_L (fun _ r acc => f r + acc) 0 k r m); [lia | intros; lia | done].
Qed.

Lemma sum_over_insert m k r r' :
  m !! k = Some r -> sum_over f (<[k := r']> m) = sum_over f m - f r + f r'.
Proof.
  intros Hk. rewrite <- insert_delete_eq.
  rewrite sum_over_insert_fresh by apply lookup_delete_eq.
  rewrite (sum_over_delete m k r) by done. lia.
Qed.

Lemma sum_over_nonneg m :
  (forall k r, m !! k = Some r -> 0 <= f r) -> 0 <= sum_over f m.
Proof.
  induction m as [| k r m Hfresh IH] using map_ind; intros Hpos.
  - by rewrite sum_over_empty.
  - rewrite sum_over_insert_fresh by done.
    assert (0 <= f r) by (apply (Hpos k); apply lookup_insert_eq).
    assert (0 <= sum_over f m); [| lia].
    apply IH. intros k' r' Hk'. apply (Hpos k').
    rewrite lookup_insert_ne; [done |]. intros ->. congruence.
Qed.

Lemma sum_over_ge m k r :
  (forall k r, m !! k = Some r -> 0 <= f r) -> m !! k = Some r -> f r <= sum_over f m.
Proof.
  intros Hpos Hk.
  assert (0 <= sum_over f (delete k m)).
  { apply sum_over_nonneg. intros k' r' Hk'.
    apply lookup_delete_Some in Hk' as [_ Hk']. by apply (Hpos k'). }
  rewrite (sum_over_delete m k r) in H by done. lia.
Qed.

End sums.

(** ** The invariant, one update of the state at a time *)

Lemma wrap32_small z : 0 <= z < 2 ^ 32 -> wrap32 z = z.
Proof. intros Hz. unfold wrap32. by apply Z.mod_small. Qed.

Lemma rsv_ok_mono n m rsv : n <= m -> rsv_ok n rsv -> rsv_ok m rsv.
Proof. unfold rsv_ok. intros Hle (? & ? & ? & ? & ?). split_and!; try done; lia. Qed.

Lemma kinv_mono side n m s : n <= m -> kinv side n s -> kinv side m s.
Proof.
  intros Hle (Hn & Hrsv & Hwarn & Hsums).
  split; [lia |]. split; [| split; [done |]].
  - intros t rsv Ht. eapply rsv_ok_mono; [done | by eapply Hrsv].
  - intros Hside. destruct (Hsums Hside) as (? & ? & ? & ?).
    unfold sums_in_range. split_and!; try done; lia.
Qed.

Lemma kinv_quiet side n s s' : quiet s s' -> kinv side n s -> kinv side n s'.
Proof.
  intros (Hj & Hi & Hv & Hh & Hlog) (Hn & Hrsv & [Hwi Hwv] & Hsums).
  split; [done |]. split; [| split; [split |]].
  - intros t rsv. rewrite Hj. apply Hrsv.
  - intros Hnot t rsv. rewrite Hj. apply Hwi. intros Hin. apply Hnot. by apply Hlog.
  - intros Hnot t rsv. rewrite Hj. apply Hwv. intros Hin. apply Hnot. by apply Hlog.
  - intros Hside. destruct (Hsums Hside) as ((Hsi & Hsv & Hsh) & ? & ? & ?).
    unfold sums_in_range, manager_sums. rewrite Hj, Hi, Hv, Hh. by split_and!.
Qed.

(** A reservation fresh from [kzalloc] is hung on a task. *)
Lemma kinv_alloc side n s s' t :
  journal_info s !! t = None ->
  journal_info s' = <[t := new_reservation]> (journal_info s) ->
  tri s' = tri s -> klog s' = klog s ->
  kinv side n s -> kinv side n s'.
Proof.
  intros Hfresh Hj Htri Hlog (Hn & Hrsv & [Hwi Hwv] & Hsums).
  split; [done |]. split; [| split; [split |]].
  - intros t' rsv. rewrite Hj. intros Hlook.
    apply lookup_insert_Some in Hlook as [[_ <-] | [_ Hlook]]; [| by eapply Hrsv].
    unfold rsv_ok, new_reservation, reserved_items, reserved_vals. simpl.
    split_and!; try done; lia.
  - rewrite Hlog. intros Hnot t' rsv. rewrite Hj. intros Hlook.
    apply lookup_insert_Some in Hlook as [[_ <-] | [_ Hlook]]; [done | by eapply Hwi].
  - rewrite Hlog. intros Hnot t' rsv. rewrite Hj. intros Hlook.
    apply lookup_insert_Some in Hlook as [[_ <-] | [_ Hlook]]; [done | by eapply Hwv].
  - intros Hside. destruct (Hsums Hside) as ((Hsi & Hsv & Hsh) & ? & ? & ?).
    unfold sums_in_range, manager_sums. rewrite Hj, Htri.
    rewrite !sum_over_insert_fresh by done.
    change (reserved_items new_reservation) with 0.
    change (reserved_vals new_reservation) with 0.
    change (rsv_holders new_reservation) with 0.
    split_and!; try done; lia.
Qed.

(** A reservation is freed, and the manager's counts follow. *)
Lemma kinv_drop side n s s' t rsv :
  journal_info s !! t = Some rsv ->
  journal_info s' = delete t (journal_info s) ->
  klog s' = klog s ->
  (side -> sums_in_range n s ->
   tri_reserved_items (tri s') = tri_reserved_items (tri s) - reserved_items rsv /\
   tri_reserved_vals (tri s') = tri_reserved_vals (tri s) - reserved_vals rsv /\
   tri_holders (tri s') = tri_holders (tri s) - rsv_holders rsv) ->
  kinv side n s -> kinv side n s'.
Proof.
  intros Ht Hj Hlog Htri (Hn & Hrsv & [Hwi Hwv] & Hsums).
  split; [done |]. split; [| split; [split |]].
  - intros t' r. rewrite Hj. intros Hlook.
    apply lookup_delete_Some in Hlook as [_ Hlook]. by eapply Hrsv.
  - rewrite Hlog. intros Hnot t' r. rewrite Hj. intros Hlook.
    apply lookup_delete_Some in Hlook as [_ Hlook]. by eapply Hwi.
  - rewrite Hlog. intros Hnot t' r. rewrite Hj. intros Hlook.
    apply lookup_delete_Some in Hlook as [_ Hlook]. by eapply Hwv.
  - intros Hside. specialize (Hsums Hside).
    destruct (Htri Hside Hsums) as (Hi & Hv & Hh).
    destruct Hsums as ((Hsi & Hsv & Hsh) & ? & ? & ?).
    destruct (Hrsv t rsv Ht) as (_ & ? & ? & ? & _).
    unfold sums_in_range, manager_sums. rewrite Hj.
    rewrite !(sum_over_delete _ _ t rsv) by done.
    split_and!; try done; lia.
Qed.

(** A reservation that nobody holds is freed. *)
Lemma kinv_free side n s s' t rsv :
  journal_info s !! t = Some rsv ->
  rsv_holders rsv = 0 ->
  journal_info s' = delete t (journal_info s) ->
  tri s' = tri s -> klog s' = klog s ->
  kinv side n s -> kinv side n s'.
Proof.
  intros Ht Hzero Hj Htri Hlog Hinv.
  eapply kinv_drop; [done | done | done | | done].
  intros _ _. destruct Hinv as (_ & Hrsv & _).
  destruct (Hrsv t rsv Ht) as (_ & _ & _ & _ & Hnone).
  unfold reserved_items, reserved_vals. rewrite (Hnone Hzero), Hzero, Htri. simpl. lia.
Qed.

(** The reservation of a task is replaced, and the manager's counts
    follow. *)
Lemma kinv_update side n s s' t rsv rsv' :
  journal_info s !! t = Some rsv ->
  journal_info s' = <[t := rsv']> (journal_info s) ->
  klog s ⊆ klog s' ->
  rsv_ok n rsv' ->
  (warn_track_items ∉ klog s' ->
   items (rsv_actual rsv) <= items (rsv_reserved rsv) ->
   items (rsv_actual rsv') <= items (rsv_reserved rsv')) ->
  (warn_track_vals ∉ klog s' ->
   vals (rsv_actual rsv) <= vals (rsv_reserved rsv) ->
   vals (rsv_actual rsv') <= vals (rsv_reserved rsv')) ->
  (side -> sums_in_range n s ->
   tri_reserved_items (tri s') =
     tri_reserved_items (tri s) - reserved_items rsv + reserved_items rsv' /\
   tri_reserved_vals (tri s') =
     tri_reserved_vals (tri s) - reserved_vals rsv + reserved_vals rsv' /\
   tri_holders (tri s') = tri_holders (tri s) - rsv_holders rsv + rsv_holders rsv' /\
   tri_reserved_items (tri s') <= INT_MAX /\
   tri_reserved_vals (tri s') <= INT_MAX /\
   tri_holders (tri s') <= n) ->
  kinv side n s -> kinv side n s'.
Proof.
  intros Ht Hj Hlog Hok Hitems Hvals Htri (Hn & Hrsv & [Hwi Hwv] & Hsums).
  split; [done |]. split; [| split; [split |]].
  - intros t' r. rewrite Hj. intros Hlook.
    apply lookup_insert_Some in Hlook as [[_ <-] | [_ Hlook]]; [done | by eapply Hrsv].
  - intros Hnot t' r. rewrite Hj. intros Hlook.
    assert (warn_track_items ∉ klog s) as Hnot0 by (intros Hin; apply Hnot; by apply Hlog).
    apply lookup_insert_Some in Hlook as [[_ <-] | [_ Hlook]].
    + apply Hitems; [done |]. by apply (Hwi Hnot0 t).
    + by apply (Hwi Hnot0 t').
  - intros Hnot t' r. rewrite Hj. intros Hlook.
    assert (warn_track_vals ∉ klog s) as Hnot0 by (intros Hin; apply Hnot; by apply Hlog).
    apply lookup_insert_Some in Hlook as [[_ <-] | [_ Hlook]].
    + apply Hvals; [done |]. by apply (Hwv Hnot0 t).
    + by apply (Hwv Hnot0 t').
  - intros Hside. specialize (Hsums Hside).
    destruct (Htri Hside Hsums) as (Hi & Hv & Hh & ? & ? & ?).
    destruct Hsums as ((Hsi & Hsv & Hsh) & _).
    unfold sums_in_range, manager_sums. rewrite Hj.
    rewrite !(sum_over_insert _ _ t rsv rsv') by done.
    split_and!; try done; lia.
Qed.

Lemma quiet_refl s : quiet s s.
Proof. by split_and!. Qed.

Lemma quiet_trans s1 s2 s3 : quiet s1 s2 -> quiet s2 s3 -> quiet s1 s3.
Proof.
  intros (Hj & Hi & Hv & Hh & Hlog) (Hj' & Hi' & Hv' & Hh' & Hlog').
  split_and!; try congruence. set_solver.
Qed.

Lemma WARN_ON_ONCE_klog site c s :
  let s' := snd (WARN_ON_ONCE site c s) in
  klog s ⊆ klog s' /\ (c = true -> site ∈ klog s').
Proof.
  unfold WARN_ON_ONCE.
  destruct c; simpl; [| by split].
  destruct (bool_decide (site ∈ klog s)) eqn:Hin; simpl.
  - apply bool_decide_eq_true in Hin. by split.
  - split; [set_solver | intros _; set_solver].
Qed.

Lemma WARN_ON_ONCE_quiet site c s : quiet s (snd (WARN_ON_ONCE site c s)).
Proof.
  destruct (WARN_ON_ONCE_snd site c s) as (_ & Htri & Hj & _).
  destruct (WARN_ON_ONCE_klog site c s) as [Hlog _].
  unfold quiet. rewrite Hj, Htri. by split_and!.
Qed.

(** No site is logged twice. *)
Lemma WARN_ON_ONCE_NoDup site c s :
  NoDup (klog s) -> NoDup (klog (snd (WARN_ON_ONCE site c s))).
Proof.
  unfold WARN_ON_ONCE. intros Hnodup.
  destruct c; simpl; [| done].
  destruct (bool_decide (site ∈ klog s)) eqn:Hin; simpl; [done |].
  apply bool_decide_eq_false in Hin.
  apply NoDup_app. split_and!; [done | | apply NoDup_singleton].
  intros x Hx Hx'. apply list_elem_of_singleton in Hx'. by subst.
Qed.

(** One evaluation of the wait condition of a hold. *)
Lemma kinv_acquired_hold side n t cnt s acquired s' :
  kinv side n s ->
  0 < items cnt -> 0 <= vals cnt ->
  (side -> count_is_int cnt /\ fits_single_bounded) ->
  n + 1 < 2 ^ 32 ->
  acquired_hold t cnt s = Some (acquired, s') ->
  kinv side (n + 1) s'.
Proof.
  intros Hinv Hitems Hvals Hside Hn.
  assert (kinv side (n + 1) s) as Hinv1 by (eapply kinv_mono; [| done]; lia).
  destruct Hinv as (Hn0 & Hrsv & _ & Hsums).
  unfold acquired_hold.
  destruct (journal_info s !! t) as [rsv |] eqn:Ht; [| done].
  destruct (Hrsv t rsv Ht) as (Hmagic & Hh & Hri & Hrv & Hnone).
  destruct (rsv_holders rsv =? 0) eqn:Hzero; simpl.
  - apply Z.eqb_eq in Hzero. specialize (Hnone Hzero).
    destruct (tri_writing (tri s)); [by intros [= _ <-] |].
    destruct (scoutfs_item_dirty_fits_single _ _ _) eqn:Hfits; simpl; intros [= _ <-].
    + (* let in: the counts are reserved *)
      eapply (kinv_update side (n + 1) s _ t rsv); [done | reflexivity | done | ..| done].
      * unfold rsv_ok, reserved_items, reserved_vals. simpl. rewrite Hzero.
        rewrite wrap32_small by lia. split_and!; try done; lia.
      * simpl. rewrite Hnone. simpl. lia.
      * simpl. rewrite Hnone. simpl. lia.
      * intros Hs _. destruct (Hsums Hs) as ((Hsi & Hsv & Hsh) & Hbi & Hbv & Hbh).
        destruct (Hside Hs) as [[Hci Hcv] Hbounded].
        apply Hbounded in Hfits as [Hfi Hfv].
        assert (0 <= tri_reserved_items (tri s)).
        { rewrite Hsi. apply sum_over_nonneg. intros k r Hk. by apply (Hrsv k r Hk). }
        assert (0 <= tri_reserved_vals (tri s)).
        { rewrite Hsv. apply sum_over_nonneg. intros k r Hk. by apply (Hrsv k r Hk). }
        assert (0 <= tri_holders (tri s)).
        { rewrite Hsh. apply sum_over_nonneg. intros k r Hk. by apply (Hrsv k r Hk). }
        unfold is_int, INT_MAX, INT_MIN in *.
        rewrite wrap32_small in Hfi by lia. rewrite wrap32_small in Hfv by lia.
        simpl. unfold reserved_items, reserved_vals. simpl.
        rewrite Hnone, Hzero. simpl.
        rewrite !wrap32_small by lia. lia.
    + (* turned away: the commit is kicked *)
      eapply kinv_quiet; [| done]. by split_and!.
  - (* a hold on top of the caller's own *)
    apply Z.eqb_neq in Hzero. intros [= _ <-].
    eapply (kinv_update side (n + 1) s _ t rsv); [done | reflexivity | done | .. | done].
    + unfold rsv_ok, reserved_items, reserved_vals. simpl.
      rewrite wrap32_small by lia. split_and!; try done; lia.
    + done.
    + done.
    + intros Hs _. destruct (Hsums Hs) as ((Hsi & Hsv & Hsh) & Hbi & Hbv & Hbh).
      assert (0 <= tri_holders (tri s)).
      { rewrite Hsh. apply sum_over_nonneg. intros k r Hk. by apply (Hrsv k r Hk). }
      unfold reserved_items, reserved_vals. simpl.
      rewrite !wrap32_small by lia. lia.
Qed.

(** What a track call by a task with a reservation does: the new sums
    are stored whatever they are, and a sum above the reserved count is
    in the log of warnings afterwards. *)
Lemma track_item_stores current d_items d_vals s rsv :
  trans_task (sbi s) <> Some current ->
  journal_info s !! current = Some rsv ->
  rsv_magic rsv = SCOUTFS_RESERVATION_MAGIC ->
  let actual := mk_count (wrap_int (items (rsv_actual rsv) + d_items))
                         (wrap_int (vals (rsv_actual rsv) + d_vals)) in
  exists s',
    scoutfs_trans_track_item current d_items d_vals s = Returned tt s' /\
    journal_info s' = <[current := set_rsv_actual actual rsv]> (journal_info s) /\
    tri s' = tri s /\ sbi s' = sbi s /\ ctrs s' = ctrs s /\
    world s' = world s /\ calls s' = calls s /\
    klog s ⊆ klog s' /\
    (NoDup (klog s) -> NoDup (klog s')) /\
    (items (rsv_reserved rsv) < items actual -> warn_track_items ∈ klog s') /\
    (vals (rsv_reserved rsv) < vals actual -> warn_track_vals ∈ klog s').
Proof.
  intros Htask Hrsv Hmagic actual.
  unfold scoutfs_trans_track_item.
  rewrite bool_decide_eq_false_2 by done.
  rewrite Hrsv, Hmagic, Z.eqb_refl. simpl. fold actual.
  set (s1 := set_journal_info _ s).
  set (c1 := items (rsv_reserved rsv) <? wrap_int (items (rsv_actual rsv) + d_items)).
  set (c2 := vals (rsv_reserved rsv) <? wrap_int (vals (rsv_actual rsv) + d_vals)).
  pose proof (WARN_ON_ONCE_snd warn_track_items c1 s1) as Hs2.
  pose proof (WARN_ON_ONCE_klog warn_track_items c1 s1) as Hk2.
  pose proof (WARN_ON_ONCE_NoDup warn_track_items c1 s1) as Hn2.
  destruct (WARN_ON_ONCE warn_track_items c1 s1) as [b2 s2]. simpl in Hs2, Hk2, Hn2.
  pose proof (WARN_ON_ONCE_snd warn_track_vals c2 s2) as Hs3.
  pose proof (WARN_ON_ONCE_klog warn_track_vals c2 s2) as Hk3.
  pose proof (WARN_ON_ONCE_NoDup warn_track_vals c2 s2) as Hn3.
  destruct (WARN_ON_ONCE warn_track_vals c2 s2) as [b3 s3]. simpl in Hs3, Hk3, Hn3.
  destruct Hs2 as (Hsbi2 & Htri2 & Hj2 & Hc2 & Hw2 & Hcalls2).
  destruct Hs3 as (Hsbi3 & Htri3 & Hj3 & Hc3 & Hw3 & Hcalls3).
  destruct Hk2 as [Hsub2 Hin2]. destruct Hk3 as [Hsub3 Hin3].
  exists s3. split; [done |].
  rewrite Hj3, Hj2, Htri3, Htri2, Hsbi3, Hsbi2, Hc3, Hc2, Hw3, Hw2, Hcalls3, Hcalls2.
  split_and!; try done.
  - change (klog s) with (klog s1). set_solver.
  - intros Hnodup. by apply Hn3, Hn2.
  - intros Hover. apply Hsub3, Hin2. by apply Z.ltb_lt.
  - intros Hover. apply Hin3. by apply Z.ltb_lt.
Qed.

Lemma kinv_track side n t d_items d_vals s s' :
  kinv side n s ->
  scoutfs_trans_track_item t d_items d_vals s = Returned tt s' ->
  kinv side n s'.
Proof.
  intros Hinv Htrack.
  destruct (decide (trans_task (sbi s) = Some t)) as [Htask | Htask].
  { unfold scoutfs_trans_track_item in Htrack.
    rewrite bool_decide_eq_true_2 in Htrack by done. by injection Htrack as <-. }
  destruct (journal_info s !! t) as [rsv |] eqn:Ht; cycle 1.
  { unfold scoutfs_trans_track_item in Htrack.
    rewrite bool_decide_eq_false_2 in Htrack by done. by rewrite Ht in Htrack. }
  pose proof Hinv as (_ & Hrsv & _ & _).
  destruct (Hrsv t rsv Ht) as (Hmagic & Hh & Hri & Hrv & Hnone).
  destruct (track_item_stores t d_items d_vals s rsv Htask Ht Hmagic)
    as (s3 & Hret & Hj & Htri & _ & _ & _ & _ & Hsub & _ & Hwi & Hwv).
  rewrite Hret in Htrack. injection Htrack as <-.
  eapply (kinv_update side n s s3 t rsv); [done | done | done | ..| done].
  - done.
  - intros Hnot _. simpl. apply Z.nlt_ge. intros Hover. by apply Hnot, Hwi.
  - intros Hnot _. simpl. apply Z.nlt_ge. intros Hover. by apply Hnot, Hwv.
  - intros _ (_ & ? & ? & ?). rewrite Htri.
    unfold reserved_items, reserved_vals. simpl. lia.
Qed.

Lemma kinv_release side n t s s' :
  kinv side n s ->
  n < 2 ^ 32 ->
  scoutfs_release_trans t s = Returned tt s' ->
  kinv side n s'.
Proof.
  intros Hinv Hn. unfold scoutfs_release_trans.
  destruct (bool_decide (trans_task (sbi s) = Some t)); [by intros [= <-] |].
  destruct (journal_info s !! t) as [rsv |] eqn:Ht; [| done].
  pose proof Hinv as (Hn0 & Hrsv & _ & Hsums).
  destruct (Hrsv t rsv Ht) as (Hmagic & Hh & Hri & Hrv & Hnone).
  destruct (negb (rsv_magic rsv =? SCOUTFS_RESERVATION_MAGIC)); [done |].
  destruct (rsv_holders rsv <=? 0) eqn:Hheld; [done |].
  destruct (tri_holders (tri s) <=? 0) eqn:Htheld; [done |].
  apply Z.leb_gt in Hheld, Htheld.
  rewrite (wrap32_small (rsv_holders rsv - 1)) by lia.
  assert (forall k r, journal_info s !! k = Some r -> 0 <= reserved_items r) as Hpi
    by (intros k r Hk; by apply (Hrsv k r Hk)).
  assert (forall k r, journal_info s !! k = Some r -> 0 <= reserved_vals r) as Hpv
    by (intros k r Hk; by apply (Hrsv k r Hk)).
  assert (forall k r, journal_info s !! k = Some r -> 0 <= rsv_holders r) as Hph
    by (intros k r Hk; by apply (Hrsv k r Hk)).
  destruct (rsv_holders rsv - 1 =? 0) eqn:Hlast; intros [= <-].
  - (* the last hold of the reservation: it is freed *)
    apply Z.eqb_eq in Hlast.
    eapply (kinv_drop side n s _ t rsv); [done | reflexivity | reflexivity | | done].
    intros Hside ((Hsi & Hsv & Hsh) & Hbi & Hbv & Hbh).
    pose proof (sum_over_ge reserved_items _ t rsv Hpi Ht) as Hgi.
    pose proof (sum_over_ge reserved_vals _ t rsv Hpv Ht) as Hgv.
    simpl. fold (reserved_items rsv) (reserved_vals rsv).
    unfold INT_MAX in *.
    rewrite !wrap32_small by lia. lia.
  - (* other holds remain *)
    apply Z.eqb_neq in Hlast.
    eapply (kinv_update side n s _ t rsv); [done | reflexivity | done | .. | done].
    + unfold rsv_ok, reserved_items, reserved_vals. simpl. split_and!; try done; lia.
    + done.
    + done.
    + intros Hside ((Hsi & Hsv & Hsh) & Hbi & Hbv & Hbh).
      unfold reserved_items, reserved_vals. simpl.
      rewrite !wrap32_small by lia. lia.
Qed.

(** ** The invariant, one call at a time *)

(** A wait that evaluates its condition once: a call with no round to
    run, or one more round of a sleeper. *)
Lemma wait_once_inv {L : Type} (cnd : L -> state -> option (bool * L * state))
    (P Q : state -> Prop) l s :
  (forall l s b l' s', P s -> cnd l s = Some (b, l', s') -> Q s') ->
  P s ->
  outcome_inv Q (wait_event_interruptible cnd [] l s) /\
  outcome_inv Q (wait_event cnd [] l s) /\
  forall intr signal, outcome_inv Q (___wait_event cnd intr (one_round signal) l s).
Proof.
  intros Hcnd HP.
  unfold wait_event_interruptible, wait_event, one_round. simpl.
  destruct (cnd l s) as [[[b l'] s'] |] eqn:Hc; [| done].
  specialize (Hcnd _ _ _ _ _ HP Hc).
  destruct b; simpl; [done |].
  split_and!; try done. intros intr signal. by destruct (intr && signal).
Qed.

Lemma hold_prologue_inv side n t cnt kz s :
  kinv side n s ->
  match hold_prologue t cnt kz s with
  | inl (Returned _ s1) => kinv side n s1
  | inl (Blocked _) => False
  | inl Bug => True
  | inr s1 => kinv side n s1 /\ 0 < items cnt /\ 0 <= vals cnt
  end.
Proof.
  intros Hinv. unfold hold_prologue.
  pose proof (WARN_ON_ONCE_fst warn_hold_garbage_count
                ((items cnt <=? 0) || (vals cnt <? 0)) s) as Hg.
  pose proof (WARN_ON_ONCE_quiet warn_hold_garbage_count
                ((items cnt <=? 0) || (vals cnt <? 0)) s) as Hq1.
  destruct (WARN_ON_ONCE warn_hold_garbage_count _ s) as [garbage s1].
  simpl in Hg, Hq1. subst garbage.
  assert (kinv side n s1) as Hinv1 by (by eapply kinv_quiet).
  destruct ((items cnt <=? 0) || (vals cnt <? 0)) eqn:Hgarbage; [done |].
  apply orb_false_iff in Hgarbage as [Hi Hv].
  apply Z.leb_gt in Hi. apply Z.ltb_ge in Hv.
  pose proof (WARN_ON_ONCE_fst warn_hold_not_single
                (negb (scoutfs_seg_fits_single (items cnt) (vals cnt))) s1) as Hg.
  pose proof (WARN_ON_ONCE_snd warn_hold_not_single
                (negb (scoutfs_seg_fits_single (items cnt) (vals cnt))) s1) as Hs2.
  pose proof (WARN_ON_ONCE_quiet warn_hold_not_single
                (negb (scoutfs_seg_fits_single (items cnt) (vals cnt))) s1) as Hq2.
  destruct (WARN_ON_ONCE warn_hold_not_single _ s1) as [too_big s2].
  simpl in Hg, Hq2, Hs2. subst too_big.
  assert (kinv side n s2) as Hinv2 by (by eapply kinv_quiet).
  destruct (negb (scoutfs_seg_fits_single (items cnt) (vals cnt))); [done |].
  destruct (bool_decide (trans_task (sbi s2) = Some t)); [done |].
  destruct (journal_info s2 !! t) as [rsv |] eqn:Ht.
  - by destruct (rsv_magic rsv =? SCOUTFS_RESERVATION_MAGIC).
  - destruct kz; [| done]. split; [| done].
    by eapply (kinv_alloc side n s2 _ t).
Qed.

Lemma hold_epilogue_inv side n t (o : @outcome W (Z * unit)) :
  outcome_inv (kinv side n) o ->
  outcome_inv (kinv side n) (hold_epilogue t o).
Proof.
  destruct o as [[ret []] s | s |]; simpl; [| done | done].
  intros Hinv.
  destruct (journal_info s !! t) as [rsv |] eqn:Ht; [| done].
  destruct (negb (ret =? 0)); simpl; [| done].
  destruct (rsv_holders rsv =? 0) eqn:Hzero; simpl; [| done].
  apply Z.eqb_eq in Hzero.
  by eapply (kinv_free side n s _ t rsv).
Qed.

Lemma hold_epilogue_blocked t (o : @outcome W (Z * unit)) s' :
  hold_epilogue t o = Blocked s' -> o = Blocked s'.
Proof.
  destruct o as [[ret []] s | s |]; simpl; [| by intros [= ->] | done].
  destruct (journal_info s !! t) as [rsv |]; [| done].
  by destruct (negb (ret =? 0) && (rsv_holders rsv =? 0)).
Qed.

Lemma hold_condition_inv side n t cnt :
  0 < items cnt -> 0 <= vals cnt ->
  (side -> count_is_int cnt /\ fits_single_bounded) ->
  n + 1 < 2 ^ 32 ->
  forall (l : unit) s b l' s',
    kinv side n s -> hold_condition t cnt l s = Some (b, l', s') -> kinv side (n + 1) s'.
Proof.
  intros Hi Hv Hside Hn l s b l' s' Hinv. unfold hold_condition.
  destruct (acquired_hold t cnt s) as [[acquired s1] |] eqn:Hacq; [| done].
  intros [= _ _ <-]. by eapply kinv_acquired_hold.
Qed.

Lemma hold_trans_inv side n t cnt kz s :
  kinv side n s ->
  (side -> count_is_int cnt /\ fits_single_bounded) ->
  n + 1 < 2 ^ 32 ->
  match scoutfs_hold_trans t cnt kz [] s with
  | Returned _ s' => kinv side (n + 1) s'
  | Blocked s' => kinv side (n + 1) s' /\ 0 < items cnt /\ 0 <= vals cnt
  | Bug => True
  end.
Proof.
  intros Hinv Hside Hn. unfold scoutfs_hold_trans.
  pose proof (hold_prologue_inv side n t cnt kz s Hinv) as Hpro.
  destruct (hold_prologue t cnt kz s) as [[ret s1 | s1 |] | s1].
  - eapply kinv_mono; [| done]. lia.
  - done.
  - done.
  - destruct Hpro as (Hinv1 & Hi & Hv).
    destruct (wait_once_inv (hold_condition t cnt) (kinv side n) (kinv side (n + 1)) tt s1
                (hold_condition_inv side n t cnt Hi Hv Hside Hn) Hinv1) as (Hwait & _).
    apply (hold_epilogue_inv side (n + 1) t) in Hwait.
    destruct (hold_epilogue t _) as [ret s2 | s2 |]; simpl in Hwait; done.
Qed.

(** Kicking, writing and syncing leave the reservations and the
    manager's counts alone. *)
Lemma queue_trans_work_quiet s : quiet s (queue_trans_work s).
Proof. by split_and!. Qed.

Lemma write_func_finish_quiet ret s : quiet s (write_func_finish HZ ret s).
Proof.
  unfold write_func_finish.
  pose proof (WARN_ON_ONCE_quiet warn_write_ret (negb (ret =? 0)) s) as Hq.
  destruct (WARN_ON_ONCE warn_write_ret (negb (ret =? 0)) s) as [b s1]. simpl in Hq.
  eapply quiet_trans; [exact Hq |]. by split_and!.
Qed.

Lemma write_after_drain_quiet s : quiet s (write_after_drain HZ s).
Proof.
  unfold write_after_drain.
  pose proof (write_func_body_manager s) as (Htri & Hj & Hlog & _).
  destruct (write_func_body s) as [ret s1]. simpl in *.
  eapply quiet_trans; [| apply write_func_finish_quiet].
  unfold quiet. rewrite Htri, Hj, Hlog. by split_and!.
Qed.

Lemma drained_condition_quiet (l : unit) s b l' s' :
  drained_condition l s = Some (b, l', s') -> quiet s s'.
Proof. unfold drained_condition. simpl. intros [= _ _ <-]. by split_and!. Qed.

Lemma write_attempted_quiet attempt s b attempt' s' :
  write_attempted attempt s = Some (b, attempt', s') -> quiet s s'.
Proof.
  unfold write_attempted. destruct (_ <? _); intros [= _ _ <-]; apply quiet_refl.
Qed.

Lemma outcome_inv_impl {A : Type} (P Q : state -> Prop) (o : @outcome W A) :
  (forall s, P s -> Q s) -> outcome_inv P o -> outcome_inv Q o.
Proof. intros HPQ. destruct o; simpl; auto. Qed.

Lemma write_func_epilogue_inv (P : state -> Prop) (o : @outcome W (Z * unit)) :
  (forall s, P s -> P (write_after_drain HZ s)) ->
  outcome_inv P o -> outcome_inv P (write_func_epilogue HZ o).
Proof. intros HP. destruct o; simpl; auto. Qed.

Lemma sync_epilogue_inv (P : state -> Prop) (o : @outcome W (Z * write_attempt)) :
  outcome_inv P o -> outcome_inv P (sync_epilogue o).
Proof. destruct o as [[ret attempt] s | s |]; simpl; auto. Qed.

Section quiet_calls.

Variables (side : Prop) (n : Z).

Lemma kinv_write_after_drain s : kinv side n s -> kinv side n (write_after_drain HZ s).
Proof. apply kinv_quiet, write_after_drain_quiet. Qed.

Lemma drained_wait_inv s :
  kinv side n s ->
  outcome_inv (kinv side n) (wait_event drained_condition [] tt s) /\
  forall signal,
    outcome_inv (kinv side n) (___wait_event drained_condition false (one_round signal) tt s).
Proof.
  intros Hinv.
  destruct (wait_once_inv drained_condition (kinv side n) (kinv side n) tt s) as (_ & ? & ?);
    [| done | by split].
  intros l s0 b l' s' Hinv0 Hc. eapply kinv_quiet; [| done].
  by eapply drained_condition_quiet.
Qed.

Lemma sync_wait_inv attempt s :
  kinv side n s ->
  outcome_inv (kinv side n) (wait_event_interruptible write_attempted [] attempt s) /\
  forall signal,
    outcome_inv (kinv side n)
      (___wait_event write_attempted true (one_round signal) attempt s).
Proof.
  intros Hinv.
  destruct (wait_once_inv write_attempted (kinv side n) (kinv side n) attempt s)
    as (? & _ & ?); [| done | by split].
  intros l s0 b l' s' Hinv0 Hc. eapply kinv_quiet; [| done].
  by eapply write_attempted_quiet.
Qed.

Lemma write_func_inv t s :
  kinv side n s -> outcome_inv (kinv side n) (scoutfs_trans_write_func HZ t [] s).
Proof.
  intros Hinv. unfold scoutfs_trans_write_func.
  apply write_func_epilogue_inv; [apply kinv_write_after_drain |].
  apply drained_wait_inv. eapply kinv_quiet; [| done]. by split_and!.
Qed.

Lemma trans_sync_inv wait s :
  kinv side n s -> outcome_inv (kinv side n) (scoutfs_trans_sync wait [] s).
Proof.
  intros Hinv. unfold scoutfs_trans_sync.
  assert (kinv side n (queue_trans_work s)) as Hq
    by (eapply kinv_quiet; [apply queue_trans_work_quiet | done]).
  destruct (wait =? 0); [done |].
  apply sync_epilogue_inv. by apply sync_wait_inv.
Qed.

Lemma file_fsync_inv s :
  kinv side n s -> outcome_inv (kinv side n) (scoutfs_file_fsync [] s).
Proof.
  intros Hinv. unfold scoutfs_file_fsync. apply trans_sync_inv.
  eapply kinv_quiet; [| done]. by split_and!.
Qed.

End quiet_calls.

(** ** The invariant along a run *)

Lemma settle_inv {A : Type} side n t z (o : @outcome W A) sys sys' :
  (forall t z, asleep sys !! t = Some z -> sleeper_ok side z) ->
  outcome_inv (kinv side n) o ->
  (forall s', o = Blocked s' -> sleeper_ok side z) ->
  settle t z o sys = Some sys' ->
  sys_inv side n sys'.
Proof.
  intros Hsleep Ho Hz. destruct o as [ret s | s |]; simpl; [| | done].
  - intros [= <-]. split; [done |]. simpl. intros t' z' Hlook.
    apply lookup_delete_Some in Hlook as [_ Hlook]. by eapply Hsleep.
  - intros [= <-]. split; [done |]. simpl. intros t' z' Hlook.
    apply lookup_insert_Some in Hlook as [[_ <-] | [_ Hlook]]; [by eapply Hz | by eapply Hsleep].
Qed.

Lemma finished_inv {A : Type} side n (o : @outcome W A) sys sys' :
  (forall t z, asleep sys !! t = Some z -> sleeper_ok side z) ->
  (forall r s', o = Returned r s' -> kinv side n s') ->
  finished o sys = Some sys' ->
  sys_inv side n sys'.
Proof.
  intros Hsleep Ho. destruct o as [ret s | s |]; simpl; [| done | done].
  intros [= <-]. split; [by eapply Ho | done].
Qed.

Lemma sys_step_inv side n e sys sys' :
  sys_inv side n sys ->
  (side -> event_typed e /\ fits_single_bounded) ->
  n + 1 < 2 ^ 32 ->
  sys_step HZ e sys = Some sys' ->
  sys_inv side (n + 1) sys'.
Proof.
  intros [Hinv Hsleep] Hside Hn.
  assert (kinv side (n + 1) (kernel sys)) as Hinv1 by (eapply kinv_mono; [| done]; lia).
  destruct e as [t cnt kz | t d_items d_vals | t | t | t wait | t | t signal | f];
    unfold sys_step.
  - (* hold *)
    destruct (asleep sys !! t) eqn:Hawake; [done |].
    pose proof (hold_trans_inv side n t cnt kz (kernel sys) Hinv) as Hhold.
    intros Hsettle. eapply settle_inv; [done | | | exact Hsettle].
    + destruct (scoutfs_hold_trans t cnt kz [] (kernel sys)); simpl; [| | done].
      * apply Hhold; [| done]. intros Hs. by destruct (Hside Hs).
      * apply Hhold; [| done]. intros Hs. by destruct (Hside Hs).
    + intros s' Hblocked. rewrite Hblocked in Hhold.
      destruct Hhold as (_ & Hi & Hv); [| done |].
      * intros Hs. by destruct (Hside Hs).
      * simpl. split_and!; try done. intros Hs. by destruct (Hside Hs).
  - (* track *)
    destruct (asleep sys !! t) eqn:Hawake; [done |].
    intros Hfin. eapply finished_inv; [done | | exact Hfin].
    intros [] s' Htrack. by eapply kinv_track.
  - (* release *)
    destruct (asleep sys !! t) eqn:Hawake; [done |].
    intros Hfin. eapply finished_inv; [done | | exact Hfin].
    intros [] s' Hrel. eapply kinv_release; [done | lia | done].
  - (* the work function *)
    destruct (asleep sys !! t) eqn:Hawake; [done |].
    intros Hsettle. eapply settle_inv; [done | | | exact Hsettle].
    + by apply write_func_inv.
    + done.
  - (* sync *)
    destruct (asleep sys !! t) eqn:Hawake; [done |].
    intros Hsettle. eapply settle_inv; [done | | | exact Hsettle].
    + by apply trans_sync_inv.
    + done.
  - (* fsync *)
    destruct (asleep sys !! t) eqn:Hawake; [done |].
    intros Hsettle. eapply settle_inv; [done | | | exact Hsettle].
    + by apply file_fsync_inv.
    + done.
  - (* a sleeper looks again *)
    destruct (asleep sys !! t) as [[cnt | | attempt] |] eqn:Hasleep; [| | | done].
    + destruct (Hsleep t _ Hasleep) as (Hi & Hv & Hint).
      intros Hsettle. eapply settle_inv; [done | | | exact Hsettle].
      * apply hold_epilogue_inv.
        eapply (wait_once_inv (hold_condition t cnt) (kinv side n) (kinv side (n + 1)));
          [| done].
        apply hold_condition_inv; try done.
        intros Hs. split; [by apply Hint | by apply Hside].
      * intros _ _. by eapply (Hsleep t).
    + intros Hsettle. eapply settle_inv; [done | | | exact Hsettle].
      * apply write_func_epilogue_inv; [apply kinv_write_after_drain |].
        by apply drained_wait_inv.
      * done.
    + intros Hsettle. eapply settle_inv; [done | | | exact Hsettle].
      * apply sync_epilogue_inv. by apply sync_wait_inv.
      * done.
  - (* the rest of the file system moves *)
    intros [= <-]. split; [| done]. simpl.
    eapply kinv_quiet; [| done]. by split_and!.
Qed.

Lemma boot_inv side (w : W) : sys_inv side 0 (boot w).
Proof.
  split.
  - split; [done |]. split; [| split].
    + intros t rsv. simpl. by rewrite lookup_empty.
    + split; intros _ t rsv; simpl; by rewrite lookup_empty.
    + intros _. unfold sums_in_range, manager_sums. simpl. rewrite !sum_over_empty.
      by split_and!.
  - intros t z. simpl. by rewrite lookup_empty.
Qed.

Lemma run_inv side evs : forall n sys sys',
  sys_inv side n sys ->
  (side -> Forall event_typed evs /\ fits_single_bounded) ->
  n + Z.of_nat (length evs) < 2 ^ 32 ->
  run HZ evs sys = Some sys' ->
  sys_inv side (n + Z.of_nat (length evs)) sys'.
Proof.
  induction evs as [| e evs IH]; intros n sys sys' Hinv Hside Hn; simpl.
  - intros [= <-]. by rewrite Z.add_0_r.
  - destruct (sys_step HZ e sys) as [sys1 |] eqn:Hstep; [| done].
    intros Hrun. simpl length in Hn.
    replace (n + Z.of_nat (S (length evs))) with (n + 1 + Z.of_nat (length evs)) by lia.
    eapply (IH (n + 1) sys1); [| | lia | done].
    + eapply sys_step_inv; [done | | lia | done].
      intros Hs. destruct (Hside Hs) as [Htyped ?]. split; [| done].
      by apply Forall_cons in Htyped as [? _].
    + intros Hs. destruct (Hside Hs) as [Htyped ?]. split; [| done].
      by apply Forall_cons in Htyped as [_ ?].
Qed.

(** C2.  Let the item cache be bounded and the arguments of the calls
    be C ints.  After every event of a run of fewer than 2^32 events
    from the state [scoutfs_setup_trans] leaves (calls of hold, track,
    release, sync, fsync and of the work function by any tasks, sleepers
    looking again, the rest of the file system moving), the manager's
    [reserved_items] and [reserved_vals] are the sums of the reserved
    items and values of the reservations that exist, and its [holders]
    is the sum of their [holders]. *)
Theorem reserved_and_holders_are_sums (w : W) evs :
  fits_single_bounded ->
  Forall event_typed evs ->
  Z.of_nat (length evs) < 2 ^ 32 ->
  forall (k : nat) sys,
    run HZ (take k evs) (boot w) = Some sys ->
    tri_reserved_items (tri (kernel sys)) =
      sum_over reserved_items (journal_info (kernel sys)) /\
    tri_reserved_vals (tri (kernel sys)) =
      sum_over reserved_vals (journal_info (kernel sys)) /\
    tri_holders (tri (kernel sys)) = sum_over rsv_holders (journal_info (kernel sys)).
Proof.
  intros Hbounded Htyped Hlen k sys Hrun.
  assert (Z.of_nat (length (take k evs)) <= Z.of_nat (length evs)) as Hk
    by (rewrite length_take; lia).
  pose proof (run_inv True (take k evs) 0 (boot w) sys (boot_inv True w)) as Hinv.
  destruct Hinv as [(_ & _ & _ & Hsums) _]; [| lia | done |].
  - intros _. split; [| done]. by apply Forall_take.
  - by destruct (Hsums I) as (? & _).
Qed.

(** C9, as the code has it.  A track call of a task with a reservation
    (not the task that runs the commit) stores the sums of [actual] and
    its arguments, wrapped as C ints, whatever they are, and returns; it
    changes nothing else but the log of warnings, where the site of
    line 423 is found afterwards if the new [actual.items] is above
    [reserved.items], and the site of line 424 if the new [actual.vals]
    is above [reserved.vals]; no site is logged a second time.  Hence, after a run of fewer than 2^32
    events from the state [scoutfs_setup_trans] leaves, every
    reservation has [actual.items <= reserved.items] unless the site of
    line 423 has warned, and [actual.vals <= reserved.vals] unless the
    site of line 424 has warned. *)
Theorem track_warns_but_stores :
  (forall current d_items d_vals s rsv,
     trans_task (sbi s) <> Some current ->
     journal_info s !! current = Some rsv ->
     rsv_magic rsv = SCOUTFS_RESERVATION_MAGIC ->
     let actual := mk_count (wrap_int (items (rsv_actual rsv) + d_items))
                            (wrap_int (vals (rsv_actual rsv) + d_vals)) in
     exists s',
       scoutfs_trans_track_item current d_items d_vals s = Returned tt s' /\
       journal_info s' = <[current := set_rsv_actual actual rsv]> (journal_info s) /\
       tri s' = tri s /\ sbi s' = sbi s /\ ctrs s' = ctrs s /\
       world s' = world s /\ calls s' = calls s /\
       (NoDup (klog s) -> NoDup (klog s')) /\
       (items (rsv_reserved rsv) < items actual -> warn_track_items ∈ klog s') /\
       (vals (rsv_reserved rsv) < vals actual -> warn_track_vals ∈ klog s')) /\
  (forall (w : W) evs sys,
     Z.of_nat (length evs) < 2 ^ 32 ->
     run HZ evs (boot w) = Some sys ->
     (warn_track_items ∉ klog (kernel sys) -> tracked_items_within (kernel sys)) /\
     (warn_track_vals ∉ klog (kernel sys) -> tracked_vals_within (kernel sys))).
Proof.
  split.
  - intros current d_items d_vals s rsv Htask Hrsv Hmagic actual.
    destruct (track_item_stores current d_items d_vals s rsv Htask Hrsv Hmagic)
      as (s' & ? & ? & ? & ? & ? & ? & ? & _ & ? & ? & ?).
    exists s'. by split_and!.
  - intros w evs sys Hlen Hrun.
    pose proof (run_inv False evs 0 (boot w) sys (boot_inv False w)) as Hinv.
    destruct Hinv as [(_ & _ & Hwarn & _) _]; [done | lia | done | done].
Qed.

(** ** The count of write attempts *)

Lemma acquired_hold_write_count c t cnt s acquired s' :
  write_count_is c s -> acquired_hold t cnt s = Some (acquired, s') -> write_count_is c s'.
Proof.
  intros Hc. unfold acquired_hold.
  destruct (journal_info s !! t) as [rsv |]; [| done].
  destruct (negb (rsv_holders rsv =? 0)); [by intros [= _ <-] |].
  destruct (tri_writing (tri s)); [by intros [= _ <-] |].
  destruct (negb (scoutfs_item_dirty_fits_single _ _ _)); by intros [= _ <-].
Qed.

Lemma hold_trans_write_count c t cnt kz s :
  write_count_is c s ->
  outcome_inv (write_count_is c) (scoutfs_hold_trans t cnt kz [] s) /\
  forall signal,
    outcome_inv (write_count_is c)
      (hold_epilogue t (___wait_event (hold_condition t cnt) true (one_round signal) tt s)).
Proof.
  intros Hc.
  assert (forall (l : unit) s b (l' : unit) s',
             write_count_is c s -> hold_condition t cnt l s = Some (b, l', s') ->
             write_count_is c s') as Hcond.
  { intros l s0 b l' s' Hc0. unfold hold_condition.
    destruct (acquired_hold t cnt s0) as [[acquired s1] |] eqn:Hacq; [| done].
    intros [= _ _ <-]. by eapply acquired_hold_write_count. }
  assert (forall o : @outcome W (Z * unit),
             outcome_inv (write_count_is c) o ->
             outcome_inv (write_count_is c) (hold_epilogue t o)) as Hepi.
  { intros [[ret []] s0 | s0 |]; simpl; [| done | done].
    intros Hc0. destruct (journal_info s0 !! t) as [rsv |]; [| done].
    by destruct (negb (ret =? 0) && (rsv_holders rsv =? 0)). }
  split.
  - unfold scoutfs_hold_trans, hold_prologue.
    pose proof (WARN_ON_ONCE_snd warn_hold_garbage_count
                  ((items cnt <=? 0) || (vals cnt <? 0)) s) as (Hs1 & _).
    destruct (WARN_ON_ONCE warn_hold_garbage_count _ s) as [garbage s1]. simpl in Hs1.
    assert (write_count_is c s1) as Hc1 by (unfold write_count_is; by rewrite Hs1).
    destruct garbage; [done |].
    pose proof (WARN_ON_ONCE_snd warn_hold_not_single
                  (negb (scoutfs_seg_fits_single (items cnt) (vals cnt))) s1) as (Hs2 & _).
    destruct (WARN_ON_ONCE warn_hold_not_single _ s1) as [too_big s2]. simpl in Hs2.
    assert (write_count_is c s2) as Hc2 by (unfold write_count_is; by rewrite Hs2).
    destruct too_big; [done |].
    destruct (bool_decide (trans_task (sbi s2) = Some t)); [done |].
    destruct (journal_info s2 !! t) as [rsv |].
    + destruct (rsv_magic rsv =? SCOUTFS_RESERVATION_MAGIC); [| done].
      apply Hepi. by eapply wait_once_inv.
    + destruct kz; [| done]. apply Hepi. by eapply wait_once_inv.
  - intros signal. apply Hepi. by eapply wait_once_inv.
Qed.

Lemma track_item_write_count c t d_items d_vals s :
  write_count_is c s ->
  outcome_inv (write_count_is c) (scoutfs_trans_track_item t d_items d_vals s).
Proof.
  intros Hc. unfold scoutfs_trans_track_item.
  destruct (bool_decide (trans_task (sbi s) = Some t)); [done |].
  destruct (journal_info s !! t) as [rsv |]; [| done].
  destruct (negb (rsv_magic rsv =? SCOUTFS_RESERVATION_MAGIC)); [done |].
  match goal with
  | |- context [WARN_ON_ONCE warn_track_items ?c1 ?s1] =>
      pose proof (WARN_ON_ONCE_snd warn_track_items c1 s1) as (Hs2 & _);
      destruct (WARN_ON_ONCE warn_track_items c1 s1) as [b2 s2]
  end.
  match goal with
  | |- context [WARN_ON_ONCE warn_track_vals ?c2 s2] =>
      pose proof (WARN_ON_ONCE_snd warn_track_vals c2 s2) as (Hs3 & _);
      destruct (WARN_ON_ONCE warn_track_vals c2 s2) as [b3 s3]
  end.
  simpl in *. unfold write_count_is. by rewrite Hs3, Hs2.
Qed.

Lemma release_write_count c t s :
  write_count_is c s -> outcome_inv (write_count_is c) (scoutfs_release_trans t s).
Proof.
  intros Hc. unfold scoutfs_release_trans.
  destruct (bool_decide (trans_task (sbi s) = Some t)); [done |].
  destruct (journal_info s !! t) as [rsv |]; [| done].
  destruct (negb (rsv_magic rsv =? SCOUTFS_RESERVATION_MAGIC)); [done |].
  destruct (rsv_holders rsv <=? 0); [done |].
  destruct (tri_holders (tri s) <=? 0); [done |].
  by destruct (wrap32 (rsv_holders rsv - 1) =? 0).
Qed.

Lemma write_after_drain_write_count s :
  trans_write_count (sbi (write_after_drain HZ s)) = wrap64 (trans_write_count (sbi s) + 1).
Proof.
  unfold write_after_drain.
  pose proof (write_func_body_manager s) as (_ & _ & _ & _ & _ & Hbody & _).
  destruct (write_func_body s) as [ret s2]. simpl in Hbody.
  destruct (write_func_finish_fields ret s2) as (-> & _). by rewrite Hbody.
Qed.

Lemma sys_step_write_count lo hi e sys sys' :
  0 <= lo -> hi + 1 < 2 ^ 64 ->
  write_count_within lo hi (kernel sys) ->
  sys_step HZ e sys = Some sys' ->
  write_count_within lo (hi + 1) (kernel sys').
Proof.
  intros Hlo Hhi Hin.
  set (c := trans_write_count (sbi (kernel sys))).
  assert (write_count_is c (kernel sys)) as Hc by done.
  assert (forall s, write_count_is c s -> write_count_within lo (hi + 1) s) as Hsame.
  { unfold write_count_is, write_count_within in *. intros s ->. fold c in Hin. lia. }
  assert (forall s, write_count_is c s ->
                    write_count_within lo (hi + 1) (write_after_drain HZ s)) as Hwrite.
  { unfold write_count_is, write_count_within in *. intros s Hs.
    rewrite write_after_drain_write_count, Hs. fold c in Hin.
    rewrite wrap64_small by lia. lia. }
  assert (forall (A : Type) t z (o : @outcome W A),
             outcome_inv (write_count_within lo (hi + 1)) o ->
             settle t z o sys = Some sys' ->
             write_count_within lo (hi + 1) (kernel sys')) as Hsettle.
  { intros A t z [ret s | s |]; simpl; [| | done]; by intros ? [= <-]. }
  assert (forall (A : Type) (o : @outcome W A),
             outcome_inv (write_count_within lo (hi + 1)) o ->
             finished o sys = Some sys' ->
             write_count_within lo (hi + 1) (kernel sys')) as Hfinished.
  { intros A [ret s | s |]; simpl; [| done | done]; by intros ? [= <-]. }
  assert (forall l s b l' s', write_count_is c s ->
             drained_condition l s = Some (b, l', s') -> write_count_is c s') as Hdrained.
  { unfold drained_condition. simpl. by intros l s b l' s' ? [= _ _ <-]. }
  assert (forall l s b l' s', write_count_is c s ->
             write_attempted l s = Some (b, l', s') -> write_count_is c s') as Hattempted.
  { unfold write_attempted. intros l s b l' s' ?. by destruct (_ <? _); intros [= _ _ <-]. }
  destruct e as [t cnt kz | t d_items d_vals | t | t | t wait | t | t signal | f];
    unfold sys_step.
  - destruct (asleep sys !! t); [done |]. apply Hsettle.
    eapply outcome_inv_impl; [exact Hsame |]. by apply hold_trans_write_count.
  - destruct (asleep sys !! t); [done |]. apply Hfinished.
    eapply outcome_inv_impl; [exact Hsame |]. by apply track_item_write_count.
  - destruct (asleep sys !! t); [done |]. apply Hfinished.
    eapply outcome_inv_impl; [exact Hsame |]. by apply release_write_count.
  - destruct (asleep sys !! t); [done |]. apply Hsettle.
    unfold scoutfs_trans_write_func.
    destruct (wait_once_inv drained_condition (write_count_is c) (write_count_is c) tt
                (set_sbi (set_trans_task (Some t)) (kernel sys)) Hdrained Hc) as (_ & Ho & _).
    destruct (wait_event drained_condition _ _ _); simpl in *; auto.
  - destruct (asleep sys !! t); [done |]. apply Hsettle.
    unfold scoutfs_trans_sync. destruct (wait =? 0); [by apply Hsame |].
    destruct (wait_once_inv write_attempted (write_count_is c) (write_count_is c)
                (mk_attempt (trans_write_count (sbi (kernel sys))) 0)
                (queue_trans_work (kernel sys)) Hattempted Hc) as (Ho & _).
    destruct (wait_event_interruptible write_attempted _ _ _) as [[? ?] ? | ? |];
      simpl in *; auto.
  - destruct (asleep sys !! t); [done |]. apply Hsettle.
    unfold scoutfs_file_fsync, scoutfs_trans_sync. simpl.
    destruct (wait_once_inv write_attempted (write_count_is c) (write_count_is c)
                (mk_attempt (trans_write_count (sbi (kernel sys))) 0)
                (queue_trans_work (scoutfs_inc_counter trans_commit_fsync (kernel sys)))
                Hattempted Hc) as (Ho & _).
    destruct (wait_event_interruptible write_attempted _ _ _) as [[? ?] ? | ? |];
      simpl in *; auto.
  - destruct (asleep sys !! t) as [[cnt | | attempt] |]; [| | | done]; apply Hsettle.
    + eapply outcome_inv_impl; [exact Hsame |]. by apply hold_trans_write_count.
    + destruct (wait_once_inv drained_condition (write_count_is c) (write_count_is c) tt
                  (kernel sys) Hdrained Hc) as (_ & _ & Ho).
      specialize (Ho false signal).
      destruct (___wait_event drained_condition _ _ _ _); simpl in *; auto.
    + destruct (wait_once_inv write_attempted (write_count_is c) (write_count_is c) attempt
                  (kernel sys) Hattempted Hc) as (_ & _ & Ho).
      specialize (Ho true signal).
      destruct (___wait_event write_attempted _ _ _ _) as [[? ?] ? | ? |]; simpl in *; auto.
  - intros [= <-]. by apply Hsame.
Qed.

Lemma run_write_count evs : forall lo hi sys sys',
  0 <= lo -> hi + Z.of_nat (length evs) < 2 ^ 64 ->
  write_count_within lo hi (kernel sys) ->
  run HZ evs sys = Some sys' ->
  write_count_within lo (hi + Z.of_nat (length evs)) (kernel sys').
Proof.
  induction evs as [| e evs IH]; intros lo hi sys sys' Hlo Hhi Hin; simpl.
  - intros [= <-]. by rewrite Z.add_0_r.
  - destruct (sys_step HZ e sys) as [sys1 |] eqn:Hstep; [| done].
    intros Hrun. simpl length in Hhi.
    replace (hi + Z.of_nat (S (length evs))) with (hi + 1 + Z.of_nat (length evs)) by lia.
    eapply (IH lo (hi + 1) sys1); [done | lia | | done].
    eapply sys_step_write_count; [done | lia | done | done].
Qed.

(** What the spec says of the item cache carries over to the pipeline:
    a pipeline that fails leaves the dirty state. *)
Lemma pipeline_in_words_keeps_dirty seq w0 :
  dirty_state_kept ->
  scoutfs_item_has_dirty w0 = true ->
  pr_ret (pipeline_in_words seq w0) <> 0 ->
  scoutfs_item_has_dirty (pr_world (pipeline_in_words seq w0)) = true.
Proof.
  intros (H1 & H2 & H3 & H4 & H5 & H6 & H7 & H8 & _) Hd0. unfold pipeline_in_words.
  pose proof (H1 true w0 Hd0) as Hd1.
  destruct (scoutfs_inode_walk_writeback true w0) as [r1 w1]. simpl in Hd1.
  destruct (r1 =? 0); simpl; [| done].
  pose proof (H2 w1 Hd1) as Hd2.
  destruct (scoutfs_client_alloc_segno w1) as [[r2 segno] w2]. simpl in Hd2.
  destruct (r2 =? 0); simpl; [| done].
  pose proof (H3 segno w2 Hd2) as Hd3.
  destruct (scoutfs_seg_alloc segno w2) as [[r3 seg] w3]. simpl in Hd3.
  destruct (r3 =? 0); simpl; [| done].
  pose proof (H4 seg w3 Hd3) as Hd4.
  destruct (scoutfs_item_dirty_seg seg w3) as [r4 w4]. simpl in Hd4.
  destruct (r4 =? 0); simpl; [| done].
  pose proof (H5 seg scoutfs_bio_init_comp w4 Hd4) as Hd5.
  destruct (scoutfs_seg_submit_write seg scoutfs_bio_init_comp w4) as [[r5 comp5] w5].
  simpl in Hd5.
  destruct (r5 =? 0); simpl; [| done].
  pose proof (H1 false w5 Hd5) as Hd6.
  destruct (scoutfs_inode_walk_writeback false w5) as [r6 w6]. simpl in Hd6.
  destruct (r6 =? 0); simpl; [| done].
  pose proof (H6 comp5 w6 Hd6) as Hd7.
  destruct (scoutfs_bio_wait_comp comp5 w6) as [[r7 comp7] w7]. simpl in Hd7.
  destruct (r7 =? 0); simpl; [| done].
  pose proof (H7 seg 0 w7 Hd7) as Hd8.
  destruct (scoutfs_client_record_segment seg 0 w7) as [r8 w8]. simpl in Hd8.
  destruct (r8 =? 0); simpl; [| done].
  pose proof (H8 seq w8 Hd8) as Hd9.
  destruct (scoutfs_client_advance_seq seq w8) as [[r9 seq9] w9]. simpl in *.
  exact Hd9.
Qed.

(** C6.  A run of the work function whose wait for the holders ended in
    state [s1] returns; whatever its body did, and whether [ret] is 0 or
    the error of the pipeline call that failed (with dirty items [ret]
    is what the last call made of the pipeline as specified returned:
    the error of [scoutfs_seg_submit_write] when that is the first call
    to fail), [trans_write_count] has grown by one (modulo 2^64, so by
    exactly one and strictly below the last value of a [u64]) and
    [trans_write_ret] is [ret].  A [scoutfs_trans_sync] with [wait]
    whose snapshot was taken at or before [s1] and whose next look at
    the count finds the state this run left returns [ret], signal or
    not.  After the body nothing more touches the rest of the file
    system; when the pipeline failed, the only call after the failing
    one is [scoutfs_seg_put].  The run leaves [writing] clear, no commit
    task, and the work queued again for the sync delay.  With an item
    cache as the specification describes it ([dirty_state_kept]), a run
    that found dirty items and failed leaves dirty items, and the next
    run of the body from what it left makes the calls of the pipeline
    again, from the first.  No other event changes [trans_write_count]:
    along a run it never decreases, and grows by at most one an event
    (as long as a [u64] holds it). *)
Theorem write_attempt_is_counted current rounds s s1 :
  wait_event drained_condition rounds tt (set_sbi (set_trans_task (Some current)) s)
    = Returned (0, tt) s1 ->
  (exists (ret : Z) s',
    scoutfs_trans_write_func HZ current rounds s = Returned tt s' /\
    ret = fst (write_func_body s1) /\
    (scoutfs_item_has_dirty (world s1) = true ->
     let r := pipeline_in_words (trans_seq (sbi s1)) (world s1) in
     ret = pr_ret r /\
     world s' = scoutfs_seg_put (pr_seg r) (pr_world r) /\
     calls s' = calls s1 ++ take (pr_calls r) write_pipeline_calls
                  ++ c_seg_put :: (if pr_ret r =? 0 then [c_seg_total_bytes] else [])) /\
    (scoutfs_item_has_dirty (world s1) = false ->
     if trans_deadline_expired (sbi s1)
     then (ret, trans_seq (sbi s'), world s') =
            scoutfs_client_advance_seq (trans_seq (sbi s1)) (world s1)
     else ret = 0 /\ world s' = world s1 /\ calls s' = calls s1) /\
    trans_write_count (sbi s') = wrap64 (trans_write_count (sbi s1) + 1) /\
    trans_write_ret (sbi s') = ret /\
    (0 <= trans_write_count (sbi s1) < 2 ^ 64 - 1 ->
     trans_write_count (sbi s') = trans_write_count (sbi s1) + 1 /\
     forall wait f signal post s0,
       wait <> 0 ->
       trans_write_count (sbi s0) <= trans_write_count (sbi s1) ->
       f (kicked s0) = s' ->
       scoutfs_trans_sync wait (mk_round f signal :: post) s0 = Returned ret s') /\
    world s' = world (snd (write_func_body s1)) /\
    (scoutfs_item_has_dirty (world s1) = true -> ret <> 0 ->
     exists k : nat,
       (1 <= k <= 9)%nat /\
       calls s' = calls s1 ++ take k write_pipeline_calls ++ [c_seg_put]) /\
    tri_writing (tri s') = false /\
    trans_task (sbi s') = None /\
    trans_write_work (sbi s') = Some (TRANS_SYNC_DELAY HZ) /\
    (dirty_state_kept ->
     scoutfs_item_has_dirty (world s1) = true -> ret <> 0 ->
     scoutfs_item_has_dirty (world s') = true /\
     forall s2,
       world s2 = world s' ->
       let r2 := pipeline_in_words (trans_seq (sbi s2)) (world s2) in
       (1 <= pr_calls r2)%nat /\
       trans_write_ret (sbi (write_after_drain HZ s2)) = pr_ret r2 /\
       calls (write_after_drain HZ s2) =
         calls s2 ++ take (pr_calls r2) write_pipeline_calls
           ++ c_seg_put :: (if pr_ret r2 =? 0 then [c_seg_total_bytes] else []))) /\
  (forall evs sys sys',
     run HZ evs sys = Some sys' ->
     0 <= trans_write_count (sbi (kernel sys)) ->
     trans_write_count (sbi (kernel sys)) + Z.of_nat (length evs) < 2 ^ 64 ->
     trans_write_count (sbi (kernel sys)) <= trans_write_count (sbi (kernel sys')) /\
     trans_write_count (sbi (kernel sys'))
       <= trans_write_count (sbi (kernel sys)) + Z.of_nat (length evs)).
Proof.
  intros Hdrain. split; cycle 1.
  { intros evs sys sys' Hrun Hlo Hhi.
    by apply (run_write_count evs (trans_write_count (sbi (kernel sys)))
                (trans_write_count (sbi (kernel sys))) sys sys'). }
  exists (fst (write_func_body s1)), (write_after_drain HZ s1).
  pose proof (write_after_drain_write_count s1) as Hcount.
  assert (world (write_after_drain HZ s1) = world (snd (write_func_body s1)) /\
          tri_writing (tri (write_after_drain HZ s1)) = false /\
          trans_task (sbi (write_after_drain HZ s1)) = None /\
          trans_write_work (sbi (write_after_drain HZ s1)) = Some (TRANS_SYNC_DELAY HZ))
    as (Hworld & Hwriting & Htask & Hwork).
  { unfold write_after_drain.
    destruct (write_func_body s1) as [ret s2]. simpl in *.
    by destruct (write_func_finish_fields ret s2)
      as (_ & _ & -> & _ & -> & _ & -> & _ & _ & -> & _). }
  split; [by apply write_func_after_drain |]. split; [done |].
  split.
  { intros Hdirty r.
    destruct (write_after_drain_in_words s1 Hdirty) as (Hfst & _ & _ & _ & Hcalls & Hw & _).
    by split_and!. }
  split.
  { intros Hclean. unfold write_after_drain, write_func_body. rewrite Hclean.
    destruct (trans_deadline_expired (sbi s1)).
    - unfold client_advance_seq. simpl.
      destruct (scoutfs_client_advance_seq _ _) as [[ret seq] w]. simpl.
      match goal with
      | |- context [write_func_finish HZ ret ?x] =>
          by destruct (write_func_finish_fields ret x)
            as (_ & _ & _ & _ & _ & -> & _ & _ & _ & -> & _)
      end.
    - by simpl. }
  split; [exact Hcount |]. split; [apply write_after_drain_ret |].
  split.
  { intros Hrange. split; [rewrite Hcount; apply wrap64_small; lia |].
    intros wait f signal post s0 Hwait Hsnap Hf.
    unfold scoutfs_trans_sync.
    replace (wait =? 0) with false by (symmetry; by apply Z.eqb_neq).
    unfold wait_event_interruptible.
    rewrite queue_trans_work_kicked.
    rewrite write_attempted_not_yet by (simpl; lia).
    simpl. rewrite Hf.
    rewrite write_attempted_done.
    + simpl. by rewrite write_after_drain_ret.
    + simpl. rewrite Hcount, wrap64_small; lia. }
  split; [exact Hworld |].
  split.
  { intros Hdirty Hret.
    destruct (write_after_drain_dirty s1 Hdirty)
      as (k & ret & Hk & _ & _ & Hfst & Hcalls & _).
    exists k. split; [done |]. rewrite Hcalls.
    rewrite Hfst in Hret.
    by replace (ret =? 0) with false by (symmetry; by apply Z.eqb_neq). }
  split; [exact Hwriting |]. split; [exact Htask |]. split; [exact Hwork |].
  intros Hkept Hdirty Hret.
  destruct (write_after_drain_in_words s1 Hdirty) as (Hfst & _ & _ & _ & _ & Hw & _).
  assert (scoutfs_item_has_dirty (world (write_after_drain HZ s1)) = true) as Hleft.
  { rewrite Hw. pose proof Hkept as (_ & _ & _ & _ & _ & _ & _ & _ & Hput).
    apply Hput. apply pipeline_in_words_keeps_dirty; [done | done |].
    by rewrite <- Hfst. }
  split; [exact Hleft |].
  intros s2 Hw2 r2.
  assert (scoutfs_item_has_dirty (world s2) = true) as Hd2 by (by rewrite Hw2).
  destruct (write_after_drain_in_words s2 Hd2) as (_ & Hret2 & Hk2 & _ & Hcalls2 & _).
  split; [destruct Hk2; done |]. by split.
Qed.

End trans_proofs.

(** * The code on the small file system

    Each theorem above that has a hypothesis is applied here to a
    concrete run, and each property that the code does not have as the
    specification words it is refuted by one. *)

Example submit_failure_run :
  exists s',
    scoutfs_trans_write_func 250 9 [] (toy_mounted toy_submit_fails) = Returned tt s' /\
    calls s' = [c_inode_walk_writeback true; c_client_alloc_segno; c_seg_alloc;
                c_item_dirty_seg; c_seg_submit_write; c_seg_put] /\
    trans_write_ret (sbi s') = -5 /\
    trans_write_count (sbi s') = 1 /\
    read_counter trans_commit_timer (ctrs s') = 1 /\
    read_counter trans_level0_seg_writes (ctrs s') = 0.
Proof. eexists. split; [reflexivity |]. by vm_compute. Qed.

Example full_run :
  exists s',
    scoutfs_trans_write_func 250 9 [] (initial_state (toy_dirty_with [])) = Returned tt s' /\
    calls s' = write_pipeline_calls ++ [c_seg_put; c_seg_total_bytes] /\
    trans_write_ret (sbi s') = 0 /\
    trans_seq (sbi s') = 1 /\
    read_counter trans_commit_timer (ctrs s') = 0 /\
    read_counter trans_level0_seg_writes (ctrs s') = 1 /\
    read_counter trans_level0_seg_write_bytes (ctrs s') = 4096.
Proof. eexists. split; [reflexivity |]. by vm_compute. Qed.

Lemma write_pipeline_in_order_witness :
  let s := toy_mounted toy_submit_fails in
  let r := pipeline_in_words (trans_seq (sbi (drained_at s))) (world (drained_at s)) in
  wait_event drained_condition [] tt (set_sbi (set_trans_task (Some 9%nat)) s)
    = Returned (0, tt) (drained_at s) /\
  scoutfs_item_has_dirty (world (drained_at s)) = true /\
  pr_calls r = 5%nat /\ pr_ret r = -5 /\
  exists s',
    scoutfs_trans_write_func 250 9 [] s = Returned tt s' /\
    calls s' =
      [ c_inode_walk_writeback true; c_client_alloc_segno; c_seg_alloc; c_item_dirty_seg;
        c_seg_submit_write; c_seg_put ] /\
    world s' = scoutfs_seg_put (pr_seg r) (pr_world r) /\
    trans_seq (sbi s') = trans_seq (sbi s) /\
    trans_write_ret (sbi s') = -5.
Proof.
  intros s r.
  assert (wait_event drained_condition [] tt (set_sbi (set_trans_task (Some 9%nat)) s)
          = Returned (0, tt) (drained_at s)) as Hdrain by reflexivity.
  assert (scoutfs_item_has_dirty (world (drained_at s)) = true) as Hdirty by reflexivity.
  split; [exact Hdrain |]. split; [exact Hdirty |].
  split; [reflexivity |]. split; [reflexivity |].
  destruct (write_pipeline_in_order 250 9%nat [] s (drained_at s) Hdrain Hdirty)
    as (s' & Hrun & _ & _ & Hcalls & Hworld & Hseq & Hret).
  exists s'. split; [exact Hrun |].
  split; [rewrite Hcalls; reflexivity |]. split; [exact Hworld |].
  split; [rewrite Hseq; reflexivity | rewrite Hret; reflexivity].
Defined.

(** C4 as it is worded fails: mounted with nothing dirty, the work
    function run at the deadline calls [scoutfs_client_advance_seq] once
    and leaves [trans_commit_timer] at 0. *)
Lemma idle_deadline_timer_not_counted :
  let s := toy_mounted toy_clean in
  trans_deadline_expired (sbi s) = true /\
  scoutfs_item_has_dirty (world s) = false /\
  exists s',
    scoutfs_trans_write_func 250 9 [] s = Returned tt s' /\
    calls s' = [c_client_advance_seq] /\
    read_counter trans_commit_timer (ctrs s) = 0 /\
    read_counter trans_commit_timer (ctrs s') = 0 /\
    read_counter trans_commit_timer (ctrs s')
      <> read_counter trans_commit_timer (ctrs s) + 1.
Proof.
  intros s. split; [reflexivity |]. split; [reflexivity |].
  eexists. split; [reflexivity |]. by vm_compute.
Qed.

Lemma idle_deadline_advances_seq_witness :
  let s := toy_mounted toy_clean in
  wait_event drained_condition [] tt (set_sbi (set_trans_task (Some 9%nat)) s)
    = Returned (0, tt) (drained_at s) /\
  scoutfs_item_has_dirty (world (drained_at s)) = false /\
  trans_deadline_expired (sbi (drained_at s)) = true /\
  exists s',
    scoutfs_trans_write_func 250 9 [] s = Returned tt s' /\
    calls s' = calls (drained_at s) ++ [c_client_advance_seq] /\
    read_counter trans_commit_timer (ctrs s')
      = read_counter trans_commit_timer (ctrs (drained_at s)) /\
    ctrs s' = ctrs (drained_at s) /\
    (trans_write_ret (sbi s'), trans_seq (sbi s'), world s') =
      scoutfs_client_advance_seq (trans_seq (sbi (drained_at s))) (world (drained_at s)).
Proof.
  intros s. split; [reflexivity |]. split; [reflexivity |]. split; [reflexivity |].
  apply (idle_deadline_advances_seq 250 9%nat [] s (drained_at s)); reflexivity.
Defined.

(** C3 as it is worded fails: task 2's first hold does not fit, yet
    nothing is counted and no work is queued, because the work function
    has set [writing]; task 2 just sleeps. *)
Lemma first_hold_while_writing_not_counted :
  exists sys rsv,
    run 250 toy_hold_while_writing (boot toy_clean) = Some sys /\
    journal_info (kernel sys) !! 2%nat = Some rsv /\ rsv_holders rsv = 0 /\
    scoutfs_item_dirty_fits_single (world (kernel sys))
      (wrap32 (tri_reserved_items (tri (kernel sys)) + 60))
      (wrap32 (tri_reserved_vals (tri (kernel sys)) + 0)) = false /\
    asleep sys !! 2%nat = Some (in_hold (mk_count 60 0)) /\
    tri_writing (tri (kernel sys)) = true /\
    read_counter trans_commit_full (ctrs (kernel sys)) = 0 /\
    trans_write_work (sbi (kernel sys)) = None.
Proof.
  eexists. eexists. split; [vm_compute; reflexivity |].
  split; [vm_compute; reflexivity |]. by vm_compute.
Qed.

Lemma first_hold_admission_witness :
  let s := set_journal_info (insert 2%nat new_reservation) (initial_state toy_clean) in
  journal_info s !! 2%nat = Some new_reservation /\
  rsv_holders new_reservation = 0 /\
  tri_writing (tri s) = false /\
  scoutfs_item_dirty_fits_single (world s) (wrap32 (0 + 120)) (wrap32 (0 + 0)) = false /\
  exists s',
    acquired_hold 2 (mk_count 120 0) s = Some (false, s') /\
    read_counter trans_commit_full (ctrs s') = read_counter trans_commit_full (ctrs s) + 1 /\
    trans_write_work (sbi s') = Some 0 /\
    trans_deadline_expired (sbi s') = false /\
    tri s' = tri s /\ journal_info s' = journal_info s.
Proof.
  intros s.
  assert (journal_info s !! 2%nat = Some new_reservation) as Hrsv by (by vm_compute).
  split; [exact Hrsv |]. split; [reflexivity |]. split; [reflexivity |].
  split; [reflexivity |].
  apply (first_hold_admission 2%nat (mk_count 120 0) s new_reservation Hrsv eq_refl);
    reflexivity.
Defined.

Lemma sync_protocol_witness :
  let s := toy_mounted toy_submit_fails in
  let s' := interference toy_commit (interfered [toy_idle_round] (kicked s)) in
  1 <> 0 /\
  sleeps_through (trans_write_count (sbi s)) [toy_idle_round] (kicked s) /\
  trans_write_count (sbi s) < trans_write_count (sbi s') /\
  trans_deadline_expired (sbi s) = true /\
  trans_write_work (sbi s) = Some 2500 /\
  trans_deadline_expired (sbi (kicked s)) = false /\
  trans_write_work (sbi (kicked s)) = Some 0 /\
  scoutfs_trans_sync 0 [] s = Returned 0 (kicked s) /\
  scoutfs_trans_sync 1 [toy_idle_round] s = Blocked (kicked s) /\
  scoutfs_trans_sync 1 ([toy_idle_round] ++ [toy_commit]) s = Returned (-5) s'.
Proof.
  intros s s'.
  assert (1 <> 0) as Hwait by lia.
  assert (sleeps_through (trans_write_count (sbi s)) [toy_idle_round] (kicked s))
    as Hsleeps by (vm_compute; intuition discriminate).
  assert (trans_write_count (sbi s) < trans_write_count (sbi s')) as Hpassed
    by (by vm_compute).
  split; [exact Hwait |]. split; [exact Hsleeps |]. split; [exact Hpassed |].
  split; [reflexivity |]. split; [reflexivity |].
  destruct (sync_protocol 1 s) as [(Hflag & Hwork & _) [_ Hsync]].
  destruct (sync_protocol 0 s) as [_ [Hnowait _]].
  split; [exact Hflag |]. split; [exact Hwork |].
  split; [exact (Hnowait eq_refl []) |].
  destruct (Hsync Hwait [toy_idle_round] Hsleeps) as [Hblocked Hrounds].
  split; [exact Hblocked |].
  destruct (Hrounds toy_commit []) as [Hret _].
  exact (Hret Hpassed).
Defined.

Lemma commit_task_bypasses_witness :
  let s := set_sbi (set_trans_task (Some 9%nat)) (initial_state toy_clean) in
  trans_task (sbi s) = Some 9%nat /\
  count_valid (mk_count 10 1024) /\
  scoutfs_hold_trans 9 (mk_count 10 1024) true [] s = Returned 0 s /\
  scoutfs_trans_track_item 9 5 200 s = Returned tt s /\
  scoutfs_release_trans 9 s = Returned tt s.
Proof.
  intros s.
  assert (count_valid (mk_count 10 1024)) as Hvalid by (by vm_compute).
  split; [reflexivity |]. split; [exact Hvalid |].
  destruct (commit_task_bypasses 9%nat s eq_refl) as (Hhold & Htrack & Hrelease).
  split; [exact (Hhold (mk_count 10 1024) true [] Hvalid) |].
  split; [exact (Htrack 5 200) | exact Hrelease].
Defined.

Lemma hold_rejects_bad_count_witness :
  scoutfs_seg_fits_single (items (mk_count 2000 0)) (vals (mk_count 2000 0)) = false /\
  exists s',
    scoutfs_hold_trans 1 (mk_count 2000 0) true [] (initial_state toy_clean)
      = Returned (- EINVAL) s' /\
    same_but_klog (initial_state toy_clean) s'.
Proof.
  split; [reflexivity |].
  apply (hold_rejects_bad_count 1%nat (mk_count 2000 0) true [] (initial_state toy_clean)).
  right. right. reflexivity.
Defined.

Lemma toy_ret_dirty w : toy_dirty (snd (toy_ret w)) = toy_dirty w.
Proof. unfold toy_ret. by destruct (toy_rets w). Qed.

Lemma toy_keeping_keeps_dirty : dirty_state_kept (collab := toy_keeping).
Proof.
  assert (forall w, toy_dirty w = true ->
                    toy_dirty (snd (let '(r, w1) := toy_ret w in (r, tt, w1))) = true) as Hc.
  { intros w Hd. pose proof (toy_ret_dirty w) as Hr.
    destruct (toy_ret w) as [r w1]. simpl in *. by rewrite Hr. }
  unfold dirty_state_kept. split_and!.
  - intros sync w Hd. simpl. by rewrite toy_ret_dirty.
  - intros w Hd. simpl. unfold toy_alloc_segno.
    pose proof (toy_ret_dirty w) as Hr. destruct (toy_ret w) as [r w1]. simpl in *.
    by rewrite Hr.
  - intros segno w Hd. simpl. unfold toy_seg_alloc.
    pose proof (toy_ret_dirty w) as Hr. destruct (toy_ret w) as [r w1]. simpl in *.
    by rewrite Hr.
  - intros seg w Hd. simpl. by rewrite toy_ret_dirty.
  - intros seg [] w Hd. simpl in *. by apply Hc.
  - intros [] w Hd. simpl in *. by apply Hc.
  - intros seg level w Hd. simpl. by rewrite toy_ret_dirty.
  - intros seq w Hd. simpl. unfold toy_publish.
    pose proof (toy_ret_dirty w) as Hr. destruct (toy_ret w) as [r w1]. simpl in *.
    intros Hfail. replace (r =? 0) with false by (symmetry; by apply Z.eqb_neq).
    by rewrite Hr.
  - intros seg w Hd. simpl in *. done.
Qed.

Lemma write_attempt_is_counted_witness :
  let s := toy_mounted toy_submit_fails in
  wait_event drained_condition [] tt (set_sbi (set_trans_task (Some 9%nat)) s)
    = Returned (0, tt) (drained_at s) /\
  dirty_state_kept (collab := toy_keeping) /\
  scoutfs_item_has_dirty (Collaborators := toy_keeping) (world (drained_at s)) = true /\
  exists s',
    scoutfs_trans_write_func (collab := toy_keeping) 250 9 [] s = Returned tt s' /\
    pr_calls (pipeline_in_words (collab := toy_keeping)
                (trans_seq (sbi (drained_at s))) (world (drained_at s))) = 5%nat /\
    trans_write_count (sbi s') = trans_write_count (sbi s) + 1 /\
    trans_write_ret (sbi s') = -5 /\
    scoutfs_trans_sync 1 [mk_round (fun _ => s') true] s = Returned (-5) s' /\
    tri_writing (tri s') = false /\
    trans_task (sbi s') = None /\
    trans_write_work (sbi s') = Some (TRANS_SYNC_DELAY 250) /\
    scoutfs_item_has_dirty (Collaborators := toy_keeping) (world s') = true /\
    calls (write_after_drain (collab := toy_keeping) 250 (drained_at s')) =
      calls s' ++ write_pipeline_calls ++ [c_seg_put; c_seg_total_bytes].
Proof.
  intros s.
  assert (wait_event drained_condition [] tt (set_sbi (set_trans_task (Some 9%nat)) s)
          = Returned (0, tt) (drained_at s)) as Hdrain by reflexivity.
  assert (scoutfs_item_has_dirty (Collaborators := toy_keeping) (world (drained_at s)) = true)
    as Hdirty by reflexivity.
  split; [exact Hdrain |]. split; [exact toy_keeping_keeps_dirty |].
  split; [exact Hdirty |].
  destruct (write_attempt_is_counted (collab := toy_keeping) 250 9%nat [] s (drained_at s)
              Hdrain)
    as [(ret & s' & Hrun & _ & Hwords & _ & Hcount & Hwret & Hsync & _ & _
           & Hwriting & Htask & Hwork & Hkept) _].
  destruct (Hwords Hdirty) as (Hret & _ & _).
  destruct Hsync as [Hone Hsync]; [clear; by vm_compute |].
  specialize (Hsync 1 (fun _ => s') true [] s ltac:(clear; lia) ltac:(clear; by vm_compute)
                eq_refl).
  destruct (Hkept toy_keeping_keeps_dirty Hdirty) as [Hleft Hnext];
    [rewrite Hret; clear; by vm_compute |].
  destruct (Hnext (drained_at s') eq_refl) as (_ & _ & Hcalls).
  assert (ret = -5) as Hfive by (rewrite Hret; reflexivity).
  rewrite Hfive in Hwret, Hsync.
  exists s'.
  split; [exact Hrun |]. split; [reflexivity |].
  split; [exact Hone |]. split; [exact Hwret |]. split; [exact Hsync |].
  split; [exact Hwriting |]. split; [exact Htask |]. split; [exact Hwork |].
  split; [exact Hleft |].
  rewrite Hcalls. clear -Hrun.
  pose proof Hrun as Hs'. vm_compute in Hs'. injection Hs' as <-.
  vm_compute. reflexivity.
Defined.

(** C9 as it is worded fails: task 1 reserved one item and tracked two;
    its reservation exists with [actual.items = 2] above
    [reserved.items = 1].  The first track printed the warning of line
    423, the second, which leaves [actual.items = 4], printed nothing. *)
Lemma track_over_reserved_is_stored :
  exists sys1 sys2 rsv1 rsv2,
    run 250 (take 2 toy_overrun) (boot toy_clean) = Some sys1 /\
    journal_info (kernel sys1) !! 1%nat = Some rsv1 /\
    rsv_holders rsv1 = 1 /\
    items (rsv_actual rsv1) = 2 /\ items (rsv_reserved rsv1) = 1 /\
    ~ (items (rsv_actual rsv1) <= items (rsv_reserved rsv1)) /\
    klog (kernel sys1) = [warn_track_items] /\
    run 250 toy_overrun (boot toy_clean) = Some sys2 /\
    journal_info (kernel sys2) !! 1%nat = Some rsv2 /\
    items (rsv_actual rsv2) = 4 /\ items (rsv_reserved rsv2) = 1 /\
    klog (kernel sys2) = klog (kernel sys1).
Proof.
  eexists. eexists. eexists. eexists.
  split; [vm_compute; reflexivity |]. split; [vm_compute; reflexivity |].
  split; [reflexivity |]. split; [reflexivity |]. split; [reflexivity |].
  split; [by vm_compute |]. split; [by vm_compute |].
  split; [vm_compute; reflexivity |]. split; [vm_compute; reflexivity |].
  by vm_compute.
Qed.

Lemma track_warns_but_stores_witness :
  exists sys rsv,
    Z.of_nat (length (take 1 toy_overrun)) < 2 ^ 32 /\
    run 250 (take 1 toy_overrun) (boot toy_clean) = Some sys /\
    (warn_track_items ∉ klog (kernel sys)) /\
    journal_info (kernel sys) !! 1%nat = Some rsv /\
    items (rsv_actual rsv) <= items (rsv_reserved rsv) /\
    trans_task (sbi (kernel sys)) <> Some 1%nat /\
    rsv_magic rsv = SCOUTFS_RESERVATION_MAGIC /\
    exists s',
      scoutfs_trans_track_item 1 2 0 (kernel sys) = Returned tt s' /\
      journal_info s' =
        <[1%nat := set_rsv_actual (mk_count 2 0) rsv]> (journal_info (kernel sys)) /\
      warn_track_items ∈ klog s'.
Proof.
  eexists. eexists.
  assert (Z.of_nat (length (take 1 toy_overrun)) < 2 ^ 32) as Hlen by (by vm_compute).
  split; [exact Hlen |].
  split; [vm_compute; reflexivity |].
  match goal with
  | |- ?A /\ ?B /\ _ /\ ?C /\ ?D /\ _ =>
      assert A as Hquiet by (vm_compute; set_solver);
      assert B as Hrsv by (vm_compute; reflexivity);
      assert C as Htask by (by vm_compute);
      assert D as Hmagic by reflexivity
  end.
  split; [exact Hquiet |]. split; [exact Hrsv |].
  destruct (track_warns_but_stores (collab := toy) 250) as [Htrack Hrun].
  destruct (Hrun toy_clean (take 1 toy_overrun) _ Hlen eq_refl) as [Hitems _].
  split; [exact (Hitems Hquiet 1%nat _ Hrsv) |].
  split; [exact Htask |]. split; [exact Hmagic |].
  destruct (Htrack 1%nat 2 0 _ _ Htask Hrsv Hmagic)
    as (s' & Hret & Hj & _ & _ & _ & _ & _ & _ & Hwarn & _).
  exists s'. split; [exact Hret |]. split; [exact Hj |].
  apply Hwarn. by vm_compute.
Defined.

Lemma nested_hold_immediate_witness :
  exists s1 rsv s',
    scoutfs_hold_trans 1 (mk_count 10 1024) true [] (initial_state toy_clean)
      = Returned 0 s1 /\
    journal_info s1 !! 1%nat = Some rsv /\
    rsv_magic rsv = SCOUTFS_RESERVATION_MAGIC /\
    0 < rsv_holders rsv /\
    trans_task (sbi s1) <> Some 1%nat /\
    count_valid (mk_count 20 2048) /\
    scoutfs_hold_trans 1 (mk_count 20 2048) true [toy_idle_round] s1 = Returned 0 s' /\
    journal_info s' =
      <[1%nat := mk_rsv (rsv_magic rsv) (wrap32 (rsv_holders rsv + 1))
                        (rsv_reserved rsv) (rsv_actual rsv)]> (journal_info s1) /\
    tri s' = mk_tri (tri_reserved_items (tri s1)) (tri_reserved_vals (tri s1))
                    (wrap32 (tri_holders (tri s1) + 1)) (tri_writing (tri s1)) /\
    sbi s' = sbi s1 /\ ctrs s' = ctrs s1 /\ klog s' = klog s1 /\
    world s' = world s1 /\ calls s' = calls s1.
Proof.
  eexists. eexists.
  match goal with
  | |- exists s', ?A /\ ?B /\ ?C /\ ?D /\ ?E /\ ?F /\ _ =>
      assert A as Hfirst by (vm_compute; reflexivity);
      assert B as Hrsv by (vm_compute; reflexivity);
      assert C as Hmagic by reflexivity;
      assert D as Hheld by (by vm_compute);
      assert E as Htask by (by vm_compute);
      assert F as Hvalid by (by vm_compute)
  end.
  destruct (nested_hold_immediate 1%nat (mk_count 20 2048) true [toy_idle_round] _ _
              Hrsv Hmagic Hheld Htask Hvalid) as (s' & Hnested).
  exists s'. auto 10.
Defined.

Lemma reserved_and_holders_are_sums_witness :
  exists sys,
    fits_single_bounded (collab := toy) /\
    Forall event_typed toy_busy /\
    Z.of_nat (length toy_busy) < 2 ^ 32 /\
    run 250 (take 4 toy_busy) (boot toy_clean) = Some sys /\
    tri_reserved_items (tri (kernel sys)) =
      sum_over reserved_items (journal_info (kernel sys)) /\
    tri_reserved_vals (tri (kernel sys)) =
      sum_over reserved_vals (journal_info (kernel sys)) /\
    tri_holders (tri (kernel sys)) = sum_over rsv_holders (journal_info (kernel sys)).
Proof.
  eexists.
  assert (fits_single_bounded (collab := toy)) as Hbounded.
  { intros w i v Hfits. simpl in Hfits. unfold toy_seg_fits_single in Hfits.
    rewrite !andb_true_iff, !Z.leb_le in Hfits. unfold INT_MAX. lia. }
  assert (Forall event_typed toy_busy) as Htyped.
  { unfold toy_busy. repeat apply List.Forall_cons; try apply List.Forall_nil;
      vm_compute; intuition discriminate. }
  assert (Z.of_nat (length toy_busy) < 2 ^ 32) as Hlen by (by vm_compute).
  split; [exact Hbounded |]. split; [exact Htyped |]. split; [exact Hlen |].
  split; [vm_compute; reflexivity |].
  apply (reserved_and_holders_are_sums 250 toy_clean toy_busy Hbounded Htyped Hlen 4%nat).
  vm_compute. reflexivity.
Defined.

Example busy_run :
  exists sys,
    run 250 toy_busy (boot toy_clean) = Some sys /\
    tri (kernel sys) = mk_tri 0 0 0 false /\
    journal_info (kernel sys) = ∅ /\
    asleep sys = ∅ /\
    trans_write_count (sbi (kernel sys)) = 1.
Proof. eexists. split; [vm_compute; reflexivity |]. by vm_compute. Qed.

(** * More of trans.c *)

(** ** Setting up and shutting down *)

(** X1.  [scoutfs_setup_trans] returns 0 exactly when both allocations
    succeed and -ENOMEM otherwise.  When it fails nothing it allocated
    stays allocated and [trans_info] is as it was; when it succeeds
    [trans_info] is a zeroed manager and the work queue exists. *)
Theorem setup_trans_all_or_nothing kzalloc_ok alloc_workqueue_ok m :
  let '(ret, m') := scoutfs_setup_trans kzalloc_ok alloc_workqueue_ok m in
  (ret = 0 \/ ret = - ENOMEM) /\
  (ret = 0 <-> kzalloc_ok = true /\ alloc_workqueue_ok = true) /\
  (ret <> 0 ->
   m_trans_info m' = m_trans_info m /\
   m_live_trans_info m' = m_live_trans_info m /\
   m_live_workq m' = m_live_workq m) /\
  (ret = 0 ->
   m_trans_info m' = Some (mk_tri 0 0 0 false) /\
   m_trans_write_workq m' = true /\
   m_live_trans_info m' = m_live_trans_info m + 1 /\
   m_live_workq m' = m_live_workq m + 1).
Proof.
  unfold scoutfs_setup_trans.
  destruct kzalloc_ok, alloc_workqueue_ok; simpl; unfold ENOMEM;
    split_and!; try done; try (intros; lia); try (by right); try (by left);
    try (split; [done | by intros [? ?]]); intros; split_and!; try done; lia.
Qed.

(** X2.  Shutting down what a successful setup built leaves nothing
    allocated, no manager, no work queue and no delayed work pending;
    shutting down again, or shutting down what was never set up, changes
    nothing. *)
Theorem setup_shutdown_round_trip m :
  m_trans_info m = None ->
  (let m' := scoutfs_shutdown_trans (snd (scoutfs_setup_trans true true m)) in
   m_trans_info m' = None /\
   m_trans_write_workq m' = false /\
   m_trans_write_work m' = None /\
   m_live_trans_info m' = m_live_trans_info m /\
   m_live_workq m' = m_live_workq m /\
   scoutfs_shutdown_trans m' = m') /\
  scoutfs_shutdown_trans m = m.
Proof.
  intros Hnone. unfold scoutfs_shutdown_trans, scoutfs_setup_trans. simpl.
  rewrite Hnone. split_and!; try done; lia.
Qed.

Lemma setup_shutdown_round_trip_witness :
  m_trans_info unmounted = None /\
  scoutfs_shutdown_trans (snd (scoutfs_setup_trans true true unmounted)) = unmounted /\
  scoutfs_shutdown_trans unmounted = unmounted.
Proof.
  split; [reflexivity |].
  destruct (setup_shutdown_round_trip unmounted eq_refl) as [_ Hdown].
  split; [reflexivity | exact Hdown].
Defined.

Section more_proofs.

Context {W Seg Comp : Type} {collab : Collaborators W Seg Comp}.
Variable HZ : Z.

Implicit Types (s : @state W) (cnt : scoutfs_item_count) (rsv : scoutfs_reservation).
Implicit Types (rounds : list (@round W)) (sys : @system W) (evs : list (@event W)).
Implicit Types (fr : @frame W Seg Comp).

(** ** The work function and the holders *)

Lemma drained_wait_loop rounds s :
  tri_writing (tri s) = true -> tri_holders (tri s) <> 0 ->
  match ___wait_event drained_condition false rounds tt s with
  | Returned _ s1 => tri_holders (tri s1) = 0 /\ tri_writing (tri s1) = true
  | Blocked s1 => tri_holders (tri s1) <> 0 /\ tri_writing (tri s1) = true
  | Bug => False
  end.
Proof.
  revert s. induction rounds as [| r rounds IH]; intros s Hwriting Hheld; simpl; [done |].
  destruct (tri_holders (tri (interference r s)) =? 0) eqn:Hgone.
  - apply Z.eqb_eq in Hgone. done.
  - apply Z.eqb_neq in Hgone. by apply IH.
Qed.

(** The wait for the holders ends with 0 and only when nobody holds the
    transaction; [writing] is set from its first look on. *)
Lemma drained_wait_outcome rounds s :
  match wait_event drained_condition rounds tt s with
  | Returned r s1 => r = (0, tt) /\ tri_holders (tri s1) = 0 /\ tri_writing (tri s1) = true
  | Blocked s1 => tri_holders (tri s1) <> 0 /\ tri_writing (tri s1) = true
  | Bug => False
  end.
Proof.
  unfold wait_event. simpl.
  destruct (tri_holders (tri s) =? 0) eqn:Hgone.
  - apply Z.eqb_eq in Hgone. by split_and!.
  - apply Z.eqb_neq in Hgone.
    pose proof (drained_wait_loop rounds (set_tri (set_tri_writing true) s) eq_refl Hgone)
      as Hloop.
    assert (forall rounds s0 r s1,
               ___wait_event drained_condition false rounds tt s0 = Returned r s1 ->
               r = (0, tt)) as Hzero.
    { clear. induction rounds as [| r rounds IH]; intros s0 ret s1; simpl; [done |].
      destruct (tri_holders (tri (interference r s0)) =? 0); [by intros [= <- _] |].
      apply IH. }
    destruct (___wait_event drained_condition false rounds tt _) as [ret s1 | s1 |] eqn:Hwait;
      [| done | done].
    pose proof (Hzero _ _ _ _ Hwait) as ->. destruct Hloop. by split_and!.
Qed.

(** X3.  Whatever the other tasks do, the work function never trips a
    [BUG_ON]; while it is blocked [writing] is set and there are
    holders; and when it returns, it has run its body, from the [if] of
    line 126 to the end, from a state with [writing] set and no
    holder. *)
Theorem write_func_waits_for_holders current rounds s :
  match scoutfs_trans_write_func HZ current rounds s with
  | Returned _ s' =>
      exists s1,
        wait_event drained_condition rounds tt (set_sbi (set_trans_task (Some current)) s)
          = Returned (0, tt) s1 /\
        tri_holders (tri s1) = 0 /\ tri_writing (tri s1) = true /\
        s' = write_after_drain HZ s1
  | Blocked s1 => tri_holders (tri s1) <> 0 /\ tri_writing (tri s1) = true
  | Bug => False
  end.
Proof.
  unfold scoutfs_trans_write_func.
  pose proof (drained_wait_outcome rounds (set_sbi (set_trans_task (Some current)) s))
    as Hwait.
  destruct (wait_event drained_condition rounds tt _) as [r s1 | s1 |]; simpl;
    [| done | done].
  destruct Hwait as (-> & Hnone & Hwriting). exists s1. by split_and!.
Qed.

(** ** Syncing, whatever the schedule *)

Lemma sync_wait_loop attempt rounds s :
  trans_write_count (sbi s) <= wa_count attempt ->
  match sync_epilogue (___wait_event write_attempted true rounds attempt s) with
  | Returned ret s' =>
      (wa_count attempt < trans_write_count (sbi s') /\ ret = trans_write_ret (sbi s')) \/
      (trans_write_count (sbi s') <= wa_count attempt /\ ret = - ERESTARTSYS)
  | Blocked s' => trans_write_count (sbi s') <= wa_count attempt
  | Bug => False
  end /\
  exists n : nat,
    match ___wait_event write_attempted true rounds attempt s with
    | Returned _ s' => s' = interfered (take n rounds) s
    | Blocked s' => s' = interfered (take n rounds) s
    | Bug => False
    end.
Proof.
  revert s. induction rounds as [| r rounds IH]; intros s Hnot; simpl.
  - split; [done | by exists 0%nat].
  - unfold write_attempted at 1 3.
    destruct (wa_count attempt <? trans_write_count (sbi (interference r s))) eqn:Hpassed.
    + apply Z.ltb_lt in Hpassed. simpl. split; [by left | by exists 1%nat].
    + apply Z.ltb_ge in Hpassed. destruct (signal_pending r); simpl.
      * split; [by right | by exists 1%nat].
      * destruct (IH (interference r s) Hpassed) as [Hret [n Hn]].
        split; [done | by exists (S n)].
Qed.

(** X4.  Whatever the other tasks do and whenever signals arrive, a sync with
    [wait] never trips a [BUG_ON].  When it returns, either it has seen
    [trans_write_count] above the count it found on entry and returns
    the [trans_write_ret] of the state it saw, or the count has not
    passed it and it returns -ERESTARTSYS; while it is blocked the count
    has not passed.  The state it leaves is the kicked state after some
    of the rounds: the call itself changes nothing after the kick. *)
Theorem sync_returns_are_justified wait rounds s :
  wait <> 0 ->
  match scoutfs_trans_sync wait rounds s with
  | Returned ret s' =>
      ((trans_write_count (sbi s) < trans_write_count (sbi s') /\
        ret = trans_write_ret (sbi s')) \/
       (trans_write_count (sbi s') <= trans_write_count (sbi s) /\ ret = - ERESTARTSYS)) /\
      exists n : nat, s' = interfered (take n rounds) (queue_trans_work s)
  | Blocked s' =>
      trans_write_count (sbi s') <= trans_write_count (sbi s) /\
      exists n : nat, s' = interfered (take n rounds) (queue_trans_work s)
  | Bug => False
  end.
Proof.
  intros Hwait. unfold scoutfs_trans_sync.
  replace (wait =? 0) with false by (symmetry; by apply Z.eqb_neq).
  unfold wait_event_interruptible.
  rewrite write_attempted_not_yet by (simpl; lia).
  destruct (sync_wait_loop (mk_attempt (trans_write_count (sbi s)) 0) rounds
              (queue_trans_work s)) as [Hret [n Hn]]; [simpl; lia |].
  simpl in Hret.
  destruct (___wait_event write_attempted true rounds _ _) as [[ret attempt1] s' | s' |];
    simpl in *; [| | done]; split; eauto.
Qed.

(** ** Holds and releases *)

Lemma wrap32_add_sub a c : 0 <= a < 2 ^ 32 -> wrap32 (wrap32 (a + c) - c) = a.
Proof.
  intros Ha. unfold wrap32. rewrite Zminus_mod_idemp_l.
  replace (a + c - c) with a by lia. by apply Z.mod_small.
Qed.

(** A first hold that finds [writing] clear and room for its count is
    let in at its first look, whatever the schedule. *)
Lemma first_hold_admitted t cnt rounds s :
  count_valid cnt ->
  trans_task (sbi s) <> Some t ->
  journal_info s !! t = None ->
  tri_writing (tri s) = false ->
  scoutfs_item_dirty_fits_single (world s)
    (wrap32 (tri_reserved_items (tri s) + items cnt))
    (wrap32 (tri_reserved_vals (tri s) + vals cnt)) = true ->
  scoutfs_hold_trans t cnt true rounds s =
    Returned 0
      (mk_state (sbi s)
         (mk_tri (wrap32 (tri_reserved_items (tri s) + items cnt))
                 (wrap32 (tri_reserved_vals (tri s) + vals cnt))
                 (wrap32 (tri_holders (tri s) + 1)) false)
         (<[t := first_reservation cnt]> (journal_info s))
         (ctrs s) (klog s) (world s) (calls s)).
Proof.
  intros Hvalid Htask Hnone Hwriting Hfits.
  unfold scoutfs_hold_trans. rewrite hold_prologue_valid by done.
  rewrite bool_decide_eq_false_2 by done. rewrite Hnone.
  unfold wait_event_interruptible, hold_condition, acquired_hold.
  simpl. rewrite lookup_insert_eq. simpl. rewrite Hwriting, Hfits. simpl.
  rewrite lookup_insert_eq. simpl.
  unfold hold_label, set_tri, set_journal_info. simpl.
  rewrite insert_insert_eq.
  unfold set_tri_holders, set_tri_reserved. simpl. by rewrite Hwriting.
Qed.

(** A hold on top of the caller's own returns at its first look. *)
Lemma nested_hold_state t cnt kz rounds s rsv :
  count_valid cnt ->
  trans_task (sbi s) <> Some t ->
  journal_info s !! t = Some rsv ->
  rsv_magic rsv = SCOUTFS_RESERVATION_MAGIC ->
  rsv_holders rsv <> 0 ->
  scoutfs_hold_trans t cnt kz rounds s = Returned 0 (hold_label t rsv s).
Proof.
  intros Hvalid Htask Hrsv Hmagic Hheld.
  unfold scoutfs_hold_trans. rewrite hold_prologue_valid by done.
  rewrite bool_decide_eq_false_2 by done.
  rewrite Hrsv, Hmagic, Z.eqb_refl.
  unfold wait_event_interruptible, hold_condition, acquired_hold.
  rewrite Hrsv.
  replace (rsv_holders rsv =? 0) with false by (symmetry; by apply Z.eqb_neq).
  simpl. by rewrite lookup_insert_eq.
Qed.

(** X5.  A task without a reservation that is let in at once and then
    releases leaves the state exactly as it found it; in between
    [scoutfs_trans_held] is true for it, before and after it is
    false. *)
Theorem hold_release_round_trip t cnt rounds s :
  count_valid cnt ->
  trans_task (sbi s) <> Some t ->
  journal_info s !! t = None ->
  tri_writing (tri s) = false ->
  scoutfs_item_dirty_fits_single (world s)
    (wrap32 (tri_reserved_items (tri s) + items cnt))
    (wrap32 (tri_reserved_vals (tri s) + vals cnt)) = true ->
  tri_is_unsigned (tri s) ->
  tri_holders (tri s) < 2 ^ 32 - 1 ->
  exists s1,
    scoutfs_hold_trans t cnt true rounds s = Returned 0 s1 /\
    scoutfs_trans_held t s = false /\
    scoutfs_trans_held t s1 = true /\
    scoutfs_release_trans t s1 = Returned tt s.
Proof.
  intros Hvalid Htask Hnone Hwriting Hfits (Hi & Hv & Hh) Hroom.
  eexists. split; [by apply first_hold_admitted |].
  split; [unfold scoutfs_trans_held; by rewrite Hnone |].
  split; [unfold scoutfs_trans_held; simpl; by rewrite lookup_insert_eq |].
  unfold scoutfs_release_trans. simpl.
  rewrite bool_decide_eq_false_2 by done.
  rewrite lookup_insert_eq. simpl.
  rewrite (wrap32_small (tri_holders (tri s) + 1)) by lia.
  replace (tri_holders (tri s) + 1 <=? 0) with false by (symmetry; apply Z.leb_gt; lia).
  simpl. unfold set_tri, set_journal_info. simpl.
  rewrite !wrap32_add_sub by done.
  replace (wrap32 (tri_holders (tri s) + 1 - 1)) with (tri_holders (tri s))
    by (rewrite wrap32_small; lia).
  rewrite delete_insert_id by done.
  destruct s as [b [ri rv h w] j c k wd cs]. simpl in *. by subst.
Qed.

(** X6.  A task that holds the transaction, holds it again and releases once
    leaves the state exactly as it was before the second hold. *)
Theorem nested_hold_release_round_trip t cnt kz rounds s rsv :
  count_valid cnt ->
  trans_task (sbi s) <> Some t ->
  journal_info s !! t = Some rsv ->
  rsv_magic rsv = SCOUTFS_RESERVATION_MAGIC ->
  0 < rsv_holders rsv < 2 ^ 32 - 1 ->
  0 <= tri_holders (tri s) < 2 ^ 32 - 1 ->
  exists s1,
    scoutfs_hold_trans t cnt kz rounds s = Returned 0 s1 /\
    scoutfs_release_trans t s1 = Returned tt s.
Proof.
  intros Hvalid Htask Hrsv Hmagic Hheld Hholders.
  eexists. split; [apply (nested_hold_state t cnt kz rounds s rsv); try done; lia |].
  unfold scoutfs_release_trans, hold_label. simpl.
  rewrite bool_decide_eq_false_2 by done.
  rewrite lookup_insert_eq. simpl. rewrite Hmagic. simpl.
  rewrite (wrap32_small (rsv_holders rsv + 1)) by lia.
  rewrite (wrap32_small (tri_holders (tri s) + 1)) by lia.
  replace (rsv_holders rsv + 1 <=? 0) with false by (symmetry; apply Z.leb_gt; lia).
  replace (tri_holders (tri s) + 1 <=? 0) with false by (symmetry; apply Z.leb_gt; lia).
  replace (wrap32 (rsv_holders rsv + 1 - 1)) with (rsv_holders rsv)
    by (rewrite wrap32_small; lia).
  replace (rsv_holders rsv =? 0) with false by (symmetry; apply Z.eqb_neq; lia).
  unfold set_tri, set_journal_info. simpl.
  replace (wrap32 (tri_holders (tri s) + 1 - 1)) with (tri_holders (tri s))
    by (rewrite wrap32_small; lia).
  rewrite insert_insert_eq.
  replace (set_rsv_holders (rsv_holders rsv) _) with rsv by (by destruct rsv).
  rewrite insert_id by done.
  rewrite ?wrap32_add_sub by lia.
  destruct s as [b [ri rv h w] j c k wd cs]. reflexivity.
Qed.

(** One look of a first hold: it is turned away with the manager and the
    reservations as they were, or let in. *)
Lemma first_hold_look t cnt s :
  journal_info s !! t = Some new_reservation ->
  (exists s', acquired_hold t cnt s = Some (false, s') /\
              journal_info s' = journal_info s /\ tri s' = tri s) \/
  (exists s', acquired_hold t cnt s = Some (true, s') /\
              tri_writing (tri s) = false /\
              journal_info s' = <[t := first_reservation cnt]> (journal_info s) /\
              tri s' = mk_tri (wrap32 (tri_reserved_items (tri s) + items cnt))
                              (wrap32 (tri_reserved_vals (tri s) + vals cnt))
                              (wrap32 (tri_holders (tri s) + 1)) false /\
              scoutfs_item_dirty_fits_single (world s')
                (tri_reserved_items (tri s')) (tri_reserved_vals (tri s')) = true).
Proof.
  intros Hrsv. unfold acquired_hold. rewrite Hrsv. simpl.
  destruct (tri_writing (tri s)) eqn:Hwriting; [left; eauto |].
  destruct (scoutfs_item_dirty_fits_single _ _ _) eqn:Hfits; simpl.
  - right. eexists. split; [reflexivity |]. simpl.
    unfold set_tri_holders, set_tri_reserved. simpl. rewrite Hwriting.
    by split_and!.
  - left. eexists. split; [reflexivity |]. by split.
Qed.

Lemma first_hold_wait_loop t cnt rounds : forall s1,
  Forall leaves_manager rounds ->
  journal_info s1 !! t = Some new_reservation ->
  match hold_epilogue t (___wait_event (hold_condition t cnt) true rounds tt s1) with
  | Returned ret s' =>
      (ret = 0 /\
       tri_writing (tri s1) = false /\
       journal_info s' = <[t := first_reservation cnt]> (journal_info s1) /\
       tri s' = mk_tri (wrap32 (tri_reserved_items (tri s1) + items cnt))
                       (wrap32 (tri_reserved_vals (tri s1) + vals cnt))
                       (wrap32 (tri_holders (tri s1) + 1)) false /\
       scoutfs_item_dirty_fits_single (world s')
         (tri_reserved_items (tri s')) (tri_reserved_vals (tri s')) = true) \/
      (ret = - ERESTARTSYS /\
       journal_info s' = delete t (journal_info s1) /\ tri s' = tri s1)
  | Blocked s' => journal_info s' = journal_info s1 /\ tri s' = tri s1
  | Bug => False
  end.
Proof.
  induction rounds as [| r rounds IH]; intros s1 Hquiet Hrsv; simpl; [done |].
  apply Forall_cons in Hquiet as [Hr Hquiet].
  destruct (Hr s1) as [Htri Hj].
  assert (journal_info (interference r s1) !! t = Some new_reservation) as Hrsv1
    by (by rewrite Hj).
  unfold hold_condition.
  destruct (first_hold_look t cnt (interference r s1) Hrsv1)
    as [(s' & -> & Hj' & Htri') | (s' & -> & Hwriting & Hj' & Htri' & Hfits)].
  - assert (journal_info s' !! t = Some new_reservation) as Hrsv' by (by rewrite Hj').
    destruct (signal_pending r); simpl.
    + rewrite Hrsv'. simpl. right. split_and!; [done | | ]; simpl; congruence.
    + specialize (IH s' Hquiet Hrsv').
      destruct (hold_epilogue t _) as [ret s2 | s2 |]; [| | done].
      * rewrite Htri', Hj', Htri, Hj in IH. done.
      * rewrite Htri', Hj', Htri, Hj in IH. done.
  - simpl. rewrite Hj', lookup_insert_eq. simpl. left.
    rewrite Htri', Hj', Htri, Hj in *. by split_and!.
Qed.

(** X7.  A hold of a task that has no reservation (and does not run the
    commit), while the other tasks leave the manager and the
    reservations alone, never trips a [BUG_ON] and is all or nothing.
    If it returns 0, its count passed the checks, [writing] was clear,
    the task has a reservation of exactly its count with one holder and
    nothing tracked, the manager has the count added (modulo 2^32) and
    one holder more, and the new reserved counts fit.  If it returns an
    error, which is -EINVAL, -ENOMEM or -ERESTARTSYS, the manager and
    the reservations are as before: the reservation it allocated is
    freed.  While it is blocked only that fresh reservation is there. *)
Theorem first_hold_all_or_nothing t cnt kzalloc_ok rounds s :
  journal_info s !! t = None ->
  trans_task (sbi s) <> Some t ->
  Forall leaves_manager rounds ->
  match scoutfs_hold_trans t cnt kzalloc_ok rounds s with
  | Returned ret s' =>
      (ret = 0 /\ count_valid cnt /\ tri_writing (tri s) = false /\
       journal_info s' = <[t := first_reservation cnt]> (journal_info s) /\
       tri s' = mk_tri (wrap32 (tri_reserved_items (tri s) + items cnt))
                       (wrap32 (tri_reserved_vals (tri s) + vals cnt))
                       (wrap32 (tri_holders (tri s) + 1)) false /\
       scoutfs_item_dirty_fits_single (world s')
         (tri_reserved_items (tri s')) (tri_reserved_vals (tri s')) = true) \/
      ((ret = - EINVAL \/ ret = - ENOMEM \/ ret = - ERESTARTSYS) /\
       journal_info s' = journal_info s /\ tri s' = tri s)
  | Blocked s' =>
      journal_info s' = <[t := new_reservation]> (journal_info s) /\ tri s' = tri s
  | Bug => False
  end.
Proof.
  intros Hnone Htask Hquiet.
  destruct (decide (count_valid cnt)) as [Hvalid | Hbad].
  - unfold scoutfs_hold_trans. rewrite hold_prologue_valid by done.
    rewrite bool_decide_eq_false_2 by done. rewrite Hnone.
    destruct kzalloc_ok; [| right; by split_and!; [right; left | |]].
    set (s0 := set_journal_info (insert t new_reservation) s).
    assert (journal_info s0 !! t = Some new_reservation) as Hrsv0
      by apply lookup_insert_eq.
    unfold wait_event_interruptible, hold_condition.
    destruct (first_hold_look t cnt s0 Hrsv0)
      as [(s' & -> & Hj' & Htri') | (s' & -> & Hwriting & Hj' & Htri' & Hfits)].
    + assert (journal_info s' !! t = Some new_reservation) as Hrsv' by (by rewrite Hj').
      pose proof (first_hold_wait_loop t cnt rounds s' Hquiet Hrsv') as Hloop.
      destruct (hold_epilogue t _) as [ret s2 | s2 |]; [| | done].
      * rewrite Htri', Hj' in Hloop. simpl in Hloop.
        destruct Hloop as [(-> & ? & Hins & ? & ?) | (-> & Hdel & ?)]; [left | right].
        -- rewrite insert_insert_eq in Hins. by split_and!.
        -- rewrite delete_insert_id in Hdel by done. split_and!; try done. by right; right.
      * rewrite Htri', Hj' in Hloop. done.
    + simpl. rewrite Hj', lookup_insert_eq. simpl. left.
      rewrite Hj', Htri' in *. simpl. rewrite insert_insert_eq. by split_and!.
  - assert (items cnt <= 0 \/ vals cnt < 0 \/
            scoutfs_seg_fits_single (items cnt) (vals cnt) = false) as Hwhy.
    { unfold count_valid in Hbad.
      destruct (scoutfs_seg_fits_single (items cnt) (vals cnt)); [| by right; right].
      destruct (decide (items cnt <= 0)); [by left |].
      destruct (decide (vals cnt < 0)); [by right; left |].
      exfalso. apply Hbad. split_and!; [lia | lia | done]. }
    unfold scoutfs_hold_trans, hold_prologue.
    pose proof (WARN_ON_ONCE_fst warn_hold_garbage_count
                  ((items cnt <=? 0) || (vals cnt <? 0)) s) as Hg.
    pose proof (WARN_ON_ONCE_snd warn_hold_garbage_count
                  ((items cnt <=? 0) || (vals cnt <? 0)) s) as Hs1.
    destruct (WARN_ON_ONCE warn_hold_garbage_count _ s) as [garbage s1].
    simpl in Hg, Hs1. subst garbage. destruct Hs1 as (_ & Htri1 & Hj1 & _).
    destruct ((items cnt <=? 0) || (vals cnt <? 0)) eqn:Hgarbage.
    + right. by split_and!; [left | |].
    + apply orb_false_iff in Hgarbage as [Hi Hv].
      apply Z.leb_gt in Hi. apply Z.ltb_ge in Hv.
      destruct Hwhy as [? | [? | Hfit]]; [lia | lia |].
      rewrite Hfit. simpl.
      pose proof (WARN_ON_ONCE_fst warn_hold_not_single true s1) as Hg.
      pose proof (WARN_ON_ONCE_snd warn_hold_not_single true s1) as Hs2.
      destruct (WARN_ON_ONCE warn_hold_not_single true s1) as [too_big s2].
      simpl in Hg, Hs2. subst too_big. destruct Hs2 as (_ & Htri2 & Hj2 & _).
      right. split_and!; [by left | congruence | congruence].
Qed.

(** ** What a run of the work function counts *)

Lemma write_pipeline_steps_ctrs :
  Forall (fun st : step => forall fr, ctrs (f_st (snd (st fr))) = ctrs (f_st fr))
         write_pipeline_steps.
Proof.
  unfold write_pipeline_steps.
  repeat (apply List.Forall_cons; [intros fr |]); [.. | apply List.Forall_nil].
  - unfold inode_walk_writeback. by destruct (scoutfs_inode_walk_writeback _ _).
  - unfold client_alloc_segno. by destruct (scoutfs_client_alloc_segno _) as [[? ?] ?].
  - unfold seg_alloc. by destruct (scoutfs_seg_alloc _ _) as [[? ?] ?].
  - unfold item_dirty_seg. by destruct (scoutfs_item_dirty_seg _ _).
  - unfold seg_submit_write. by destruct (scoutfs_seg_submit_write _ _ _) as [[? ?] ?].
  - unfold inode_walk_writeback. by destruct (scoutfs_inode_walk_writeback _ _).
  - unfold bio_wait_comp. by destruct (scoutfs_bio_wait_comp _ _) as [[? ?] ?].
  - unfold client_record_segment. by destruct (scoutfs_client_record_segment _ _ _).
  - unfold client_advance_seq. by destruct (scoutfs_client_advance_seq _ _) as [[? ?] ?].
Qed.

Lemma run_in_order_ctrs (steps : list step) fr :
  Forall (fun st : step => forall fr, ctrs (f_st (snd (st fr))) = ctrs (f_st fr)) steps ->
  ctrs (f_st (snd (run_in_order steps fr))) = ctrs (f_st fr).
Proof.
  intros Hsteps. revert fr.
  induction Hsteps as [| st steps Hst Hsteps IH]; intros fr; simpl; [done |].
  specialize (Hst fr). destruct (st fr) as [ret fr1]. simpl in Hst.
  destruct (ret =? 0); [| done]. by rewrite IH.
Qed.

(** X8.  What the work function counts once the holders have drained, with
    [ret] the value it records in [trans_write_ret].
    [trans_commit_timer] grows by one exactly when there are dirty items
    and the deadline had expired; [trans_level0_seg_writes] grows by one
    and [trans_level0_seg_write_bytes] by the total bytes of the segment
    exactly when there are dirty items and [ret] is 0; a failed commit
    counts no segment write.  The counters of fsync and of full
    transactions are not touched. *)
Theorem write_func_counters s1 :
  let dirty := scoutfs_item_has_dirty (world s1) in
  let s' := write_after_drain HZ s1 in
  let ret := trans_write_ret (sbi s') in
  let seg := f_seg (snd (run_in_order write_pipeline_steps (pipeline_entry s1))) in
  read_counter trans_commit_timer (ctrs s') =
    read_counter trans_commit_timer (ctrs s1)
    + (if dirty && trans_deadline_expired (sbi s1) then 1 else 0) /\
  read_counter trans_level0_seg_writes (ctrs s') =
    read_counter trans_level0_seg_writes (ctrs s1)
    + (if dirty && (ret =? 0) then 1 else 0) /\
  read_counter trans_level0_seg_write_bytes (ctrs s') =
    read_counter trans_level0_seg_write_bytes (ctrs s1)
    + (if dirty && (ret =? 0) then scoutfs_seg_total_bytes seg (world s') else 0) /\
  read_counter trans_commit_fsync (ctrs s') = read_counter trans_commit_fsync (ctrs s1) /\
  read_counter trans_commit_full (ctrs s') = read_counter trans_commit_full (ctrs s1).
Proof.
  intros dirty s' ret seg. subst dirty s' ret seg.
  rewrite write_after_drain_ret. unfold write_after_drain.
  destruct (scoutfs_item_has_dirty (world s1)) eqn:Hdirty.
  - pose proof (write_func_body_dirty s1 Hdirty) as Hbody.
    pose proof (run_in_order_ctrs write_pipeline_steps (pipeline_entry s1)
                  write_pipeline_steps_ctrs) as Hctrs.
    destruct (run_in_order write_pipeline_steps (pipeline_entry s1)) as [ret fr].
    rewrite Hbody. simpl in Hctrs |- *.
    match goal with
    | |- context [write_func_finish HZ ret ?x] =>
        destruct (write_func_finish_fields HZ ret x)
          as (_ & _ & _ & _ & _ & _ & _ & _ & -> & -> & _)
    end.
    unfold pipeline_entry in Hctrs. simpl in Hctrs.
    destruct (ret =? 0), (trans_deadline_expired (sbi s1)); simpl in *; rewrite Hctrs;
      simpl; split_and!; lia.
  - unfold write_func_body. rewrite Hdirty.
    destruct (trans_deadline_expired (sbi s1)).
    + unfold client_advance_seq. simpl.
      destruct (scoutfs_client_advance_seq _ _) as [[ret seq] w]. simpl.
      match goal with
      | |- context [write_func_finish HZ ret ?x] =>
          destruct (write_func_finish_fields HZ ret x)
            as (_ & _ & _ & _ & _ & _ & _ & _ & -> & _ & _)
      end.
      simpl. split_and!; lia.
    + simpl. split_and!; lia.
Qed.

(** ** The sequence number *)

Lemma seq_kept_refl s : seq_kept s s.
Proof. exists []. by rewrite app_nil_r. Qed.

Lemma seq_kept_trans s1 s2 s3 : seq_kept s1 s2 -> seq_kept s2 s3 -> seq_kept s1 s3.
Proof.
  intros (l1 & Hc1 & Hq1) (l2 & Hc2 & Hq2). exists (l1 ++ l2).
  split; [by rewrite Hc2, Hc1, app_assoc |].
  intros Hnot. apply not_elem_of_app in Hnot as [Hn1 Hn2].
  by rewrite Hq2, Hq1.
Qed.

(** A call that is not [scoutfs_client_advance_seq] and leaves
    [trans_seq] alone. *)
Lemma seq_kept_call (c : call) s s' :
  c <> c_client_advance_seq ->
  calls s' = calls s ++ [c] -> trans_seq (sbi s') = trans_seq (sbi s) ->
  seq_kept s s'.
Proof. intros Hc Hcalls Hseq. by exists [c]. Qed.

Lemma write_pipeline_steps_seq :
  Forall (fun st : step => forall fr, seq_kept (f_st fr) (f_st (snd (st fr))))
         write_pipeline_steps.
Proof.
  unfold write_pipeline_steps.
  repeat (apply List.Forall_cons; [intros fr |]); [.. | apply List.Forall_nil].
  - unfold inode_walk_writeback. destruct (scoutfs_inode_walk_writeback _ _).
    eapply seq_kept_call; cycle 1; [reflexivity | reflexivity | done].
  - unfold client_alloc_segno. destruct (scoutfs_client_alloc_segno _) as [[? ?] ?].
    eapply seq_kept_call; cycle 1; [reflexivity | reflexivity | done].
  - unfold seg_alloc. destruct (scoutfs_seg_alloc _ _) as [[? ?] ?].
    eapply seq_kept_call; cycle 1; [reflexivity | reflexivity | done].
  - unfold item_dirty_seg. destruct (scoutfs_item_dirty_seg _ _).
    eapply seq_kept_call; cycle 1; [reflexivity | reflexivity | done].
  - unfold seg_submit_write. destruct (scoutfs_seg_submit_write _ _ _) as [[? ?] ?].
    eapply seq_kept_call; cycle 1; [reflexivity | reflexivity | done].
  - unfold inode_walk_writeback. destruct (scoutfs_inode_walk_writeback _ _).
    eapply seq_kept_call; cycle 1; [reflexivity | reflexivity | done].
  - unfold bio_wait_comp. destruct (scoutfs_bio_wait_comp _ _) as [[? ?] ?].
    eapply seq_kept_call; cycle 1; [reflexivity | reflexivity | done].
  - unfold client_record_segment. destruct (scoutfs_client_record_segment _ _ _).
    eapply seq_kept_call; cycle 1; [reflexivity | reflexivity | done].
  - unfold client_advance_seq. destruct (scoutfs_client_advance_seq _ _) as [[? ?] ?].
    exists [c_client_advance_seq]. split; [done |].
    intros Hnot. exfalso. apply Hnot. by apply list_elem_of_singleton.
Qed.

Lemma run_in_order_seq (steps : list step) fr :
  Forall (fun st : step => forall fr, seq_kept (f_st fr) (f_st (snd (st fr)))) steps ->
  seq_kept (f_st fr) (f_st (snd (run_in_order steps fr))).
Proof.
  intros Hsteps. revert fr.
  induction Hsteps as [| st steps Hst Hsteps IH]; intros fr; simpl.
  - apply seq_kept_refl.
  - specialize (Hst fr). destruct (st fr) as [ret fr1]. simpl in Hst.
    destruct (ret =? 0); [| done].
    eapply seq_kept_trans; [exact Hst | apply IH].
Qed.

Lemma write_func_body_seq s : seq_kept s (snd (write_func_body s)).
Proof.
  unfold write_func_body.
  destruct (scoutfs_item_has_dirty (world s)).
  - fold (pipeline_entry s). rewrite write_pipeline_run_in_order.
    pose proof (run_in_order_seq write_pipeline_steps (pipeline_entry s)
                  write_pipeline_steps_seq) as Hrun.
    destruct (run_in_order _ _) as [ret fr]. simpl in Hrun.
    eapply seq_kept_trans with (s2 := f_st fr).
    + eapply seq_kept_trans; [| exact Hrun].
      unfold pipeline_entry. simpl.
      destruct (trans_deadline_expired (sbi s)); exists []; by rewrite app_nil_r.
    + destruct (ret =? 0); simpl.
      * eapply seq_kept_trans with (s2 := seg_put fr);
          [by apply (seq_kept_call c_seg_put) | by apply (seq_kept_call c_seg_total_bytes)].
      * by apply (seq_kept_call c_seg_put).
  - destruct (trans_deadline_expired (sbi s)); [| apply seq_kept_refl].
    unfold client_advance_seq. simpl.
    destruct (scoutfs_client_advance_seq _ _) as [[? ?] ?]. simpl.
    exists [c_client_advance_seq]. split; [done |].
    intros Hnot. exfalso. apply Hnot. by apply list_elem_of_singleton.
Qed.

Lemma write_after_drain_seq s : seq_kept s (write_after_drain HZ s).
Proof.
  unfold write_after_drain.
  pose proof (write_func_body_seq s) as (l & Hcalls & Hseq).
  destruct (write_func_body s) as [ret s1]. simpl in *.
  destruct (write_func_finish_fields HZ ret s1)
    as (_ & _ & _ & _ & _ & Hs & _ & _ & _ & _ & Hc).
  exists l. rewrite Hc, Hs. by split.
Qed.

(** X9.  Once the holders have drained the work function appends to the log
    of the calls it makes, and it leaves [trans_seq] as it was unless
    one of these calls is [scoutfs_client_advance_seq]: no other line
    stores a sequence number.  With nothing dirty and the deadline not
    expired it makes no call at all. *)
Theorem trans_seq_only_by_advance_seq s1 :
  exists l,
    calls (write_after_drain HZ s1) = calls s1 ++ l /\
    (c_client_advance_seq ∉ l ->
     trans_seq (sbi (write_after_drain HZ s1)) = trans_seq (sbi s1)) /\
    (scoutfs_item_has_dirty (world s1) = false ->
     trans_deadline_expired (sbi s1) = false -> l = []).
Proof.
  destruct (write_after_drain_seq s1) as (l & Hcalls & Hseq).
  exists l. split_and!; [done | done |].
  intros Hclean Hnot.
  assert (calls (write_after_drain HZ s1) = calls s1) as Hsame.
  { unfold write_after_drain, write_func_body. rewrite Hclean, Hnot.
    by destruct (write_func_finish_fields HZ 0 s1)
      as (_ & _ & _ & _ & _ & _ & _ & _ & _ & _ & ->). }
  rewrite Hsame in Hcalls.
  apply (f_equal length) in Hcalls. rewrite length_app in Hcalls.
  destruct l; [done | simpl in Hcalls; lia].
Qed.

(** ** After a commit *)


(** ** One task at a time *)

Lemma keeps_others_refl t s : keeps_others t s s.
Proof. by split_and!. Qed.

Lemma keeps_others_trans t s1 s2 s3 :
  keeps_others t s1 s2 -> keeps_others t s2 s3 -> keeps_others t s1 s3.
Proof.
  intros (Hj1 & Hc1 & Hw1 & Hq1) (Hj2 & Hc2 & Hw2 & Hq2).
  split_and!; [| congruence ..].
  intros t' Hne. by rewrite Hj2, Hj1.
Qed.

Lemma untouched_keeps t s s' : untouched s s' -> keeps_others t s s'.
Proof. intros (Hj & ? & ? & ?). split_and!; try done. intros t' _. by rewrite Hj. Qed.

Lemma same_but_klog_untouched s s' : same_but_klog s s' -> untouched s s'.
Proof. intros (Hb & _ & Hj & _ & Hw & Hc). split_and!; try done. by rewrite Hb. Qed.

Lemma untouched_trans s1 s2 s3 : untouched s1 s2 -> untouched s2 s3 -> untouched s1 s3.
Proof. intros (? & ? & ? & ?) (? & ? & ? & ?). split_and!; congruence. Qed.

Lemma acquired_hold_others t cnt s b s' :
  acquired_hold t cnt s = Some (b, s') -> keeps_others t s s'.
Proof.
  unfold acquired_hold.
  destruct (journal_info s !! t) as [rsv |]; [| done].
  destruct (negb (rsv_holders rsv =? 0)).
  - intros [= _ <-]. split_and!; try done.
    intros t' Hne. unfold hold_label. simpl. by rewrite lookup_insert_ne.
  - destruct (tri_writing (tri s)); [intros [= _ <-]; apply keeps_others_refl |].
    destruct (negb (scoutfs_item_dirty_fits_single _ _ _)); intros [= _ <-].
    + by split_and!.
    + split_and!; try done.
      intros t' Hne. unfold hold_label. simpl. by rewrite lookup_insert_ne.
Qed.

(** One look of a hold at the caller's own reservation. *)
Lemma acquired_hold_own t cnt s b s' :
  acquired_hold t cnt s = Some (b, s') ->
  exists rsv,
    journal_info s !! t = Some rsv /\
    if b
    then exists rsv', journal_info s' !! t = Some rsv' /\
                      rsv_holders rsv' = wrap32 (rsv_holders rsv + 1)
    else journal_info s' !! t = Some rsv /\ rsv_holders rsv = 0.
Proof.
  unfold acquired_hold.
  destruct (journal_info s !! t) as [rsv |] eqn:Hrsv; [| done].
  destruct (rsv_holders rsv =? 0) eqn:Hzero; simpl.
  - apply Z.eqb_eq in Hzero.
    destruct (tri_writing (tri s)); [intros [= <- <-]; by exists rsv |].
    destruct (negb (scoutfs_item_dirty_fits_single _ _ _)); intros [= <- <-].
    + by exists rsv.
    + exists rsv. split; [done |]. unfold hold_label. simpl.
      rewrite lookup_insert_eq. eexists. split; [done |]. done.
  - intros [= <- <-]. exists rsv. split; [done |]. unfold hold_label. simpl.
    rewrite lookup_insert_eq. eexists. split; [done |]. done.
Qed.

(** What the lines before the wait of [scoutfs_hold_trans] do. *)
Lemma hold_prologue_cases t cnt kz s :
  match hold_prologue t cnt kz s with
  | inl (Returned _ s1) => same_but_klog s s1
  | inl (Blocked _) => False
  | inl Bug => True
  | inr s1 =>
      exists s0,
        same_but_klog s s0 /\
        ((s1 = s0 /\ exists rsv, journal_info s !! t = Some rsv) \/
         (s1 = set_journal_info (insert t new_reservation) s0 /\
          journal_info s !! t = None))
  end.
Proof.
  unfold hold_prologue.
  pose proof (WARN_ON_ONCE_same warn_hold_garbage_count
                ((items cnt <=? 0) || (vals cnt <? 0)) s) as Hs1.
  destruct (WARN_ON_ONCE warn_hold_garbage_count _ s) as [garbage s1]. simpl in Hs1.
  destruct garbage; [done |].
  pose proof (WARN_ON_ONCE_same warn_hold_not_single
                (negb (scoutfs_seg_fits_single (items cnt) (vals cnt))) s1) as Hs2.
  destruct (WARN_ON_ONCE warn_hold_not_single _ s1) as [too_big s2]. simpl in Hs2.
  pose proof (same_but_klog_trans _ _ _ Hs1 Hs2) as Hs.
  destruct too_big; [done |].
  destruct (bool_decide (trans_task (sbi s2) = Some t)); [done |].
  pose proof Hs as (Hb & Htri & Hj & Hrest).
  destruct (journal_info s2 !! t) as [rsv |] eqn:Ht.
  - destruct (rsv_magic rsv =? SCOUTFS_RESERVATION_MAGIC); [| done].
    exists s2. split; [done |]. left. split; [done |]. exists rsv. by rewrite <- Hj.
  - destruct kz; [| done].
    exists s2. split; [done |]. right. split; [done |]. by rewrite <- Hj.
Qed.

Lemma hold_epilogue_others t s0 (o : @outcome W (Z * unit)) :
  outcome_inv (keeps_others t s0) o ->
  outcome_inv (keeps_others t s0) (hold_epilogue t o).
Proof.
  destruct o as [[ret []] s | s |]; simpl; [| done | done].
  intros Hkeep. destruct (journal_info s !! t) as [rsv |]; [| done].
  destruct (negb (ret =? 0) && (rsv_holders rsv =? 0)); simpl; [| done].
  eapply keeps_others_trans; [exact Hkeep |].
  split_and!; try done. intros t' Hne. simpl. by rewrite lookup_delete_ne.
Qed.

Lemma hold_condition_others t cnt s0 :
  forall (l : unit) s b (l' : unit) s',
    keeps_others t s0 s -> hold_condition t cnt l s = Some (b, l', s') ->
    keeps_others t s0 s'.
Proof.
  intros l s b l' s' Hkeep. unfold hold_condition.
  destruct (acquired_hold t cnt s) as [[acquired s1] |] eqn:Hacq; [| done].
  intros [= _ _ <-]. eapply keeps_others_trans; [exact Hkeep |].
  by eapply acquired_hold_others.
Qed.

(** A hold, and one more look of a sleeper in a hold, leave the other
    tasks' reservations and the rest of the file system alone. *)
Lemma hold_trans_others t cnt kz s :
  outcome_inv (keeps_others t s) (scoutfs_hold_trans t cnt kz [] s) /\
  forall signal,
    outcome_inv (keeps_others t s)
      (hold_epilogue t (___wait_event (hold_condition t cnt) true (one_round signal) tt s)).
Proof.
  split.
  - unfold scoutfs_hold_trans.
    pose proof (hold_prologue_cases t cnt kz s) as Hpro.
    destruct (hold_prologue t cnt kz s) as [[ret s1 | s1 |] | s1]; simpl; [| done | done |].
    + by apply untouched_keeps, same_but_klog_untouched.
    + apply hold_epilogue_others.
      eapply (wait_once_inv (hold_condition t cnt) (keeps_others t s) (keeps_others t s));
        [apply hold_condition_others |].
      destruct Hpro as (s0 & Hs0 & [[-> _] | [-> _]]).
      * by apply untouched_keeps, same_but_klog_untouched.
      * eapply keeps_others_trans;
          [by apply untouched_keeps, same_but_klog_untouched |].
        split_and!; try done. intros t' Hne. simpl. by rewrite lookup_insert_ne.
  - intros signal. apply hold_epilogue_others.
    eapply (wait_once_inv (hold_condition t cnt) (keeps_others t s) (keeps_others t s));
      [apply hold_condition_others | apply keeps_others_refl].
Qed.

(** What the wait of a hold leaves of the caller's reservation. *)
Lemma hold_wait_own t cnt s :
  (forall rsv, journal_info s !! t = Some rsv -> 0 <= rsv_holders rsv < 2 ^ 32 - 1) ->
  holds_or_sleeps t
    (hold_epilogue t (wait_event_interruptible (hold_condition t cnt) [] tt s)) /\
  forall signal,
    holds_or_sleeps t
      (hold_epilogue t (___wait_event (hold_condition t cnt) true (one_round signal) tt s)).
Proof.
  intros Hbound.
  unfold wait_event_interruptible, one_round, hold_condition. simpl.
  destruct (acquired_hold t cnt s) as [[b s1] |] eqn:Hacq; [| done].
  destruct (acquired_hold_own t cnt s b s1 Hacq) as (rsv & Hrsv & Hb).
  specialize (Hbound rsv Hrsv).
  destruct b.
  - destruct Hb as (rsv' & Hrsv' & Hh). simpl. rewrite Hrsv'. simpl.
    rewrite wrap32_small in Hh by lia.
    split; [| intros _]; intros rsv0 Hrsv0; rewrite Hrsv' in Hrsv0;
      injection Hrsv0 as <-; lia.
  - destruct Hb as (Hrsv1 & Hzero). simpl. split; [by exists rsv |].
    intros [|]; simpl; [| by exists rsv].
    rewrite Hrsv1, Hzero. simpl. intros rsv0. by rewrite lookup_delete_eq.
Qed.

(** What a hold leaves of the reservation of a caller whose reservation,
    if it has one, is held. *)
Lemma hold_trans_own t cnt kz s :
  (forall rsv, journal_info s !! t = Some rsv -> 0 < rsv_holders rsv < 2 ^ 32 - 1) ->
  holds_or_sleeps t (scoutfs_hold_trans t cnt kz [] s).
Proof.
  intros Hheld. unfold scoutfs_hold_trans.
  pose proof (hold_prologue_cases t cnt kz s) as Hpro.
  destruct (hold_prologue t cnt kz s) as [[ret s1 | s1 |] | s1]; simpl; [| done | done |].
  - destruct Hpro as (_ & _ & Hj & _). rewrite Hj.
    intros rsv Hrsv. specialize (Hheld rsv Hrsv). lia.
  - destruct Hpro as (s0 & (_ & _ & Hj & _) & [[-> _] | [-> _]]).
    + apply hold_wait_own. rewrite Hj. intros rsv Hrsv. specialize (Hheld rsv Hrsv). lia.
    + apply hold_wait_own. simpl. intros rsv. rewrite lookup_insert_eq.
      intros [= <-]. simpl. lia.
Qed.

Lemma track_item_post t d_items d_vals s :
  match scoutfs_trans_track_item t d_items d_vals s with
  | Returned _ s' =>
      keeps_others t s s' /\
      forall rsv', journal_info s' !! t = Some rsv' ->
        exists rsv, journal_info s !! t = Some rsv /\ rsv_holders rsv' = rsv_holders rsv
  | Blocked _ => False
  | Bug => True
  end.
Proof.
  unfold scoutfs_trans_track_item.
  destruct (bool_decide (trans_task (sbi s) = Some t)).
  { split; [apply keeps_others_refl | eauto]. }
  destruct (journal_info s !! t) as [rsv |] eqn:Hrsv; [| done].
  destruct (negb (rsv_magic rsv =? SCOUTFS_RESERVATION_MAGIC)); [done |].
  match goal with
  | |- context [WARN_ON_ONCE warn_track_items ?c1 ?s1] =>
      pose proof (WARN_ON_ONCE_same warn_track_items c1 s1) as Hs2;
      destruct (WARN_ON_ONCE warn_track_items c1 s1) as [b2 s2]
  end.
  match goal with
  | |- context [WARN_ON_ONCE warn_track_vals ?c2 s2] =>
      pose proof (WARN_ON_ONCE_same warn_track_vals c2 s2) as Hs3;
      destruct (WARN_ON_ONCE warn_track_vals c2 s2) as [b3 s3]
  end.
  simpl in Hs2, Hs3.
  pose proof (same_but_klog_untouched _ _ (same_but_klog_trans _ _ _ Hs2 Hs3))
    as (Hj & Hc & Hw & Hq).
  simpl in Hj, Hc, Hw, Hq. split.
  - split_and!; try done. intros t' Hne. rewrite Hj. by rewrite lookup_insert_ne.
  - intros rsv'. rewrite Hj, lookup_insert_eq. intros [= <-]. by exists rsv.
Qed.

Lemma release_trans_post t s :
  (forall rsv, journal_info s !! t = Some rsv -> rsv_holders rsv <> 0) ->
  match scoutfs_release_trans t s with
  | Returned _ s' =>
      keeps_others t s s' /\
      forall rsv', journal_info s' !! t = Some rsv' -> rsv_holders rsv' <> 0
  | Blocked _ => False
  | Bug => True
  end.
Proof.
  intros Hheld. unfold scoutfs_release_trans.
  destruct (bool_decide (trans_task (sbi s) = Some t)).
  { split; [apply keeps_others_refl | done]. }
  destruct (journal_info s !! t) as [rsv |] eqn:Hrsv; [| done].
  destruct (negb (rsv_magic rsv =? SCOUTFS_RESERVATION_MAGIC)); [done |].
  destruct (rsv_holders rsv <=? 0); [done |].
  destruct (tri_holders (tri s) <=? 0); [done |].
  destruct (wrap32 (rsv_holders rsv - 1) =? 0) eqn:Hlast; simpl.
  - split.
    + split_and!; try done. intros t' Hne. simpl. by rewrite lookup_delete_ne.
    + intros rsv'. by rewrite lookup_delete_eq.
  - apply Z.eqb_neq in Hlast. split.
    + split_and!; try done. intros t' Hne. simpl. by rewrite lookup_insert_ne.
    + intros rsv'. rewrite lookup_insert_eq. by intros [= <-].
Qed.

(** The work function leaves every reservation alone. *)
Lemma write_func_journal t s :
  outcome_inv (fun s' => journal_info s' = journal_info s)
    (scoutfs_trans_write_func HZ t [] s) /\
  forall signal,
    outcome_inv (fun s' => journal_info s' = journal_info s)
      (write_func_epilogue HZ
         (___wait_event drained_condition false (one_round signal) tt s)).
Proof.
  assert (forall (l : unit) s0 b (l' : unit) s',
             journal_info s0 = journal_info s ->
             drained_condition l s0 = Some (b, l', s') ->
             journal_info s' = journal_info s) as Hcnd.
  { unfold drained_condition. simpl. by intros l s0 b l' s' ? [= _ _ <-]. }
  assert (forall o : @outcome W (Z * unit),
             outcome_inv (fun s' => journal_info s' = journal_info s) o ->
             outcome_inv (fun s' => journal_info s' = journal_info s)
               (write_func_epilogue HZ o)) as Hepi.
  { intros o. apply write_func_epilogue_inv. intros s0 Hs0.
    destruct (write_after_drain_quiet HZ s0) as (Hj & _). by rewrite Hj. }
  split.
  - unfold scoutfs_trans_write_func. apply Hepi.
    by eapply (wait_once_inv drained_condition
                 (fun s' => journal_info s' = journal_info s)).
  - intros signal. apply Hepi.
    by eapply (wait_once_inv drained_condition
                 (fun s' => journal_info s' = journal_info s)).
Qed.

(** Syncing touches no reservation and calls nothing. *)
Lemma sync_untouched s :
  (forall wait, outcome_inv (untouched s) (scoutfs_trans_sync wait [] s)) /\
  outcome_inv (untouched s) (scoutfs_file_fsync [] s) /\
  forall attempt signal,
    outcome_inv (untouched s)
      (sync_epilogue (___wait_event write_attempted true (one_round signal) attempt s)).
Proof.
  assert (forall attempt s0 b attempt' s',
             untouched s s0 -> write_attempted attempt s0 = Some (b, attempt', s') ->
             untouched s s') as Hcnd.
  { unfold write_attempted. intros attempt s0 b attempt' s' ?.
    by destruct (_ <? _); intros [= _ _ <-]. }
  assert (forall s0, untouched s s0 -> forall wait,
             outcome_inv (untouched s) (scoutfs_trans_sync wait [] s0)) as Hsync.
  { intros s0 Hs0 wait. unfold scoutfs_trans_sync.
    assert (untouched s (queue_trans_work s0)) as Hq.
    { eapply untouched_trans; [exact Hs0 |]. by split_and!. }
    destruct (wait =? 0); [done |].
    apply sync_epilogue_inv.
    by eapply (wait_once_inv write_attempted (untouched s) (untouched s)). }
  split_and!.
  - apply Hsync. by split_and!.
  - unfold scoutfs_file_fsync. apply Hsync. by split_and!.
  - intros attempt signal. apply sync_epilogue_inv.
    eapply (wait_once_inv write_attempted (untouched s) (untouched s)); [done |].
    by split_and!.
Qed.

Lemma settle_others {A : Type} t z (o : @outcome W A) sys sys' (P : @state W -> Prop) :
  outcome_inv P o ->
  settle t z o sys = Some sys' ->
  P (kernel sys') /\ forall t', t' <> t -> asleep sys' !! t' = asleep sys !! t'.
Proof.
  destruct o as [ret s | s |]; simpl; [| | done]; intros HP [= <-]; simpl;
    (split; [done |]); intros t' Hne.
  - by rewrite lookup_delete_ne.
  - by rewrite lookup_insert_ne.
Qed.

Lemma finished_others {A : Type} (o : @outcome W A) sys sys' (P : @state W -> Prop) :
  (forall r s', o = Returned r s' -> P s') ->
  finished o sys = Some sys' ->
  P (kernel sys') /\ asleep sys' = asleep sys.
Proof.
  destruct o as [ret s | s |]; simpl; [| done | done]; intros HP [= <-]; simpl.
  split; [by eapply HP | done].
Qed.

(** An event changes the reservation and the sleep of no task but its
    own; unless it is a step of the work function, it makes no call into
    the rest of the file system and leaves it and [trans_seq] alone. *)
Lemma sys_step_others e sys sys' :
  sys_step HZ e sys = Some sys' ->
  match actor e with
  | Some t =>
      (forall t', t' <> t ->
         journal_info (kernel sys') !! t' = journal_info (kernel sys) !! t' /\
         asleep sys' !! t' = asleep sys !! t') /\
      (~ commits sys e -> keeps_others t (kernel sys) (kernel sys'))
  | None =>
      journal_info (kernel sys') = journal_info (kernel sys) /\
      asleep sys' = asleep sys /\
      calls (kernel sys') = calls (kernel sys) /\
      trans_seq (sbi (kernel sys')) = trans_seq (sbi (kernel sys))
  end.
Proof.
  assert (forall t,
             keeps_others t (kernel sys) (kernel sys') /\
             (forall t', t' <> t -> asleep sys' !! t' = asleep sys !! t') ->
             (forall t', t' <> t ->
                journal_info (kernel sys') !! t' = journal_info (kernel sys) !! t' /\
                asleep sys' !! t' = asleep sys !! t') /\
             (~ commits sys e -> keeps_others t (kernel sys) (kernel sys'))) as Hkeep.
  { intros t [Hk Ha]. split; [| done]. intros t' Hne.
    destruct Hk as (Hj & _). split; [by apply Hj | by apply Ha]. }
  assert (forall t,
             journal_info (kernel sys') = journal_info (kernel sys) /\
             (forall t', t' <> t -> asleep sys' !! t' = asleep sys !! t') ->
             commits sys e ->
             (forall t', t' <> t ->
                journal_info (kernel sys') !! t' = journal_info (kernel sys) !! t' /\
                asleep sys' !! t' = asleep sys !! t') /\
             (~ commits sys e -> keeps_others t (kernel sys) (kernel sys'))) as Hwork.
  { intros t [Hj Ha] Hc. split; [| done]. intros t' Hne.
    split; [by rewrite Hj | by apply Ha]. }
  destruct e as [t cnt kz | t d_items d_vals | t | t | t wait | t | t signal | f];
    unfold sys_step; simpl actor.
  - destruct (asleep sys !! t); [done |]. intros Hsettle. apply Hkeep.
    eapply settle_others; [| exact Hsettle]. apply hold_trans_others.
  - destruct (asleep sys !! t); [done |]. intros Hfin. apply Hkeep.
    assert (forall r s',
               scoutfs_trans_track_item t d_items d_vals (kernel sys) = Returned r s' ->
               keeps_others t (kernel sys) s') as Hpost.
    { intros r s' Hret.
      pose proof (track_item_post t d_items d_vals (kernel sys)) as Hp.
      rewrite Hret in Hp. apply Hp. }
    destruct (finished_others _ sys sys' _ Hpost Hfin) as [Hk ->].
    by split.
  - destruct (asleep sys !! t) eqn:Hawake; [done |]. intros Hfin.
    unfold scoutfs_release_trans in Hfin. apply Hkeep.
    destruct (bool_decide (trans_task (sbi (kernel sys)) = Some t)).
    { injection Hfin as <-. split; [apply keeps_others_refl | done]. }
    destruct (journal_info (kernel sys) !! t) as [rsv |] eqn:Hrsv; [| done].
    destruct (negb (rsv_magic rsv =? SCOUTFS_RESERVATION_MAGIC)); [done |].
    destruct (rsv_holders rsv <=? 0); [done |].
    destruct (tri_holders (tri (kernel sys)) <=? 0); [done |].
    injection Hfin as <-. simpl. split; [| done].
    destruct (wrap32 (rsv_holders rsv - 1) =? 0); simpl.
    + split_and!; try done. intros t' Hne. simpl. by rewrite lookup_delete_ne.
    + split_and!; try done. intros t' Hne. simpl. by rewrite lookup_insert_ne.
  - destruct (asleep sys !! t); [done |]. intros Hsettle. apply Hwork; [| done].
    eapply (settle_others _ _ _ sys sys'
              (fun s' => journal_info s' = journal_info (kernel sys)));
      [| exact Hsettle].
    apply write_func_journal.
  - destruct (asleep sys !! t); [done |]. intros Hsettle. apply Hkeep.
    destruct (settle_others _ _ _ sys sys' (untouched (kernel sys))
                (proj1 (sync_untouched (kernel sys)) wait) Hsettle) as [Hk Ha].
    split; [by apply untouched_keeps | done].
  - destruct (asleep sys !! t); [done |]. intros Hsettle. apply Hkeep.
    destruct (settle_others _ _ _ sys sys' (untouched (kernel sys))
                (proj1 (proj2 (sync_untouched (kernel sys)))) Hsettle) as [Hk Ha].
    split; [by apply untouched_keeps | done].
  - destruct (asleep sys !! t) as [[cnt | | attempt] |] eqn:Hasleep; [| | | done];
      intros Hsettle.
    + apply Hkeep. eapply settle_others; [| exact Hsettle].
      apply (proj2 (hold_trans_others t cnt true (kernel sys))).
    + apply Hwork; [| done].
      eapply (settle_others _ _ _ sys sys'
                (fun s' => journal_info s' = journal_info (kernel sys)));
        [| exact Hsettle].
      apply (proj2 (write_func_journal t (kernel sys))).
    + apply Hkeep.
      destruct (settle_others _ _ _ sys sys' (untouched (kernel sys))
                  (proj2 (proj2 (sync_untouched (kernel sys))) attempt signal) Hsettle)
        as [Hk Ha].
      split; [by apply untouched_keeps | done].
  - by intros [= <-].
Qed.

(** X12.  An event of one task changes neither the reservation of another
    task nor whether and where another task sleeps. *)
Theorem events_leave_other_tasks_alone e sys sys' t' :
  sys_step HZ e sys = Some sys' ->
  actor e <> Some t' ->
  journal_info (kernel sys') !! t' = journal_info (kernel sys) !! t' /\
  asleep sys' !! t' = asleep sys !! t'.
Proof.
  intros Hstep Hactor.
  pose proof (sys_step_others e sys sys' Hstep) as Hothers.
  destruct (actor e) as [t |].
  - destruct Hothers as [Hoth _]. apply Hoth. by intros ->.
  - destruct Hothers as (-> & -> & _). done.
Qed.

(** ** Reservations and sleepers along a run *)

Lemma settle_hold_own t cnt (o : @outcome W Z) sys sys' :
  holds_or_sleeps t o ->
  settle t (in_hold cnt) o sys = Some sys' ->
  (forall rsv, journal_info (kernel sys') !! t = Some rsv -> rsv_holders rsv = 0 ->
     exists c, asleep sys' !! t = Some (in_hold c)) /\
  (forall c, asleep sys' !! t = Some (in_hold c) ->
     exists rsv, journal_info (kernel sys') !! t = Some rsv /\ rsv_holders rsv = 0).
Proof.
  destruct o as [ret s | s |]; simpl; [| | done]; intros Hown [= <-]; simpl.
  - split; [intros rsv Hrsv Hz; by destruct (Hown rsv Hrsv) |].
    intros c. by rewrite lookup_delete_eq.
  - split; [intros; exists cnt; apply lookup_insert_eq | intros; exact Hown].
Qed.

Lemma settle_quiet_own {A : Type} t z (o : @outcome W A) sys sys' :
  (forall cnt, z <> in_hold cnt) ->
  outcome_inv (fun s' => journal_info s' = journal_info (kernel sys)) o ->
  (forall rsv, journal_info (kernel sys) !! t = Some rsv -> rsv_holders rsv <> 0) ->
  settle t z o sys = Some sys' ->
  (forall rsv, journal_info (kernel sys') !! t = Some rsv -> rsv_holders rsv = 0 ->
     exists c, asleep sys' !! t = Some (in_hold c)) /\
  (forall c, asleep sys' !! t = Some (in_hold c) ->
     exists rsv, journal_info (kernel sys') !! t = Some rsv /\ rsv_holders rsv = 0).
Proof.
  intros Hz.
  destruct o as [ret s | s |]; simpl; [| | done]; intros Hj Hheld [= <-]; simpl;
    rewrite Hj.
  - split; [intros rsv Hrsv Hzero; by destruct (Hheld rsv Hrsv) |].
    intros c. by rewrite lookup_delete_eq.
  - split; [intros rsv Hrsv Hzero; by destruct (Hheld rsv Hrsv) |].
    intros c. rewrite lookup_insert_eq. intros [= ->]. by destruct (Hz c).
Qed.

Lemma sys_step_unheld n e sys sys' :
  sys_inv False n sys -> n + 1 < 2 ^ 32 ->
  unheld_iff_asleep sys -> sys_step HZ e sys = Some sys' -> unheld_iff_asleep sys'.
Proof.
  intros [(Hn & Hrsvs & _) _] Hlim Hun Hstep.
  pose proof (sys_step_others e sys sys' Hstep) as Hothers.
  assert (forall t rsv, journal_info (kernel sys) !! t = Some rsv ->
                        0 <= rsv_holders rsv < 2 ^ 32 - 1) as Hbound.
  { intros t rsv Hrsv. destruct (Hrsvs t rsv Hrsv) as (_ & ? & _). lia. }
  assert (forall t rsv, (forall cnt, asleep sys !! t <> Some (in_hold cnt)) ->
                        journal_info (kernel sys) !! t = Some rsv ->
                        rsv_holders rsv <> 0) as Hheld.
  { intros t rsv Hnot Hrsv Hzero.
    destruct (proj1 (Hun t) rsv Hrsv Hzero) as [cnt Hc]. by apply (Hnot cnt). }
  assert (forall (A : Type) (o : @outcome W A),
             outcome_inv (untouched (kernel sys)) o ->
             outcome_inv (fun s' => journal_info s' = journal_info (kernel sys)) o)
    as Hjournal.
  { intros A o. apply outcome_inv_impl. by intros s0 (? & _). }
  intros t'.
  destruct (actor e) as [t |] eqn:Hactor; cycle 1.
  { destruct Hothers as (Hj & Ha & _). rewrite Hj, Ha. apply Hun. }
  destruct Hothers as [Hoth _].
  destruct (decide (t' = t)) as [-> | Hne]; cycle 1.
  { destruct (Hoth t' Hne) as [Hj Ha]. rewrite Hj, Ha. apply Hun. }
  clear Hoth.
  destruct e as [t0 cnt kz | t0 d_items d_vals | t0 | t0 | t0 wait | t0 | t0 signal | f];
    simpl in Hactor; try discriminate; injection Hactor as ->; unfold sys_step in Hstep.
  - (* hold *)
    destruct (asleep sys !! t) eqn:Hawake; [done |].
    eapply settle_hold_own; [| exact Hstep].
    apply hold_trans_own. intros rsv Hrsv.
    assert (rsv_holders rsv <> 0)
      by (eapply (Hheld t); [| done]; intros c; by rewrite Hawake).
    specialize (Hbound t rsv Hrsv). lia.
  - (* track *)
    destruct (asleep sys !! t) eqn:Hawake; [done |].
    pose proof (track_item_post t d_items d_vals (kernel sys)) as Hpost.
    destruct (scoutfs_trans_track_item t d_items d_vals (kernel sys)) as [[] s' | s' |];
      simpl in Hstep; [| done | done].
    injection Hstep as <-. simpl. destruct Hpost as [_ Hown]. split.
    + intros rsv' Hrsv' Hzero. destruct (Hown rsv' Hrsv') as (rsv & Hrsv & Heq).
      exfalso. apply (Hheld t rsv); [intros c; by rewrite Hawake | done | lia].
    + intros c. by rewrite Hawake.
  - (* release *)
    destruct (asleep sys !! t) eqn:Hawake; [done |].
    pose proof (release_trans_post t (kernel sys)) as Hpost.
    destruct (scoutfs_release_trans t (kernel sys)) as [[] s' | s' |];
      simpl in Hstep; [| done | done].
    injection Hstep as <-. simpl.
    destruct Hpost as [_ Hown].
    { intros rsv Hrsv. apply (Hheld t rsv); [intros c; by rewrite Hawake | done]. }
    split.
    + intros rsv' Hrsv' Hzero. by destruct (Hown rsv' Hrsv').
    + intros c. by rewrite Hawake.
  - (* the work function *)
    destruct (asleep sys !! t) eqn:Hawake; [done |].
    eapply (settle_quiet_own t in_write_func);
      [done | apply (proj1 (write_func_journal t (kernel sys))) | | exact Hstep].
    intros rsv Hrsv. apply (Hheld t rsv); [intros c; by rewrite Hawake | done].
  - (* sync *)
    destruct (asleep sys !! t) eqn:Hawake; [done |].
    eapply (settle_quiet_own t (in_sync _));
      [done | apply Hjournal, (proj1 (sync_untouched (kernel sys))) | | exact Hstep].
    intros rsv Hrsv. apply (Hheld t rsv); [intros c; by rewrite Hawake | done].
  - (* fsync *)
    destruct (asleep sys !! t) eqn:Hawake; [done |].
    eapply (settle_quiet_own t (in_sync _));
      [done | apply Hjournal, (proj1 (proj2 (sync_untouched (kernel sys))))
      | | exact Hstep].
    intros rsv Hrsv. apply (Hheld t rsv); [intros c; by rewrite Hawake | done].
  - (* a sleeper looks again *)
    destruct (asleep sys !! t) as [[cnt | | attempt] |] eqn:Hasleep; [| | | done].
    + eapply settle_hold_own; [| exact Hstep].
      apply hold_wait_own. intros rsv Hrsv. apply (Hbound t rsv Hrsv).
    + eapply (settle_quiet_own t in_write_func);
        [done | apply (proj2 (write_func_journal t (kernel sys))) | | exact Hstep].
      intros rsv Hrsv. apply (Hheld t rsv); [intros c; by rewrite Hasleep | done].
    + eapply (settle_quiet_own t (in_sync attempt));
        [done | apply Hjournal, (proj2 (proj2 (sync_untouched (kernel sys))))
        | | exact Hstep].
      intros rsv Hrsv. apply (Hheld t rsv); [intros c; by rewrite Hasleep | done].
Qed.

Lemma kinv_without_sums n s : kinv True n s -> kinv False n s.
Proof. intros (? & ? & ? & _). by split_and!. Qed.

Lemma run_unheld evs : forall n sys sys',
  sys_inv False n sys ->
  unheld_iff_asleep sys ->
  n + Z.of_nat (length evs) < 2 ^ 32 ->
  run HZ evs sys = Some sys' ->
  unheld_iff_asleep sys'.
Proof.
  induction evs as [| e evs IH]; intros n sys sys' Hinv Hun Hn; simpl.
  - by intros [= <-].
  - destruct (sys_step HZ e sys) as [sys1 |] eqn:Hstep; [| done].
    intros Hrun. simpl length in Hn.
    eapply (IH (n + 1) sys1); [| | lia | done].
    + eapply sys_step_inv; [done | done | lia | done].
    + eapply sys_step_unheld; [done | lia | done | done].
Qed.

Lemma boot_unheld (w : W) : unheld_iff_asleep (boot w).
Proof. intros t. split; [intros rsv | intros cnt]; simpl; by rewrite lookup_empty. Qed.

(** X14.  After a run of fewer than 2^32 events from the state
    [scoutfs_setup_trans] leaves, every reservation that exists carries
    the magic, and it has no holder exactly when its task is asleep in
    its first hold: a task that is not asleep in a hold and has a
    reservation holds the transaction.  A task asleep in a hold has a
    reservation. *)
Theorem reservation_unheld_iff_asleep (w : W) evs sys :
  Z.of_nat (length evs) < 2 ^ 32 ->
  run HZ evs (boot w) = Some sys ->
  forall t,
    (forall rsv,
       journal_info (kernel sys) !! t = Some rsv ->
       rsv_magic rsv = SCOUTFS_RESERVATION_MAGIC /\
       0 <= rsv_holders rsv /\
       (rsv_holders rsv = 0 <-> exists cnt, asleep sys !! t = Some (in_hold cnt))) /\
    (forall cnt,
       asleep sys !! t = Some (in_hold cnt) ->
       exists rsv, journal_info (kernel sys) !! t = Some rsv).
Proof.
  intros Hlen Hrun t.
  pose proof (run_inv HZ False evs 0 (boot w) sys (boot_inv False w)) as [Hinv _];
    [done | lia | done |].
  pose proof (run_unheld evs 0 (boot w) sys (boot_inv False w) (boot_unheld w)
                ltac:(lia) Hrun t) as [Hzero Hsleep].
  destruct Hinv as (_ & Hrsvs & _).
  split.
  - intros rsv Hrsv. destruct (Hrsvs t rsv Hrsv) as (Hmagic & Hh & _).
    split_and!; [done | lia |]. split; [by apply Hzero |].
    intros [cnt Hcnt]. destruct (Hsleep cnt Hcnt) as (rsv' & Hrsv' & Hnone).
    congruence.
  - intros cnt Hcnt. destruct (Hsleep cnt Hcnt) as (rsv & Hrsv & _). by exists rsv.
Qed.

(** X15.  Let the item cache be bounded and the arguments of the calls be C
    ints.  After a run of fewer than 2^32 events from the state
    [scoutfs_setup_trans] leaves, a task that is not asleep and for
    which [scoutfs_trans_held] is true trips no [BUG_ON]: its release
    returns, and takes one holder off the manager unless the task runs
    the commit; its track calls return; and a further hold of a valid
    count returns 0, whatever the schedule and whether or not memory can
    be allocated. *)
Theorem holder_calls_never_bug (w : W) evs sys t :
  fits_single_bounded ->
  Forall event_typed evs ->
  Z.of_nat (length evs) < 2 ^ 32 ->
  run HZ evs (boot w) = Some sys ->
  asleep sys !! t = None ->
  scoutfs_trans_held t (kernel sys) = true ->
  (exists s',
     scoutfs_release_trans t (kernel sys) = Returned tt s' /\
     (trans_task (sbi (kernel sys)) <> Some t ->
      tri_holders (tri s') = tri_holders (tri (kernel sys)) - 1)) /\
  (forall d_items d_vals,
     exists s', scoutfs_trans_track_item t d_items d_vals (kernel sys) = Returned tt s') /\
  (forall cnt kz rounds,
     count_valid cnt ->
     exists s', scoutfs_hold_trans t cnt kz rounds (kernel sys) = Returned 0 s').
Proof.
  intros Hbounded Htyped Hlen Hrun Hawake Hheld.
  pose proof (run_inv HZ True evs 0 (boot w) sys (boot_inv True w)) as [Hinv _];
    [done | lia | done |].
  assert (sys_inv False 0 (boot w)) as Hboot by apply boot_inv.
  pose proof (run_unheld evs 0 (boot w) sys Hboot (boot_unheld w) ltac:(lia) Hrun t)
    as [Hzero _].
  destruct Hinv as (_ & Hrsvs & _ & Hsums).
  destruct (Hsums I) as ((_ & _ & Hsum) & _ & _ & Hmax).
  unfold scoutfs_trans_held in Hheld.
  destruct (journal_info (kernel sys) !! t) as [rsv |] eqn:Hrsv; [| done].
  apply Z.eqb_eq in Hheld.
  destruct (Hrsvs t rsv Hrsv) as (_ & Hh & _).
  assert (rsv_holders rsv <> 0) as Hsome.
  { intros Hnone. destruct (Hzero rsv eq_refl Hnone) as [cnt Hcnt]. congruence. }
  assert (rsv_holders rsv <= tri_holders (tri (kernel sys))) as Hle.
  { rewrite Hsum. apply (sum_over_ge rsv_holders _ t rsv); [| done].
    intros k r Hk. destruct (Hrsvs k r Hk) as (_ & ? & _). lia. }
  split_and!.
  - unfold scoutfs_release_trans.
    destruct (bool_decide (trans_task (sbi (kernel sys)) = Some t)) eqn:Htask.
    + apply bool_decide_eq_true in Htask. eexists. split; [done |]. by intros Hne.
    + rewrite Hrsv, Hheld, Z.eqb_refl. simpl.
      replace (rsv_holders rsv <=? 0) with false by (symmetry; apply Z.leb_gt; lia).
      replace (tri_holders (tri (kernel sys)) <=? 0) with false
        by (symmetry; apply Z.leb_gt; lia).
      eexists. split; [done |]. intros _.
      destruct (wrap32 (rsv_holders rsv - 1) =? 0); simpl; apply wrap32_small; lia.
  - intros d_items d_vals. unfold scoutfs_trans_track_item.
    destruct (bool_decide (trans_task (sbi (kernel sys)) = Some t)); [by eexists |].
    rewrite Hrsv, Hheld, Z.eqb_refl. simpl.
    destruct (WARN_ON_ONCE warn_track_items _ _) as [b2 s2].
    destruct (WARN_ON_ONCE warn_track_vals _ _) as [b3 s3]. by eexists.
  - intros cnt kz rounds Hvalid.
    destruct (decide (trans_task (sbi (kernel sys)) = Some t)) as [Htask | Htask].
    + unfold scoutfs_hold_trans. rewrite hold_prologue_valid by done.
      rewrite bool_decide_eq_true_2 by done. by eexists.
    + eexists. by apply (nested_hold_state t cnt kz rounds (kernel sys) rsv).
Qed.

(** X16.  The unsigned fields of the manager and of the reservations never
    wrap: with a bounded item cache and calls whose arguments are C
    ints, after a run of fewer than 2^32 events from the state
    [scoutfs_setup_trans] leaves, the reserved counts of the manager are
    between 0 and [INT_MAX] and its holders between 0 and the number of
    events, and every reservation has between 0 and that many holders
    and reserved counts that are not negative. *)
Theorem manager_counts_never_wrap (w : W) evs sys :
  fits_single_bounded ->
  Forall event_typed evs ->
  Z.of_nat (length evs) < 2 ^ 32 ->
  run HZ evs (boot w) = Some sys ->
  0 <= tri_reserved_items (tri (kernel sys)) <= INT_MAX /\
  0 <= tri_reserved_vals (tri (kernel sys)) <= INT_MAX /\
  0 <= tri_holders (tri (kernel sys)) <= Z.of_nat (length evs) /\
  forall t rsv,
    journal_info (kernel sys) !! t = Some rsv ->
    0 <= rsv_holders rsv <= Z.of_nat (length evs) /\
    0 <= items (rsv_reserved rsv) /\ 0 <= vals (rsv_reserved rsv).
Proof.
  intros Hbounded Htyped Hlen Hrun.
  pose proof (run_inv HZ True evs 0 (boot w) sys (boot_inv True w)) as [Hinv _];
    [done | lia | done |].
  destruct Hinv as (_ & Hrsvs & _ & Hsums).
  destruct (Hsums I) as ((Hi & Hv & Hh) & Himax & Hvmax & Hhmax).
  assert (forall (f : scoutfs_reservation -> Z),
             (forall rsv, rsv_ok (0 + Z.of_nat (length evs)) rsv -> 0 <= f rsv) ->
             0 <= sum_over f (journal_info (kernel sys))) as Hpos.
  { intros f Hf. apply sum_over_nonneg. intros k r Hk. by eapply Hf, Hrsvs. }
  split_and!; try lia.
  - rewrite Hi. apply Hpos. by intros rsv (_ & _ & ? & _).
  - rewrite Hv. apply Hpos. by intros rsv (_ & _ & _ & ? & _).
  - rewrite Hh. apply Hpos. intros rsv (_ & ? & _). lia.
  - intros t rsv Hrsv. destruct (Hrsvs t rsv Hrsv) as (_ & ? & ? & ? & _).
    unfold reserved_items, reserved_vals in *. split_and!; lia.
Qed.

(** ** fsync *)


End more_proofs.

(** ** The theorems above on the small file system *)

Lemma sync_returns_are_justified_witness :
  let s := toy_mounted toy_submit_fails in
  1 <> 0 /\
  exists ret s',
    scoutfs_trans_sync 1 [toy_idle_round; toy_commit] s = Returned ret s' /\
    ((trans_write_count (sbi s) < trans_write_count (sbi s') /\
      ret = trans_write_ret (sbi s')) \/
     (trans_write_count (sbi s') <= trans_write_count (sbi s) /\ ret = - ERESTARTSYS)).
Proof.
  intros s. assert (1 <> 0) as Hwait by lia. split; [exact Hwait |].
  pose proof (sync_returns_are_justified 1 [toy_idle_round; toy_commit] s Hwait) as Hsync.
  destruct (scoutfs_trans_sync 1 [toy_idle_round; toy_commit] s) as [ret s' | s' |] eqn:Hrun.
  - exists ret, s'. split; [reflexivity |]. apply Hsync.
  - by vm_compute in Hrun.
  - by vm_compute in Hrun.
Defined.

Lemma hold_release_round_trip_witness :
  let s := initial_state toy_clean in
  exists s1,
    scoutfs_hold_trans 1 (mk_count 10 1024) true [toy_idle_round] s = Returned 0 s1 /\
    scoutfs_trans_held 1 s = false /\
    scoutfs_trans_held 1 s1 = true /\
    scoutfs_release_trans 1 s1 = Returned tt s.
Proof.
  intros s.
  apply (hold_release_round_trip 1%nat (mk_count 10 1024) [toy_idle_round] s).
  - by vm_compute.
  - by vm_compute.
  - vm_compute. reflexivity.
  - reflexivity.
  - vm_compute. reflexivity.
  - unfold tri_is_unsigned. simpl. lia.
  - simpl. lia.
Defined.

Lemma nested_hold_release_round_trip_witness :
  exists s rsv s1,
    scoutfs_hold_trans 1 (mk_count 10 1024) true [] (initial_state toy_clean)
      = Returned 0 s /\
    journal_info s !! 1%nat = Some rsv /\
    scoutfs_hold_trans 1 (mk_count 20 2048) false [] s = Returned 0 s1 /\
    scoutfs_release_trans 1 s1 = Returned tt s.
Proof.
  eexists. eexists.
  match goal with
  | |- exists s1, ?A /\ ?B /\ _ =>
      assert A as Hfirst by (vm_compute; reflexivity);
      assert B as Hrsv by (vm_compute; reflexivity)
  end.
  match type of Hrsv with
  | journal_info ?s !! _ = Some ?rsv =>
      assert (count_valid (mk_count 20 2048)) as Hvalid by (clear; by vm_compute);
      assert (trans_task (sbi s) <> Some 1%nat) as Htask by (clear; by vm_compute);
      assert (0 < rsv_holders rsv < 2 ^ 32 - 1) as Hheld
        by (clear; vm_compute; intuition discriminate);
      assert (0 <= tri_holders (tri s) < 2 ^ 32 - 1) as Hholders
        by (clear; vm_compute; intuition discriminate)
  end.
  destruct (nested_hold_release_round_trip 1%nat (mk_count 20 2048) false [] _ _
              Hvalid Htask Hrsv eq_refl Hheld Hholders) as (s1 & Hhold & Hrel).
  exists s1. auto.
Defined.

Lemma first_hold_all_or_nothing_witness :
  let s := initial_state toy_clean in
  journal_info s !! 2%nat = None /\
  trans_task (sbi s) <> Some 2%nat /\
  Forall leaves_manager [toy_signal_round] /\
  exists s',
    scoutfs_hold_trans 2 (mk_count 120 0) true [toy_signal_round] s
      = Returned (- ERESTARTSYS) s' /\
    journal_info s' = journal_info s /\ tri s' = tri s.
Proof.
  intros s.
  assert (journal_info s !! 2%nat = None) as Hnone by (vm_compute; reflexivity).
  assert (trans_task (sbi s) <> Some 2%nat) as Htask by (clear; by vm_compute).
  assert (Forall leaves_manager [toy_signal_round]) as Hquiet.
  { apply List.Forall_cons; [| apply List.Forall_nil]. intros s0. by split. }
  split; [exact Hnone |]. split; [exact Htask |]. split; [exact Hquiet |].
  pose proof (first_hold_all_or_nothing 2%nat (mk_count 120 0) true [toy_signal_round] s
                Hnone Htask Hquiet) as Hhold.
  destruct (scoutfs_hold_trans 2 (mk_count 120 0) true [toy_signal_round] s)
    as [ret s' | s' |] eqn:Hrun.
  - assert (ret = - ERESTARTSYS) as ->
      by (vm_compute in Hrun; injection Hrun as <- _; reflexivity).
    exists s'. split; [reflexivity |].
    destruct Hhold as [(Hzero & _) | (_ & Hj & Htri)]; [by vm_compute in Hzero |].
    by split.
  - by vm_compute in Hrun.
  - by vm_compute in Hrun.
Defined.


Lemma events_leave_other_tasks_alone_witness :
  exists sys sys',
    run 250 toy_two_holders (boot toy_clean) = Some sys /\
    sys_step 250 (call_release 2) sys = Some sys' /\
    actor (call_release (W := toy_world) 2) <> Some 1%nat /\
    journal_info (kernel sys') !! 1%nat = journal_info (kernel sys) !! 1%nat /\
    asleep sys' !! 1%nat = asleep sys !! 1%nat.
Proof.
  eexists. eexists.
  match goal with
  | |- ?A /\ _ => assert A as Hrun by (vm_compute; reflexivity)
  end.
  split; [exact Hrun |].
  match goal with
  | |- ?A /\ ?B /\ _ =>
      assert A as Hstep by (vm_compute; reflexivity);
      assert B as Hactor by (clear; by vm_compute)
  end.
  split; [exact Hstep |]. split; [exact Hactor |].
  exact (events_leave_other_tasks_alone 250 _ _ _ 1%nat Hstep Hactor).
Defined.

Lemma reservation_unheld_iff_asleep_witness :
  exists sys rsv,
    Z.of_nat (length toy_hold_while_writing) < 2 ^ 32 /\
    run 250 toy_hold_while_writing (boot toy_clean) = Some sys /\
    journal_info (kernel sys) !! 2%nat = Some rsv /\
    rsv_magic rsv = SCOUTFS_RESERVATION_MAGIC /\
    0 <= rsv_holders rsv /\
    (rsv_holders rsv = 0 <-> exists cnt, asleep sys !! 2%nat = Some (in_hold cnt)).
Proof.
  eexists. eexists.
  match goal with
  | |- ?A /\ ?B /\ ?C /\ _ =>
      assert A as Hlen by (clear; by vm_compute);
      assert B as Hrun by (vm_compute; reflexivity);
      assert C as Hrsv by (vm_compute; reflexivity)
  end.
  split; [exact Hlen |]. split; [exact Hrun |]. split; [exact Hrsv |].
  destruct (reservation_unheld_iff_asleep 250 toy_clean toy_hold_while_writing _
              Hlen Hrun 2%nat) as [Hhas _].
  exact (Hhas _ Hrsv).
Defined.

Lemma holder_calls_never_bug_witness :
  exists sys s',
    fits_single_bounded (collab := toy) /\
    Forall event_typed toy_two_holders /\
    Z.of_nat (length toy_two_holders) < 2 ^ 32 /\
    run 250 toy_two_holders (boot toy_clean) = Some sys /\
    asleep sys !! 1%nat = None /\
    scoutfs_trans_held 1 (kernel sys) = true /\
    scoutfs_release_trans 1 (kernel sys) = Returned tt s' /\
    (trans_task (sbi (kernel sys)) <> Some 1%nat ->
     tri_holders (tri s') = tri_holders (tri (kernel sys)) - 1).
Proof.
  eexists.
  assert (fits_single_bounded (collab := toy)) as Hbounded.
  { intros w i v Hfits. simpl in Hfits. unfold toy_seg_fits_single in Hfits.
    rewrite !andb_true_iff, !Z.leb_le in Hfits. unfold INT_MAX. lia. }
  assert (Forall event_typed toy_two_holders) as Htyped.
  { clear. unfold toy_two_holders.
    repeat apply List.Forall_cons; try apply List.Forall_nil;
      vm_compute; intuition discriminate. }
  assert (Z.of_nat (length toy_two_holders) < 2 ^ 32) as Hlen by (clear; by vm_compute).
  match goal with
  | |- exists s', _ /\ _ /\ _ /\ ?A /\ ?B /\ ?C /\ _ =>
      assert A as Hrun by (vm_compute; reflexivity);
      assert B as Hawake by (vm_compute; reflexivity);
      assert C as Hheld by (vm_compute; reflexivity)
  end.
  destruct (holder_calls_never_bug 250 toy_clean toy_two_holders _ 1%nat
              Hbounded Htyped Hlen Hrun Hawake Hheld) as ((s' & Hrel & Hone) & _).
  exists s'.
  split; [exact Hbounded |]. split; [exact Htyped |]. split; [exact Hlen |].
  split; [exact Hrun |]. split; [exact Hawake |]. split; [exact Hheld |].
  split; [exact Hrel | exact Hone].
Defined.

Lemma manager_counts_never_wrap_witness :
  exists sys,
    fits_single_bounded (collab := toy) /\
    Forall event_typed toy_two_holders /\
    Z.of_nat (length toy_two_holders) < 2 ^ 32 /\
    run 250 toy_two_holders (boot toy_clean) = Some sys /\
    0 <= tri_reserved_items (tri (kernel sys)) <= INT_MAX /\
    0 <= tri_reserved_vals (tri (kernel sys)) <= INT_MAX /\
    0 <= tri_holders (tri (kernel sys)) <= Z.of_nat (length toy_two_holders).
Proof.
  eexists.
  assert (fits_single_bounded (collab := toy)) as Hbounded.
  { intros w i v Hfits. simpl in Hfits. unfold toy_seg_fits_single in Hfits.
    rewrite !andb_true_iff, !Z.leb_le in Hfits. unfold INT_MAX. lia. }
  assert (Forall event_typed toy_two_holders) as Htyped.
  { clear. unfold toy_two_holders.
    repeat apply List.Forall_cons; try apply List.Forall_nil;
      vm_compute; intuition discriminate. }
  assert (Z.of_nat (length toy_two_holders) < 2 ^ 32) as Hlen by (clear; by vm_compute).
  match goal with
  | |- _ /\ _ /\ _ /\ ?A /\ _ => assert A as Hrun by (vm_compute; reflexivity)
  end.
  destruct (manager_counts_never_wrap 250 toy_clean toy_two_holders _
              Hbounded Htyped Hlen Hrun) as (Hi & Hv & Hh & _).
  split; [exact Hbounded |]. split; [exact Htyped |]. split; [exact Hlen |].
  split; [exact Hrun |]. split; [exact Hi |]. split; [exact Hv | exact Hh].
Defined.

